(** * Automation-Framework: the workflow orchestration engine

    A shallow embedding of [workflow.py] (the records [Task], [StepResult],
    [TaskRunResult] and the class [AutomationWorkflow]) and the
    properties of its control flow.

    Modelling conventions.
    - A value produced by [json.loads] is a [value]; Python's [None] is
      [JNull].  JSON numbers are integers ([Z]); text is a Rocq [string]
      read as ASCII.
    - A Python [dict] is an association list in insertion order, keyed by
      the hashable scalars.
    - The planner, executor, reviewer and coordinator are opaque: each call
      is a function of an abstract world [W] which returns either the
      description of the exception it raised or its answer, and the next
      world.  The [log_file_path] the engine forwards unchanged lives in
      that closure.  The file system is opaque in the same way: writing a
      report is a function of the world that raises or is done.
    - Engine code runs in a monad that threads the world, propagates
      exceptions and records every collaborator call and every report
      handed to the file system, in order.

    The code around the engine is embedded after it: the skill registry of
    [skills.py], the conversations of [agent.py], the colours of
    [utils.py] and the skill loop of [Agents/executor.py]. *)

From Stdlib Require Import List String Ascii ZArith Bool Lia Arith.
From Stdlib Require Import DecimalString.
Import ListNotations.
Open Scope string_scope.
Open Scope Z_scope.

Set Implicit Arguments.
Set Warnings "-register-all".

(* ================================================================= *)
(** ** Python values *)

Module Py.

(** Keys a [dict] can hold: the hashable values of the JSON universe. *)
Inductive key : Type :=
| KNull
| KBool (b : bool)
| KInt (z : Z)
| KStr (s : string).

Inductive value : Type :=
| JNull
| JBool (b : bool)
| JInt (z : Z)
| JStr (s : string)
| JList (items : list value)
| JDict (entries : list (key * value)).

Definition dict : Type := list (key * value).

(** Exceptions.  [Raise] is a [raise] statement of [workflow.py] with the
    message it formats; [Builtin] is an exception raised inside a Python
    builtin ([dict()], [str.join]); [Collaborator] is whatever a call that
    leaves the engine raised, propagated unchanged: a call of an agent, or
    [Path.write_text] on the report file (an [OSError], say). *)
Inductive exn_class : Type := RuntimeError | ValueError | TypeError | KeyError.

Inductive exn : Type :=
| Raise (cls : exn_class) (msg : string)
| Builtin (cls : exn_class)
| Collaborator (description : string).

Definition result (A : Type) : Type := (exn + A)%type.

(** [bool(v)] *)
Definition truthy (v : value) : bool :=
  match v with
  | JNull => false
  | JBool b => b
  | JInt z => negb (z =? 0)
  | JStr s => negb (String.eqb s "")
  | JList items => match items with [] => false | _ => true end
  | JDict entries => match entries with [] => false | _ => true end
  end.

(** [a or b] *)
Definition py_or (a b : value) : value := if truthy a then a else b.

(** The integer a numeric key stands for: [True == 1], [False == 0]. *)
Definition key_num (k : key) : option Z :=
  match k with
  | KBool b => Some (if b then 1 else 0)
  | KInt z => Some z
  | _ => None
  end.

(** [k1 == k2] on keys. *)
Definition key_eqb (k1 k2 : key) : bool :=
  match k1, k2 with
  | KNull, KNull => true
  | KStr a, KStr b => String.eqb a b
  | _, _ =>
      match key_num k1, key_num k2 with
      | Some a, Some b => a =? b
      | _, _ => false
      end
  end.

Fixpoint lookup (d : dict) (k : key) : option value :=
  match d with
  | [] => None
  | (k', v) :: rest => if key_eqb k' k then Some v else lookup rest k
  end.

(** [d.get(k, default)] *)
Definition get_default (d : dict) (k : string) (default : value) : value :=
  match lookup d (KStr k) with
  | Some v => v
  | None => default
  end.

(** [d.get(k)] *)
Definition get (d : dict) (k : string) : value := get_default d k JNull.

(** [d[k]] *)
Definition getitem (d : dict) (k : string) : result value :=
  match lookup d (KStr k) with
  | Some v => inr v
  | None => inl (Builtin KeyError)
  end.

(** [d[k] = v]: an existing key keeps its place. *)
Fixpoint setitem (d : dict) (k : key) (v : value) : dict :=
  match d with
  | [] => [(k, v)]
  | (k', v') :: rest =>
      if key_eqb k' k then (k', v) :: rest else (k', v') :: setitem rest k v
  end.

(** [d.setdefault(k, v)], as a statement. *)
Definition setdefault (d : dict) (k : string) (v : value) : dict :=
  match lookup d (KStr k) with
  | Some _ => d
  | None => (d ++ [(KStr k, v)])%list
  end.

Definition value_of_key (k : key) : value :=
  match k with
  | KNull => JNull
  | KBool b => JBool b
  | KInt z => JInt z
  | KStr s => JStr s
  end.

(** [hash(v)] succeeds on scalars only. *)
Definition key_of_value (v : value) : result key :=
  match v with
  | JNull => inr KNull
  | JBool b => inr (KBool b)
  | JInt z => inr (KInt z)
  | JStr s => inr (KStr s)
  | JList _ | JDict _ => inl (Builtin TypeError)
  end.

Definition chars (s : string) : list value :=
  map (fun c => JStr (String c EmptyString)) (list_ascii_of_string s).

(** One element of the sequence given to [dict()]: it is iterated and must
    yield exactly two items. *)
Definition pair_of (v : value) : result (value * value) :=
  match v with
  | JNull | JBool _ | JInt _ => inl (Builtin TypeError)
  | JStr s =>
      match chars s with
      | [a; b] => inr (a, b)
      | _ => inl (Builtin ValueError)
      end
  | JList items =>
      match items with
      | [a; b] => inr (a, b)
      | _ => inl (Builtin ValueError)
      end
  | JDict entries =>
      match entries with
      | [(k1, _); (k2, _)] => inr (value_of_key k1, value_of_key k2)
      | _ => inl (Builtin ValueError)
      end
  end.

Fixpoint dict_of_pairs (acc : dict) (items : list value) : result dict :=
  match items with
  | [] => inr acc
  | item :: rest =>
      match pair_of item with
      | inl e => inl e
      | inr (k, v) =>
          match key_of_value k with
          | inl e => inl e
          | inr k' => dict_of_pairs (setitem acc k' v) rest
          end
      end
  end.

(** [dict(v)] *)
Definition py_dict (v : value) : result dict :=
  match v with
  | JDict entries => inr entries
  | JList items => dict_of_pairs [] items
  | JStr s => dict_of_pairs [] (chars s)
  | JNull | JBool _ | JInt _ => inl (Builtin TypeError)
  end.

(** [l[-1]], when [l] is not empty. *)
Definition final {A} (l : list A) : option A := last (map Some l) None.

(** *** [str()] and [repr()] *)

Definition str_of_Z (z : Z) : string := NilZero.string_of_int (Z.to_int z).
Definition str_of_nat (n : nat) : string := str_of_Z (Z.of_nat n).

Definition hex_digit (n : nat) : ascii :=
  match n with
  | 0 => "0" | 1 => "1" | 2 => "2" | 3 => "3" | 4 => "4" | 5 => "5"
  | 6 => "6" | 7 => "7" | 8 => "8" | 9 => "9" | 10 => "a" | 11 => "b"
  | 12 => "c" | 13 => "d" | 14 => "e" | _ => "f"
  end%char%nat.

Definition ascii_in (c : ascii) (s : string) : bool :=
  existsb (Ascii.eqb c) (list_ascii_of_string s).

Definition backslash : ascii := "092"%char.
Definition apostrophe : ascii := "039"%char.
Definition double_quote : ascii := "034"%char.

(** One character of a string literal delimited by [quote]. *)
Definition escape_char (quote c : ascii) : string :=
  let n := nat_of_ascii c in
  if (Ascii.eqb c quote || Ascii.eqb c backslash)%bool then
    String backslash (String c EmptyString)
  else if Ascii.eqb c "009" then String backslash "t"
  else if Ascii.eqb c "010" then String backslash "n"
  else if Ascii.eqb c "013" then String backslash "r"
  else if ((n <? 32) || (126 <? n))%nat%bool then
    String backslash (String "x" (String (hex_digit (n / 16))
                             (String (hex_digit (n mod 16)) EmptyString)))
  else String c EmptyString.

(** [repr(s)] for a string: single quotes unless the text has a single quote
    and no double quote. *)
Definition repr_str (s : string) : string :=
  let quote : ascii :=
    if (ascii_in apostrophe s && negb (ascii_in double_quote s))%bool
    then double_quote else apostrophe in
  String quote
    (String.concat "" (map (escape_char quote) (list_ascii_of_string s))
     ++ String quote EmptyString).

Definition repr_key (k : key) : string :=
  match k with
  | KNull => "None"
  | KBool b => if b then "True" else "False"
  | KInt z => str_of_Z z
  | KStr s => repr_str s
  end.

Fixpoint repr (v : value) : string :=
  match v with
  | JNull => "None"
  | JBool b => if b then "True" else "False"
  | JInt z => str_of_Z z
  | JStr s => repr_str s
  | JList items => "[" ++ String.concat ", " (map repr items) ++ "]"
  | JDict entries =>
      "{" ++ String.concat ", "
               (map (fun kv => repr_key (fst kv) ++ ": " ++ repr (snd kv)) entries)
          ++ "}"
  end.

(** [str(v)], which is what an f-string field applies. *)
Definition str (v : value) : string :=
  match v with
  | JStr s => s
  | _ => repr v
  end.

(** [sep.join(items)]: every item must be a [str]. *)
Fixpoint join_items (items : list value) : result (list string) :=
  match items with
  | [] => inr []
  | JStr s :: rest =>
      match join_items rest with
      | inl e => inl e
      | inr ss => inr (s :: ss)
      end
  | _ :: _ => inl (Builtin TypeError)
  end.

Definition join (sep : string) (items : list value) : result string :=
  match join_items items with
  | inl e => inl e
  | inr ss => inr (String.concat sep ss)
  end.

End Py.
Import Py.

(* ================================================================= *)
(** ** The records of [workflow.py] *)

Record Task : Type := {
  name : string;
  objective : string;
  context : option string;
  deliverable : option string;
  constraints : option (list string)
}.

(** [step_id] is declared [str] but holds [step["id"]], whatever the planner
    put there. *)
Record StepResult : Type := {
  step_id : value;
  step : dict;
  output : dict;
  review : dict;
  attempt : nat
}.

Record TaskRunResult : Type := {
  task : Task;
  plan : dict;
  step_results : list StepResult;
  reviewer_summary : dict;
  coordinator_summary : option string
}.

Definition newline : string := String "010" EmptyString.

(** Truth value of an [Optional[str]]: [None] and the empty text are false. *)
Definition nonempty (o : option string) : list string :=
  match o with
  | Some s => if String.eqb s "" then [] else [s]
  | None => []
  end.

Definition timeline_line (r : StepResult) : value :=
  let status := if truthy (get (review r) "approved") then "Approved" else "Pending" in
  JStr ("- **" ++ str (step_id r) ++ "** (attempt " ++ str_of_nat (attempt r) ++ ", "
        ++ status ++ "): "
        ++ str (get_default (output r) "summary" (JStr "No summary available"))).

Definition markdown_lines (r : TaskRunResult) : list value :=
  ([ JStr ("# Task Report: " ++ name (task r));
     JStr "";
     JStr ("**Objective:** " ++ objective (task r)) ]
   ++ map (fun c => JStr ("**Context:** " ++ c)) (nonempty (context (task r)))
   ++ map (fun d => JStr ("**Expected Deliverable:** " ++ d))
          (nonempty (deliverable (task r)))
   ++ [ JStr ""; JStr "## Plan Overview";
        get_default (plan r) "plan_overview" (JStr "No overview provided.");
        JStr "" ]
   ++ [ JStr "## Execution Timeline" ]
   ++ match step_results r with
      | [] => [ JStr "No steps were executed." ]
      | results => map timeline_line results
      end
   ++ [ JStr "" ]
   ++ [ JStr "## Reviewer Verdict";
        get_default (reviewer_summary r) "feedback" (JStr "No reviewer feedback recorded.");
        JStr "" ]
   ++ flat_map (fun c => [ JStr "## Coordinator Summary"; JStr c; JStr "" ])
               (nonempty (coordinator_summary r)))%list.

(** [TaskRunResult.to_markdown] *)
Definition to_markdown (r : TaskRunResult) : result string :=
  join newline (markdown_lines r).

(** *** The report file name *)

Definition is_alnum (c : ascii) : bool :=
  let n := nat_of_ascii c in
  ((48 <=? n) && (n <=? 57) || (65 <=? n) && (n <=? 90)
   || (97 <=? n) && (n <=? 122))%nat%bool.

Definition lower (c : ascii) : ascii :=
  let n := nat_of_ascii c in
  if ((65 <=? n) && (n <=? 90))%nat%bool then ascii_of_nat (n + 32) else c.

Definition safe_char (c : ascii) : ascii :=
  if (is_alnum c || Ascii.eqb c "-" || Ascii.eqb c "_")%bool then lower c else "-"%char.

Fixpoint lstrip (c : ascii) (l : list ascii) : list ascii :=
  match l with
  | x :: rest => if Ascii.eqb x c then lstrip c rest else l
  | [] => []
  end.

(** [s.strip(c)] on a list of characters. *)
Definition strip (c : ascii) (l : list ascii) : list ascii :=
  rev (lstrip c (rev (lstrip c l))).

Definition safe_name (task_name : string) : string :=
  let s := string_of_list_ascii
             (strip "-" (map safe_char (list_ascii_of_string task_name))) in
  if String.eqb s "" then "task" else s.

(* ================================================================= *)
(** ** Collaborators, events and the engine monad *)

(** What a collaborator call yields: the exception it raised, or its answer. *)
Definition response (A : Type) : Type := (string + A)%type.

Inductive event : Type :=
| Kickoff (resp : response string)
| ProposePlan (feedback : value) (previous_plan : option dict) (resp : response dict)
| ReviewPlan (proposed : dict) (iteration : nat) (resp : response dict)
| ExecuteStep (spec : dict) (prior_results : list StepResult) (feedback : value)
              (resp : response dict)
| ReviewStep (spec : dict) (execution_output : dict) (attempt_no : nat)
             (resp : response dict)
| FinalReview (approved_plan : dict) (results : list StepResult) (resp : response dict)
| SynthesiseOutcome (approved_plan : dict) (results : list StepResult)
                    (summary : dict) (resp : response string)
| WriteReport (file : string) (content : string).

Section Agents.
Variable W : Type.

Record PlannerAgent : Type := {
  propose_plan : Task -> value -> option dict -> W -> response dict * W
}.

Record ExecutorAgent : Type := {
  execute_step : Task -> dict -> list StepResult -> value -> W -> response dict * W
}.

Record ReviewerAgent : Type := {
  review_plan : Task -> dict -> nat -> W -> response dict * W;
  review_step : Task -> dict -> dict -> nat -> W -> response dict * W;
  final_review : Task -> dict -> list StepResult -> W -> response dict * W
}.

Record CoordinatorAgent : Type := {
  kickoff_task : Task -> W -> response string * W;
  synthesise_outcome :
    Task -> dict -> list StepResult -> dict -> W -> response string * W
}.

(** The fields of [AutomationWorkflow.__init__].  [reports_dir] is what the
    engine does with it: [write_text file content] stands for
    [(self.reports_dir / file).write_text(content)], which raises or is
    done. *)
Record AutomationWorkflow : Type := {
  planner : PlannerAgent;
  executor : ExecutorAgent;
  reviewer : ReviewerAgent;
  coordinator : option CoordinatorAgent;
  write_text : string -> string -> W -> response unit * W;
  max_plan_iterations : Z;
  max_step_iterations : Z;
  max_replan_attempts : Z
}.

(** The engine monad: world in; result, world and emitted events out. *)
Definition M (A : Type) : Type := W -> result A * W * list event.

Definition ret {A} (a : A) : M A := fun w => (inr a, w, []).

Definition raise {A} (e : exn) : M A := fun w => (inl e, w, []).

Definition bind {A B} (m : M A) (f : A -> M B) : M B :=
  fun w =>
    match m w with
    | (inl e, w1, t1) => (inl e, w1, t1)
    | (inr a, w1, t1) =>
        match f a w1 with
        | (r, w2, t2) => (r, w2, (t1 ++ t2)%list)
        end
    end.

Definition lift {A} (r : result A) : M A := fun w => (r, w, []).

Definition emit (e : event) : M unit := fun w => (inr tt, w, [e]).

(** A collaborator call: its exception propagates, the exchange is logged. *)
Definition call {A} (f : W -> response A * W) (log : response A -> event) : M A :=
  fun w =>
    match f w with
    | (inl d, w') => (inl (Collaborator d), w', [log (inl d)])
    | (inr a, w') => (inr a, w', [log (inr a)])
    end.

End Agents.

Arguments ret {W A} a _ : simpl never.
Arguments raise {W A} e _ : simpl never.
Arguments bind {W A B} m f _ : simpl never.
Arguments lift {W A} r _ : simpl never.
Arguments emit {W} e _ : simpl never.
Arguments call {W A} f log _ : simpl never.

Notation "x <- m ;; k" := (bind m (fun x => k))
  (at level 61, m at next level, right associativity).
Notation "' pat <- m ;; k" := (bind m (fun x => match x with pat => k end))
  (at level 61, pat pattern, m at next level, right associativity).
Notation "m ;;; k" := (bind m (fun _ => k))
  (at level 61, right associativity).

(* ================================================================= *)
(** ** [AutomationWorkflow] *)

Section Workflow.
Variable W : Type.
Variable self : AutomationWorkflow W.

(** The messages of the four [raise] statements. *)
Definition steps_not_array : exn :=
  Raise ValueError "Planner response must contain a 'steps' array.".

Definition step_not_approved (id : value) : exn :=
  Raise RuntimeError
    ("Step '" ++ str id ++ "' was not approved after "
     ++ str_of_Z (max_step_iterations self) ++ " attempts.").

Definition replans_exceeded (t : Task) : exn :=
  Raise RuntimeError
    ("Exceeded maximum execution replans for task '" ++ name t ++ "'.").

Definition plan_attempts_exceeded (t : Task) : exn :=
  Raise RuntimeError ("Exceeded maximum plan attempts for task '" ++ name t ++ "'.").

Definition default_replan_feedback : value :=
  JStr "Reviewer requested a re-plan during execution.".

(** [_write_report]: the report is rendered, then handed to [write_text],
    whose exception leaves the engine; [WriteReport] records that call. *)
Definition _write_report (r : TaskRunResult) : M W unit :=
  let report_file := safe_name (name (task r)) ++ ".md" in
  text <- lift (to_markdown r) ;;
  call (write_text self report_file text) (fun _ => WriteReport report_file text).

(** The [for attempt in range(1, max_step_iterations + 1)] loop of
    [_execute_plan], over the attempts still to make.  It yields the
    variables the code reads after it: [step_attempts], [approved_results]
    and [require_replan]. *)
Fixpoint attempts_loop (t : Task) (step : dict) (attempts : list nat)
    (approved_results : list StepResult) (attempt_feedback : value)
    (step_attempts : list StepResult)
  : M W (list StepResult * list StepResult * bool) :=
  match attempts with
  | [] => ret (step_attempts, approved_results, false)
  | attempt :: later =>
      execution_output <-
        call (execute_step (executor self) t step approved_results attempt_feedback)
             (ExecuteStep step approved_results attempt_feedback) ;;
      step_review <-
        call (review_step (reviewer self) t step execution_output attempt)
             (ReviewStep step execution_output attempt) ;;
      id <- lift (getitem step "id") ;;
      let step_result :=
        {| step_id := id; step := step; output := execution_output;
           review := step_review; attempt := attempt |} in
      let step_attempts := (step_attempts ++ [step_result])%list in
      if truthy (get step_review "approved") then
        ret (step_attempts, (approved_results ++ [step_result])%list, false)
      else if truthy (get step_review "requires_replan") then
        ret (step_attempts, approved_results, true)
      else
        attempts_loop t step later approved_results (get step_review "feedback")
                      step_attempts
  end.

(** How the [for index, raw_step in enumerate(steps, start=1)] loop ends:
    it runs to completion, or the function returns [(None, feedback)] from
    inside it. *)
Inductive loop_exit : Type :=
| Completed (all_results : list StepResult)
| ReplanRequested (feedback : value).

(** [not step_attempts or not step_attempts[-1].review.get("approved")],
    negated. *)
Definition approved_last (step_attempts : list StepResult) : bool :=
  match final step_attempts with
  | Some r => truthy (get (review r) "approved")
  | None => false
  end.

(** [step_attempts[-1].review.get("feedback") if step_attempts else None] *)
Definition last_feedback (step_attempts : list StepResult) : value :=
  match final step_attempts with
  | Some r => get (review r) "feedback"
  | None => JNull
  end.

Fixpoint steps_loop (t : Task) (steps : list value) (index : nat)
    (all_results approved_results : list StepResult) : M W loop_exit :=
  match steps with
  | [] => ret (Completed all_results)
  | raw_step :: later =>
      copied <- lift (py_dict raw_step) ;;
      let step := setdefault copied "id" (JStr ("step-" ++ str_of_nat index)) in
      '(step_attempts, approved_results, require_replan) <-
        attempts_loop t step (seq 1 (Z.to_nat (max_step_iterations self)))
                      approved_results JNull [] ;;
      let all_results := (all_results ++ step_attempts)%list in
      if require_replan then
        ret (ReplanRequested (last_feedback step_attempts))
      else if negb (approved_last step_attempts) then
        id <- lift (getitem step "id") ;;
        raise (step_not_approved id)
      else
        steps_loop t later (S index) all_results approved_results
  end.

(** The optional synthesis of [_execute_plan]:
    [coordinator_summary = None], then
    [if self.coordinator: coordinator_summary = synthesise_outcome(...)]. *)
Definition synthesis (t : Task) (plan : dict) (all_results : list StepResult)
    (reviewer_summary : dict) : M W (option string) :=
  match coordinator self with
  | Some c =>
      s <- call (synthesise_outcome c t plan all_results reviewer_summary)
                (SynthesiseOutcome plan all_results reviewer_summary) ;;
      ret (Some s)
  | None => ret None
  end.

(** The end of [_execute_plan], after the loop over the steps: final review,
    synthesis, the result and its report. *)
Definition finalise (t : Task) (plan : dict) (all_results : list StepResult)
  : M W (option TaskRunResult * value) :=
  reviewer_summary <-
    call (final_review (reviewer self) t plan all_results)
         (FinalReview plan all_results) ;;
  coordinator_summary <- synthesis t plan all_results reviewer_summary ;;
  let result :=
    {| task := t; plan := plan; step_results := all_results;
       reviewer_summary := reviewer_summary;
       coordinator_summary := coordinator_summary |} in
  _write_report result ;;;
  ret (Some result, JNull).

(** [AutomationWorkflow._execute_plan] *)
Definition _execute_plan (t : Task) (plan : dict)
  : M W (option TaskRunResult * value) :=
  match py_or (get plan "steps") (JList []) with
  | JList steps =>
      exit <- steps_loop t steps 1 [] [] ;;
      match exit with
      | ReplanRequested feedback => ret (None, feedback)
      | Completed all_results => finalise t plan all_results
      end
  | _ => raise steps_not_array
  end.

(** The [while plan_attempt < self.max_plan_iterations] loop of [run_task],
    over the iterations still allowed: [plan_attempt] starts at 0 and grows
    by one per iteration, so [remaining] is
    [max_plan_iterations - plan_attempt], and the test fails when it is 0.
    Every path through the body of the inner [while True] ends in [return],
    [raise] or [break]: it runs once, with [replan_attempts] going from 0
    to 1. *)
Fixpoint plan_loop (t : Task) (remaining plan_attempt : nat) (feedback : value)
    (previous_plan : option dict) : M W TaskRunResult :=
  match remaining with
  | O => raise (plan_attempts_exceeded t)
  | S remaining =>
      let plan_attempt := S plan_attempt in
      plan <- call (propose_plan (planner self) t feedback previous_plan)
                   (ProposePlan feedback previous_plan) ;;
      plan_review <- call (review_plan (reviewer self) t plan plan_attempt)
                          (ReviewPlan plan plan_attempt) ;;
      if negb (truthy (get plan_review "approved")) then
        plan_loop t remaining plan_attempt (get plan_review "feedback") (Some plan)
      else
        let replan_attempts := 0 in
        '(run_result, execution_feedback) <- _execute_plan t plan ;;
        match run_result with
        | Some r => ret r
        | None =>
            let replan_attempts := replan_attempts + 1 in
            if replan_attempts >? max_replan_attempts self then
              raise (replans_exceeded t)
            else
              plan_loop t remaining plan_attempt
                        (py_or execution_feedback default_replan_feedback)
                        (Some plan)
        end
  end.

(** [AutomationWorkflow.run_task] *)
Definition run_task (t : Task) : M W TaskRunResult :=
  match coordinator self with
  | Some c => call (kickoff_task c t) Kickoff ;;; ret tt
  | None => ret tt
  end ;;;
  plan_loop t (Z.to_nat (max_plan_iterations self)) 0 JNull None.

(** [AutomationWorkflow.run_all] *)
Fixpoint run_all (tasks : list Task) : M W (list TaskRunResult) :=
  match tasks with
  | [] => ret []
  | t :: later =>
      r <- run_task t ;;
      rs <- run_all later ;;
      ret (r :: rs)
  end.

End Workflow.

(* ================================================================= *)
(** ** Reading a run's events *)

Open Scope list_scope.
Unset Implicit Arguments.

(** Events emitted while a plan is executed, as opposed to planned. *)
Definition execution_event (e : event) : bool :=
  match e with
  | Kickoff _ | ProposePlan _ _ _ | ReviewPlan _ _ _ => false
  | _ => true
  end.

(** The [StepResult] the engine builds when [review_step] answers. *)
Definition created_by (e : event) : list StepResult :=
  match e with
  | ReviewStep spec out n (inr rev) =>
      [ {| step_id := get spec "id"; step := spec; output := out; review := rev;
           attempt := n |} ]
  | _ => []
  end.

Definition created (d : list event) : list StepResult := flat_map created_by d.

(** A step review that is not approved and asks for a re-plan, with its
    feedback. *)
Definition replan_signal (e : event) : option value :=
  match e with
  | ReviewStep _ _ _ (inr rev) =>
      if truthy (get rev "approved") then None
      else if truthy (get rev "requires_replan") then Some (get rev "feedback")
      else None
  | _ => None
  end.

Definition is_execute (e : event) : bool :=
  match e with ExecuteStep _ _ _ _ => true | _ => false end.

Definition is_review_step (e : event) : bool :=
  match e with ReviewStep _ _ _ _ => true | _ => false end.

Definition is_propose (e : event) : bool :=
  match e with ProposePlan _ _ _ => true | _ => false end.

Definition is_review_plan (e : event) : bool :=
  match e with ReviewPlan _ _ _ => true | _ => false end.

Definition count (p : event -> bool) (d : list event) : nat := List.length (filter p d).

(** The feedback of the re-plan signals of a run, in order. *)
Definition replan_signals (d : list event) : list value :=
  flat_map (fun e => match replan_signal e with Some fb => [fb] | None => [] end) d.

(** C2 the way it is stated: the result holds every step result the run
    created. *)
Definition full_history_returned {W} (self : AutomationWorkflow W) (t : Task)
    (w : W) : Prop :=
  forall r w' d,
    run_task self t w = (inr r, w', d) -> step_results r = created d.

(** C3 the way it is stated: the call after a re-plan signal is a proposal
    with that review's feedback. *)
Definition replan_feedback_forwarded {W} (self : AutomationWorkflow W) (t : Task)
    (w : W) : Prop :=
  forall res w' d pre spec out n rev post,
    run_task self t w = (res, w', d) ->
    d = pre ++ ReviewStep spec out n (inr rev) :: post ->
    truthy (get rev "approved") = false ->
    truthy (get rev "requires_replan") = true ->
    exists prev resp rest, post = ProposePlan (get rev "feedback") prev resp :: rest.

(** C8 the way it is stated: a plan whose steps are the empty list is
    carried out without a step call, with a final review over an empty
    history, and to a result without step results. *)
Definition empty_plan_returns {W} (self : AutomationWorkflow W) (t : Task)
    (p : dict) (w : W) : Prop :=
  get p "steps" = JList [] ->
  exists r fb w' d resp tail,
    _execute_plan self t p w = (inr (Some r, fb), w', d) /\
    d = FinalReview p [] resp :: tail /\
    count is_execute d = 0%nat /\
    step_results r = [].

(** A review that neither approves nor asks for a re-plan. *)
Definition retried (r : StepResult) : Prop :=
  truthy (get (review r) "approved") = false /\
  truthy (get (review r) "requires_replan") = false.

(** The exchanges behind a list of attempts on one step: each execution is
    given the previous review's feedback. *)
Fixpoint attempt_events (spec : dict) (prior : list StepResult) (fb : value)
    (new : list StepResult) : list event :=
  match new with
  | [] => []
  | r :: more =>
      ExecuteStep spec prior fb (inr (output r))
      :: ReviewStep spec (output r) (attempt r) (inr (review r))
      :: attempt_events spec prior (get (review r) "feedback") more
  end.

(** How the attempts on one step end, from the results [new] they added. *)
Inductive attempts_end (approved : list StepResult) (budget : nat)
  : list StepResult -> list StepResult -> bool -> Prop :=
| end_approved init r :
    Forall retried init ->
    truthy (get (review r) "approved") = true ->
    attempts_end approved budget (init ++ [r]) (approved ++ [r]) false
| end_replan init r :
    Forall retried init ->
    truthy (get (review r) "approved") = false ->
    truthy (get (review r) "requires_replan") = true ->
    attempts_end approved budget (init ++ [r]) approved true
| end_exhausted new :
    Forall retried new ->
    List.length new = budget ->
    attempts_end approved budget new approved false.

Definition signal_free (d : list event) : Prop :=
  Forall (fun e => replan_signal e = None) d.

(** [d] ends with a re-plan signal carrying [fb], and has no other. *)
Inductive signalled (d : list event) (fb : value) : Prop :=
| signalled_at d0 e :
    d = (d0 ++ [e])%list -> signal_free d0 -> replan_signal e = Some fb ->
    signalled d fb.

Definition approved_result (r : StepResult) : bool :=
  truthy (get (review r) "approved").

(** Every [execute_step] of [d] is given [prior] followed by the approved
    results created in [d] before it. *)
Fixpoint contexts_ok (prior : list StepResult) (d : list event) : Prop :=
  match d with
  | [] => True
  | e :: rest =>
      match e with
      | ExecuteStep _ given _ _ => given = prior
      | _ => True
      end /\
      contexts_ok (prior ++ filter approved_result (created_by e)) rest
  end.

(** Events that are no part of a step's attempts. *)
Definition quiet (e : event) : Prop :=
  execution_event e = true /\ replan_signal e = None /\
  is_execute e = false /\ is_review_step e = false /\ created_by e = [].

(** The plan under execution: the one last submitted to [review_plan]. *)
Definition reviewed (cur : option dict) (e : event) : option dict :=
  match e with
  | ReviewPlan p _ _ => Some p
  | _ => cur
  end.

Definition last_reviewed (pre : list event) : option dict :=
  fold_left reviewed pre None.

(** Every re-plan signal of [d] but a final one is followed at once by a
    plan proposal that carries the signal's feedback, or the default text
    when that is empty, and the plan under execution. *)
Fixpoint signals_answered (cur : option dict) (d : list event) : Prop :=
  match d with
  | [] => True
  | e :: rest =>
      (forall fb, replan_signal e = Some fb ->
         match rest with
         | [] => True
         | next :: _ =>
             exists p resp,
               cur = Some p /\
               next = ProposePlan (py_or fb default_replan_feedback) (Some p) resp
         end) /\
      signals_answered (reviewed cur e) rest
  end.

(** The answers [review_plan] gave. *)
Definition plan_reviews (d : list event) : list dict :=
  flat_map (fun e => match e with ReviewPlan _ _ (inr rev) => [rev] | _ => [] end) d.

(** The events before the first one of an execution. *)
Fixpoint planning_prefix (d : list event) : list event :=
  match d with
  | [] => []
  | e :: rest => if execution_event e then [] else e :: planning_prefix rest
  end.

(** Rounds of proposal and review: each proposal is given the plan and the
    feedback of the round before. *)
Fixpoint planning_chain (fb : value) (prev : option dict) (iteration : nat)
    (rounds : list (dict * dict)) : list event :=
  match rounds with
  | [] => []
  | (p, rev) :: more =>
      ProposePlan fb prev (inr p)
      :: ReviewPlan p iteration (inr rev)
      :: planning_chain (get rev "feedback") (Some p) (S iteration) more
  end.

Definition plan_approved (rev : dict) : bool := truthy (get rev "approved").

(** The identifier the loop gives a step: its own, or [step-<index>]. *)
Definition prepared (copied : dict) (index : nat) : dict :=
  setdefault copied "id" (JStr ("step-" ++ str_of_nat index)%string).

Definition is_kickoff (e : event) : bool :=
  match e with Kickoff _ => true | _ => false end.

Section Outcomes.
Variable W : Type.
Variable self : AutomationWorkflow W.
Variable t : Task.

(** The exceptions that leave the steps loop. *)
Definition step_error (e : exn) : Prop :=
  (exists msg, e = Collaborator msg) \/ (exists cls, e = Builtin cls) \/
  (exists id, e = step_not_approved self id).

(** One iteration of the [while] loop of [run_task]. *)
Inductive iteration (remaining pa : nat) (fb : value) (prev : option dict) (w : W)
    (res : result TaskRunResult) (w' : W) (d : list event) : Prop :=
| propose_raised msg :
    d = [ProposePlan fb prev (inl msg)] ->
    res = inl (Collaborator msg) ->
    iteration remaining pa fb prev w res w' d
| review_raised p msg :
    d = [ProposePlan fb prev (inr p); ReviewPlan p (S pa) (inl msg)] ->
    res = inl (Collaborator msg) ->
    iteration remaining pa fb prev w res w' d
| plan_rejected p rev w2 rest :
    truthy (get rev "approved") = false ->
    plan_loop self t remaining (S pa) (get rev "feedback") (Some p) w2
      = (res, w', rest) ->
    d = ProposePlan fb prev (inr p) :: ReviewPlan p (S pa) (inr rev) :: rest ->
    iteration remaining pa fb prev w res w' d
| execution_raised p rev w2 e exec :
    truthy (get rev "approved") = true ->
    _execute_plan self t p w2 = (inl e, w', exec) ->
    res = inl e ->
    d = ProposePlan fb prev (inr p) :: ReviewPlan p (S pa) (inr rev) :: exec ->
    iteration remaining pa fb prev w res w' d
| execution_returned p rev w2 r fbk exec :
    truthy (get rev "approved") = true ->
    _execute_plan self t p w2 = (inr (Some r, fbk), w', exec) ->
    res = inr r ->
    d = ProposePlan fb prev (inr p) :: ReviewPlan p (S pa) (inr rev) :: exec ->
    iteration remaining pa fb prev w res w' d
| replan_refused p rev w2 fbk exec :
    truthy (get rev "approved") = true ->
    _execute_plan self t p w2 = (inr (None, fbk), w', exec) ->
    (1 >? max_replan_attempts self) = true ->
    res = inl (replans_exceeded t) ->
    d = ProposePlan fb prev (inr p) :: ReviewPlan p (S pa) (inr rev) :: exec ->
    iteration remaining pa fb prev w res w' d
| replanned p rev w2 fbk exec w3 rest :
    truthy (get rev "approved") = true ->
    _execute_plan self t p w2 = (inr (None, fbk), w3, exec) ->
    (1 >? max_replan_attempts self) = false ->
    plan_loop self t remaining (S pa) (py_or fbk default_replan_feedback) (Some p) w3
      = (res, w', rest) ->
    d = ProposePlan fb prev (inr p) :: ReviewPlan p (S pa) (inr rev) :: exec ++ rest ->
    iteration remaining pa fb prev w res w' d.

End Outcomes.

(* ================================================================= *)
(** ** Scripted collaborators

    Planner, executor and reviewer that answer from lists, for concrete
    runs. *)

Module Scripted.

Record world : Type := {
  plans : list dict;
  plan_reviews : list dict;
  outputs : list dict;
  step_reviews : list dict;
  final_reviews : list dict
}.

Definition pop {A} (what : string) (l : list A) : response A * list A :=
  match l with
  | x :: rest => (inr x, rest)
  | [] => (inl (what ++ ": no response left")%string, [])
  end.

Definition scripted_planner : PlannerAgent world :=
  {| propose_plan := fun _ _ _ w =>
       let (r, rest) := pop "propose_plan" (plans w) in
       (r, {| plans := rest; plan_reviews := plan_reviews w; outputs := outputs w;
              step_reviews := step_reviews w; final_reviews := final_reviews w |}) |}.

Definition scripted_executor : ExecutorAgent world :=
  {| execute_step := fun _ _ _ _ w =>
       let (r, rest) := pop "execute_step" (outputs w) in
       (r, {| plans := plans w; plan_reviews := plan_reviews w; outputs := rest;
              step_reviews := step_reviews w; final_reviews := final_reviews w |}) |}.

Definition scripted_reviewer : ReviewerAgent world :=
  {| review_plan := fun _ _ _ w =>
       let (r, rest) := pop "review_plan" (plan_reviews w) in
       (r, {| plans := plans w; plan_reviews := rest; outputs := outputs w;
              step_reviews := step_reviews w; final_reviews := final_reviews w |});
     review_step := fun _ _ _ _ w =>
       let (r, rest) := pop "review_step" (step_reviews w) in
       (r, {| plans := plans w; plan_reviews := plan_reviews w; outputs := outputs w;
              step_reviews := rest; final_reviews := final_reviews w |});
     final_review := fun _ _ _ w =>
       let (r, rest) := pop "final_review" (final_reviews w) in
       (r, {| plans := plans w; plan_reviews := plan_reviews w; outputs := outputs w;
              step_reviews := step_reviews w; final_reviews := rest |}) |}.

Definition workflow (p s r : Z) : AutomationWorkflow world :=
  {| planner := scripted_planner; executor := scripted_executor;
     reviewer := scripted_reviewer; coordinator := None;
     write_text := fun _ _ w => (inr tt, w);
     max_plan_iterations := p; max_step_iterations := s; max_replan_attempts := r |}.

(** The same agents over a reports directory that cannot be written. *)
Definition unwritable (p s r : Z) : AutomationWorkflow world :=
  {| planner := scripted_planner; executor := scripted_executor;
     reviewer := scripted_reviewer; coordinator := None;
     write_text := fun _ _ w => (inl "File name too long", w);
     max_plan_iterations := p; max_step_iterations := s; max_replan_attempts := r |}.

Definition demo : Task :=
  {| name := "t1"; objective := "demo"; context := None; deliverable := None;
     constraints := None |}.

Definition one_step_plan : dict :=
  [(KStr "plan_overview", JStr "o"); (KStr "steps", JList [JDict [(KStr "id", JStr "step-1")]])].
Definition approve : dict := [(KStr "approved", JBool true)].
Definition replan : dict :=
  [(KStr "approved", JBool false); (KStr "requires_replan", JBool true);
   (KStr "feedback", JStr "start over")].
Definition done : dict := [(KStr "summary", JStr "done")].
Definition ok : dict := [(KStr "approved", JBool true); (KStr "feedback", JStr "ok")].

Definition retry : dict :=
  [(KStr "approved", JBool false); (KStr "requires_replan", JBool false);
   (KStr "feedback", JStr "again")].
Definition silent_replan : dict :=
  [(KStr "approved", JBool false); (KStr "requires_replan", JBool true)].
Definition approve_and_replan : dict :=
  [(KStr "approved", JBool true); (KStr "requires_replan", JBool true)].
Definition reject : dict :=
  [(KStr "approved", JBool false); (KStr "feedback", JStr "too vague")].
Definition empty_plan : dict :=
  [(KStr "plan_overview", JStr "nothing to do"); (KStr "steps", JList [])].
Definition bad_plan : dict := [(KStr "steps", JStr "step one")].
Definition untitled_plan : dict :=
  [(KStr "plan_overview", JNull); (KStr "steps", JList [])].

(** A world in which the planner proposes [n] times [one_step_plan], every
    plan review comes from [prs], every step review from [srs], and the
    executor and the final review answer [n] times. *)
Definition script (n : nat) (prs srs : list dict) : world :=
  {| plans := repeat one_step_plan n; plan_reviews := prs;
     outputs := repeat done n; step_reviews := srs; final_reviews := repeat ok n |}.

End Scripted.

(* ================================================================= *)
(** ** The structured form of the records *)

Definition optional_text (o : option string) : value :=
  match o with
  | Some s => JStr s
  | None => JNull
  end.

(** [self.constraints or []] *)
Definition constraints_or_nil (t : Task) : list string :=
  match constraints t with
  | Some l => l
  | None => []
  end.

(** [Task.to_dict] *)
Definition task_to_dict (t : Task) : dict :=
  [ (KStr "name", JStr (name t));
    (KStr "objective", JStr (objective t));
    (KStr "context", optional_text (context t));
    (KStr "deliverable", optional_text (deliverable t));
    (KStr "constraints", JList (map JStr (constraints_or_nil t))) ].

(** [StepResult.to_dict] *)
Definition step_result_to_dict (r : StepResult) : dict :=
  [ (KStr "step_id", step_id r);
    (KStr "attempt", JInt (Z.of_nat (attempt r)));
    (KStr "step", JDict (step r));
    (KStr "output", JDict (output r));
    (KStr "review", JDict (review r)) ].

(** [TaskRunResult.to_dict] *)
Definition to_dict (r : TaskRunResult) : dict :=
  [ (KStr "task", JDict (task_to_dict (task r)));
    (KStr "plan", JDict (plan r));
    (KStr "step_results", JList (map (fun x => JDict (step_result_to_dict x))
                                    (step_results r)));
    (KStr "reviewer_summary", JDict (reviewer_summary r));
    (KStr "coordinator_summary", optional_text (coordinator_summary r)) ].

(** *** Shapes of text *)

Definition is_text (v : value) : bool :=
  match v with JStr _ => true | _ => false end.

Definition is_ascii (c : ascii) : bool := (nat_of_ascii c <? 128)%nat.

Definition ascii_text (s : string) : Prop :=
  forallb is_ascii (list_ascii_of_string s) = true.

(** The characters of a report file name: a to z, 0 to 9, [-] and [_]. *)
Definition slug_char (c : ascii) : bool :=
  let n := nat_of_ascii c in
  ((48 <=? n) && (n <=? 57) || (97 <=? n) && (n <=? 122)
   || Ascii.eqb c "-" || Ascii.eqb c "_")%nat%bool.

(** [s.lower()] on ASCII text. *)
Definition lower_text (s : string) : string :=
  string_of_list_ascii (map lower (list_ascii_of_string s)).

(** [d[k]] is a [str], or [k] is not in [d]. *)
Definition text_or_absent (d : dict) (k : string) : bool :=
  match lookup d (KStr k) with
  | Some v => is_text v
  | None => true
  end.
(* ================================================================= *)
(** ** Dictionaries keyed by text *)

(** A Python [dict] whose keys are [str] and whose values are objects of
    the program: an association list in insertion order. *)
Module StrDict.

Definition t (V : Type) : Type := list (string * V).

Section Operations.
Context {V : Type}.

(** [d.get(k)] *)
Fixpoint lookup (k : string) (d : t V) : option V :=
  match d with
  | [] => None
  | (k', v) :: rest => if String.eqb k k' then Some v else lookup k rest
  end.

(** [k in d] *)
Definition mem (k : string) (d : t V) : bool :=
  match lookup k d with
  | Some _ => true
  | None => false
  end.

(** [d[k] = v]: an existing key keeps its place, a new one goes last. *)
Fixpoint set (k : string) (v : V) (d : t V) : t V :=
  match d with
  | [] => [(k, v)]
  | (k', v') :: rest =>
      if String.eqb k k' then (k', v) :: rest else (k', v') :: set k v rest
  end.

(** [d.pop(k, None)], as a statement. *)
Definition remove (k : string) (d : t V) : t V :=
  filter (fun kv => negb (String.eqb k (fst kv))) d.

(** [d.values()] *)
Definition values (d : t V) : list V := map snd d.

Definition keys (d : t V) : list string := map fst d.

End Operations.

End StrDict.

(* ================================================================= *)
(** ** [skills.py]: the skill registry *)

Module Skills.

Set Implicit Arguments.

Section Registry.
Variable W : Type.

(** A Python callable as the registry uses it.  Called with keyword
    arguments it acts on the world and returns a value, or raises an
    [Exception], in which case the text of the exception is kept;
    [inspect.signature] gives its signature, or raises.  A callable that
    ends the interpreter ([SystemExit], [KeyboardInterrupt]) is not
    modelled. *)
Record Callable : Type := {
  call_with : dict -> W -> response value * W;
  inspect_signature : response string
}.

Record Skill : Type := {
  name : string;
  description : string;
  function : Callable;
  signature : string
}.

(** [k] is one of the keyword arguments. *)
Definition has_keyword (k : string) (kwargs : dict) : bool :=
  match lookup kwargs (KStr k) with
  | Some _ => true
  | None => false
  end.

(** [Skill.execute(self, **kwargs)]: a keyword called [self] cannot be
    bound. *)
Definition skill_execute (skill : Skill) (kwargs : dict) (w : W)
  : result string * W :=
  if has_keyword "self" kwargs then (inl (Builtin TypeError), w)
  else
    match call_with (function skill) kwargs w with
    | (inl description, w') => (inl (Collaborator description), w')
    | (inr (JStr s), w') => (inr s, w')
    | (inr v, w') => (inr (repr v), w')
    end.

(** [SkillRegistry._skills] *)
Definition SkillRegistry : Type := StrDict.t Skill.

(** [SkillRegistry()] *)
Definition empty : SkillRegistry := [].

(** [SkillRegistry.register]: the registry it leaves, or the exception. *)
Definition register (name : string) (function : Callable) (description : string)
    (self : SkillRegistry) : result SkillRegistry :=
  if StrDict.mem name self then
    inl (Raise ValueError ("A skill named '" ++ name ++ "' is already registered."))
  else
    match inspect_signature function with
    | inl raised => inl (Collaborator raised)
    | inr signature =>
        inr (StrDict.set name
               {| name := name; description := description; function := function;
                  signature := signature |} self)
    end.

(** [name in self._skills] and [self._skills[name]] for whatever object
    [name] is: a list or a dict cannot be hashed, and only a [str] can be
    equal to a key. *)
Definition find (name : value) (self : SkillRegistry) : result (option Skill) :=
  match name with
  | JStr n => inr (StrDict.lookup n self)
  | JList _ | JDict _ => inl (Builtin TypeError)
  | JNull | JBool _ | JInt _ => inr None
  end.

(** [SkillRegistry.execute(self, name, **kwargs)]: keywords called [self]
    or [name] cannot be bound. *)
Definition execute (name : value) (kwargs : dict) (self : SkillRegistry) (w : W)
  : result string * W :=
  if (has_keyword "self" kwargs || has_keyword "name" kwargs)%bool then
    (inl (Builtin TypeError), w)
  else
    match find name self with
    | inl e => (inl e, w)
    | inr None =>
        (inl (Raise KeyError ("No skill registered with name '" ++ str name ++ "'.")), w)
    | inr (Some skill) => skill_execute skill kwargs w
    end.

(** [SkillRegistry.list_skills] *)
Definition list_skills (self : SkillRegistry) : list Skill := StrDict.values self.

Definition prompt_line (skill : Skill) : string :=
  "- " ++ name skill ++ signature skill ++ ": " ++ description skill.

(** [SkillRegistry.to_prompt_fragment] *)
Definition to_prompt_fragment (self : SkillRegistry) : string :=
  match self with
  | [] => "No custom skills are registered."
  | _ => String.concat newline (map prompt_line (StrDict.values self))
  end.

(** [SkillRegistry.__len__] *)
Definition len (self : SkillRegistry) : nat := List.length self.

(** The registries a program can build: the empty one, and what a
    registration that returns leaves. *)
Inductive built : SkillRegistry -> Prop :=
| built_empty : built empty
| built_register self name function description self' :
    built self ->
    register name function description self = inr self' ->
    built self'.

End Registry.

Arguments empty : clear implicits.
Unset Implicit Arguments.

End Skills.

(* ================================================================= *)
(** ** [agent.py]: conversations with the model *)

Module Agent.

Set Implicit Arguments.

(** [Message].  [content] is declared [str]; it also holds what the model
    answered, which can be [None]. *)
Record Message : Type := {
  role : string;
  content : option string
}.

(** The messages of the two parties. *)
Definition user (text : string) : Message :=
  {| role := "user"; content := Some text |}.

Definition assistant (answer : option string) : Message :=
  {| role := "assistant"; content := answer |}.

Section Agent.
Variable W : Type.

(** Python's [float]: the engine passes the temperature on and never
    computes with it. *)
Variable float : Type.

(** [request_payload], the keyword arguments of the request.  An optional
    entry is [None] when the key is left out. *)
Record Payload : Type := {
  payload_model : string;
  messages : list dict;
  temperature : float;
  response_format : option dict;
  max_output_tokens : option Z
}.

(** The client.  [create] stands for [client.chat.completions.create] given
    the payload as keyword arguments, followed by
    [completion.choices[0].message.content]: the content of the answer, or
    the text of what either of the two raised. *)
Record OpenAI : Type := {
  create : Payload -> W -> response (option string) * W
}.

Record Agent : Type := {
  name : string;
  agent_role : string;
  system_prompt : string;
  model : string;
  client : option OpenAI;
  chat_histories : StrDict.t (list Message)
}.

(** [self.chat_histories] after an update of the dictionary or of a list it
    holds. *)
Definition with_histories (self : Agent) (histories : StrDict.t (list Message))
  : Agent :=
  {| name := name self; agent_role := agent_role self;
     system_prompt := system_prompt self; model := model self;
     client := client self; chat_histories := histories |}.

(** [Agent._ensure_client] *)
Definition _ensure_client (self : Agent) : result OpenAI :=
  match client self with
  | None =>
      inl (Raise RuntimeError
             ("OpenAI client is not configured. Set the OPENAI_API_KEY environment "
              ++ "variable or provide an explicit api_key when instantiating the agent."))
  | Some c => inr c
  end.

(** [Agent.get_chat_history]: the list stored for the conversation, which a
    new conversation gets first. *)
Definition get_chat_history (conversation_id : string) (self : Agent)
  : list Message * Agent :=
  match StrDict.lookup conversation_id (chat_histories self) with
  | Some history => (history, self)
  | None =>
      let seed := [ {| role := "system"; content := Some (system_prompt self) |} ] in
      (seed, with_histories self (StrDict.set conversation_id seed (chat_histories self)))
  end.

(** [Agent.append_to_history]: the list is extended in place, so the
    dictionary holds the longer list under the same key. *)
Definition append_to_history (conversation_id : string) (role : string)
    (content : option string) (self : Agent) : Agent :=
  let (history, self) := get_chat_history conversation_id self in
  with_histories self
    (StrDict.set conversation_id
       (history ++ [ {| role := role; content := content |} ])
       (chat_histories self)).

(** [Agent.reset_conversation] *)
Definition reset_conversation (conversation_id : option string) (self : Agent)
  : Agent :=
  match conversation_id with
  | None => with_histories self []
  | Some id => with_histories self (StrDict.remove id (chat_histories self))
  end.

(** [Agent._serialize_history] *)
Definition _serialize_history (history : list Message) : list dict :=
  map (fun message =>
         [ (KStr "role", JStr (role message));
           (KStr "content", optional_text (content message)) ])
      history.

(** The [request_payload] of [generate_response] for the history it
    serialises: [response_format] is added when it is not empty, and
    [max_output_tokens] when it is not [None]. *)
Definition request_payload (self : Agent) (history : list Message)
    (format : option dict) (temperature : float) (max_tokens : option Z)
  : Payload :=
  {| payload_model := model self;
     messages := _serialize_history history;
     temperature := temperature;
     response_format :=
       match format with
       | Some d => if truthy (JDict d) then Some d else None
       | None => None
       end;
     max_output_tokens := max_tokens |}.

(** [Agent.generate_response]: what it returns or raises, the agent and the
    world it leaves, and the requests it sent.  [history] is the list the
    dictionary holds, so it has the user's message when it is serialised. *)
Definition generate_response (conversation_id user_message : string)
    (format : option dict) (temperature : float) (max_tokens : option Z)
    (self : Agent) (w : W)
  : result (option string) * Agent * W * list Payload :=
  match _ensure_client self with
  | inl e => (inl e, self, w, [])
  | inr client =>
      let self := snd (get_chat_history conversation_id self) in
      let self := append_to_history conversation_id "user" (Some user_message) self in
      let history := fst (get_chat_history conversation_id self) in
      let payload := request_payload self history format temperature max_tokens in
      match create client payload w with
      | (inl raised, w') => (inl (Collaborator raised), self, w', [payload])
      | (inr assistant_response, w') =>
          (inr assistant_response,
           append_to_history conversation_id "assistant" assistant_response self,
           w', [payload])
      end
  end.

(** The message every conversation of the agent starts with. *)
Definition system_message (self : Agent) : Message :=
  {| role := "system"; content := Some (system_prompt self) |}.

(** The history of a conversation as the next call finds it. *)
Definition history_of (conversation_id : string) (self : Agent) : list Message :=
  fst (get_chat_history conversation_id self).

(** Every stored conversation starts with the system message. *)
Definition seeded (self : Agent) : Prop :=
  forall id history,
    StrDict.lookup id (chat_histories self) = Some history ->
    exists rest, history = system_message self :: rest.

(** One call of a method that touches the conversations. *)
Inductive step (self : Agent) : Agent -> Prop :=
| step_get id : step self (snd (get_chat_history id self))
| step_append id role content : step self (append_to_history id role content self)
| step_reset id : step self (reset_conversation id self)
| step_generate id message format temperature max_tokens w :
    step self
         (snd (fst (fst (generate_response id message format temperature max_tokens
                                           self w)))).

(** Any number of such calls. *)
Inductive steps (self : Agent) : Agent -> Prop :=
| steps_none : steps self self
| steps_more mid self' : steps self mid -> step mid self' -> steps self self'.

End Agent.

Unset Implicit Arguments.

End Agent.

(* ================================================================= *)
(** ** [utils.py]: the colour of an agent *)

Module Utils.

(** The colours of [colorama.Fore] the palette uses. *)
Inductive Fore : Type :=
| CYAN | GREEN | MAGENTA | YELLOW | BLUE
| LIGHTCYAN_EX | LIGHTGREEN_EX | LIGHTMAGENTA_EX.

Definition _AGENT_PALETTE : list Fore :=
  [CYAN; GREEN; MAGENTA; YELLOW; BLUE; LIGHTCYAN_EX; LIGHTGREEN_EX; LIGHTMAGENTA_EX].

(** [_AGENT_PALETTE[index]] for an index below the length of the palette. *)
Definition palette_at (index : nat) : Fore := nth index _AGENT_PALETTE CYAN.

(** [_colour_for_agent], on the module's [_AGENT_COLOR_CACHE]: the colour,
    and the cache the call leaves. *)
Definition _colour_for_agent (agent_name : string) (_AGENT_COLOR_CACHE : StrDict.t Fore)
  : Fore * StrDict.t Fore :=
  match StrDict.lookup agent_name _AGENT_COLOR_CACHE with
  | Some colour => (colour, _AGENT_COLOR_CACHE)
  | None =>
      let index := (List.length _AGENT_COLOR_CACHE mod List.length _AGENT_PALETTE)%nat in
      (palette_at index,
       StrDict.set agent_name (palette_at index) _AGENT_COLOR_CACHE)
  end.

(** The colours of a sequence of calls, one per name, and the cache they
    leave. *)
Fixpoint colours (agent_names : list string) (cache : StrDict.t Fore)
  : list Fore * StrDict.t Fore :=
  match agent_names with
  | [] => ([], cache)
  | agent_name :: later =>
      let (colour, cache) := _colour_for_agent agent_name cache in
      let (rest, cache) := colours later cache in
      (colour :: rest, cache)
  end.

End Utils.

(* ================================================================= *)
(** ** [Agents/executor.py]: executing a step with skills *)

Module Executor.

Set Implicit Arguments.

(** What [execute_step] can raise: an exception of the engine's kinds, or
    the [AttributeError] of [.get] on an answer that is no object. *)
Inductive raised : Type :=
| Exn (e : exn)
| AttributeError.

Section Executor.
Variable W : Type.
Variable float : Type.

(** The default [temperature] of [generate_response], [0.2]. *)
Variable default_temperature : float.

(** [json.loads] on a text and [json.dumps(_, indent=2)]: the library's,
    the first returning the text of what it raised. *)
Variable json_loads : string -> response value.
Variable json_dumps : value -> string.

(** [print_agent_output(agent_name, text, log_file_path)], to which
    [Agent.log] hands over; the path lives in the closure. *)
Variable print_agent_output : string -> option string -> W -> response unit * W.

(** The text the interpreter gives to an exception of its own, raised by the
    call [execute(skill_name, **arguments)]. *)
Variable interpreter_text : exn_class -> value -> value -> string.

(** What the executor did, in order: the requests it sent and the skills it
    ran, each with its outcome. *)
Inductive event : Type :=
| Asked (payload : Agent.Payload float)
| Ran (skill_name arguments : value) (outcome : result string).

Record ExecutorAgent : Type := {
  agent : Agent.Agent W float;
  skill_registry : Skills.SkillRegistry W;
  max_skill_invocations : Z
}.

(** [self] with the conversations of [a]. *)
Definition with_agent (self : ExecutorAgent) (a : Agent.Agent W float)
  : ExecutorAgent :=
  {| agent := a; skill_registry := skill_registry self;
     max_skill_invocations := max_skill_invocations self |}.

(** [ExecutorAgent._summarise_previous_results] *)
Definition _summarise_previous_results (results : list StepResult) : string :=
  match results with
  | [] => "None yet."
  | _ =>
      String.concat newline
        (map (fun r =>
                "- " ++ str (step_id r) ++ ": "
                ++ str (get_default (output r) "summary" (JStr "No summary provided")))%string
             results)
  end.

Definition conversation_id (task : Task) (step : dict) : string :=
  "execute::" ++ name task ++ "::" ++ str (get_default step "id" (JStr "unknown")).

Definition base_message (self : ExecutorAgent) (task : Task) (step : dict)
    (prior_results : list StepResult) (feedback : value) : string :=
  ("Task objective: " ++ objective task ++ newline
   ++ "Current step: " ++ json_dumps (JDict step) ++ newline
   ++ "Progress so far:" ++ newline ++ _summarise_previous_results prior_results ++ newline
   ++ "Available skills:" ++ newline
   ++ Skills.to_prompt_fragment (skill_registry self) ++ newline
   ++ "Respond in JSON as documented."
   ++ String.concat "" (map (fun d => newline ++ "Target deliverable: " ++ d)
                            (nonempty (deliverable task)))
   ++ (if truthy feedback
       then newline ++ "Incorporate reviewer feedback: " ++ str feedback
       else ""))%string.

(** [json.loads(response)]: [None] is no text. *)
Definition loads (response : option string) : raised + value :=
  match response with
  | None => inl (Exn (Builtin TypeError))
  | Some text =>
      match json_loads text with
      | inl what => inl (Exn (Collaborator what))
      | inr v => inr v
      end
  end.

Definition is_str_key (kv : key * value) : bool :=
  match fst kv with
  | KStr _ => true
  | _ => false
  end.

(** [self.skill_registry.execute(skill_name, **arguments)]: the arguments
    must be a mapping whose keys are [str]. *)
Definition invoke (self : ExecutorAgent) (skill_name arguments : value) (w : W)
  : result string * W :=
  match arguments with
  | JDict kwargs =>
      if forallb is_str_key kwargs
      then Skills.execute skill_name kwargs (skill_registry self) w
      else (inl (Builtin TypeError), w)
  | _ => (inl (Builtin TypeError), w)
  end.

(** [str(exc)] *)
Definition exception_text (skill_name arguments : value) (e : exn) : string :=
  match e with
  | Raise KeyError msg => repr_str msg
  | Raise _ msg => msg
  | Collaborator what => what
  | Builtin cls => interpreter_text cls skill_name arguments
  end.

(** [feedback_message], after the skill returned or raised. *)
Definition feedback_message (skill_name arguments : value) (outcome : result string)
  : string :=
  match outcome with
  | inr skill_output =>
      "Skill `" ++ str skill_name ++ "` executed successfully with arguments "
      ++ str arguments ++ "." ++ newline
      ++ "Result:" ++ newline ++ skill_output ++ newline
      ++ "Provide an updated JSON response. If further tooling is required, "
      ++ "specify another action; otherwise omit the action field."
  | inl exc =>
      "Skill `" ++ str skill_name ++ "` raised an exception: "
      ++ exception_text skill_name arguments exc ++ "." ++ newline
      ++ "Re-evaluate and either fix the request or continue without the skill."
  end%string.

(** The [while True] loop of [execute_step], over the skill invocations
    still allowed: [invocations < self.max_skill_invocations] holds when
    [remaining] is not zero. *)
Fixpoint respond (self : ExecutorAgent) (conversation_id pending_message : string)
    (remaining : nat) (w : W)
  : (raised + dict) * ExecutorAgent * W * list event :=
  match Agent.generate_response conversation_id pending_message
          (Some [(KStr "type", JStr "json_object")]) default_temperature None
          (agent self) w with
  | (inl e, a, w, sent) => (inl (Exn e), with_agent self a, w, map Asked sent)
  | (inr response, a, w, sent) =>
      let self := with_agent self a in
      match print_agent_output (Agent.name a) response w with
      | (inl what, w) => (inl (Exn (Collaborator what)), self, w, map Asked sent)
      | (inr _, w) =>
          match loads response with
          | inl e => (inl e, self, w, map Asked sent)
          | inr (JDict parsed_response) =>
              let action := py_or (get parsed_response "action") (JDict []) in
              let skill_name :=
                match action with
                | JDict a => get a "skill"
                | _ => JNull
                end in
              match truthy skill_name, remaining with
              | true, S remaining =>
                  let arguments :=
                    match action with
                    | JDict a => get_default a "arguments" (JDict [])
                    | _ => JDict []
                    end in
                  let (outcome, w) := invoke self skill_name arguments w in
                  let '(res, self, w, later) :=
                    respond self conversation_id
                            (feedback_message skill_name arguments outcome)
                            remaining w in
                  (res, self, w,
                   map Asked sent ++ Ran skill_name arguments outcome :: later)
              | _, _ => (inr parsed_response, self, w, map Asked sent)
              end
          | inr _ => (inl AttributeError, self, w, map Asked sent)
          end
      end
  end.

(** [ExecutorAgent.execute_step] *)
Definition execute_step (self : ExecutorAgent) (task : Task) (step : dict)
    (prior_results : list StepResult) (feedback : value) (w : W)
  : (raised + dict) * ExecutorAgent * W * list event :=
  respond self (conversation_id task step)
          (base_message self task step prior_results feedback)
          (Z.to_nat (max_skill_invocations self)) w.

Definition is_asked (e : event) : bool :=
  match e with Asked _ => true | Ran _ _ _ => false end.

Definition is_ran (e : event) : bool :=
  match e with Ran _ _ _ => true | Asked _ => false end.

(** How many requests were sent, and how many skills were run. *)
Definition requests (d : list event) : nat := List.length (filter is_asked d).
Definition runs (d : list event) : nat := List.length (filter is_ran d).

End Executor.

Arguments Ran {float} skill_name arguments outcome.
Unset Implicit Arguments.

End Executor.

(* ================================================================= *)
(** ** Canned skills, clients and agents *)

(** Collaborators for the instances: the world of the client is the list of
    the answers it has left, and it answers with an empty object once the
    list is used up. *)
Module Canned.

(** A skill that returns its [text] argument. *)
Definition echo : Skills.Callable (list string) :=
  {| Skills.call_with := fun kwargs w => (inr (get kwargs "text"), w);
     Skills.inspect_signature := inr "(text)" |}.

(** A skill that always raises. *)
Definition broken : Skills.Callable (list string) :=
  {| Skills.call_with := fun _ w => (inl "out of order", w);
     Skills.inspect_signature := inr "()" |}.

Definition echo_skill : Skills.Skill (list string) :=
  {| Skills.name := "echo"; Skills.description := "Repeat the text.";
     Skills.function := echo; Skills.signature := "(text)" |}.

Definition one_skill : Skills.SkillRegistry (list string) := [("echo", echo_skill)].

Definition answering : Agent.OpenAI (list string) unit :=
  {| Agent.create := fun _ w =>
       match w with
       | answer :: rest => (inr (Some answer), rest)
       | [] => (inr (Some "{}"), [])
       end |}.

Definition unreachable : Agent.OpenAI (list string) unit :=
  {| Agent.create := fun _ w => (inl "connection refused", w) |}.

Definition assistant_with (client : Agent.OpenAI (list string) unit)
  : Agent.Agent (list string) unit :=
  {| Agent.name := "Executor"; Agent.agent_role := "Implementation specialist";
     Agent.system_prompt := "You are the Executor.";
     Agent.model := "gpt-4o-mini";
     Agent.client := Some client; Agent.chat_histories := [] |}.

Definition skilled : Executor.ExecutorAgent (list string) unit :=
  {| Executor.agent := assistant_with answering;
     Executor.skill_registry := one_skill;
     Executor.max_skill_invocations := 3 |}.

(** A parser that knows four texts: a call of [echo], a call of a skill
    that is not registered, the empty object and a list.  It raises on any
    other text. *)
Definition parse (text : string) : response value :=
  if String.eqb text "call echo" then
    inr (JDict [(KStr "action",
                 JDict [(KStr "skill", JStr "echo");
                        (KStr "arguments", JDict [(KStr "text", JStr "hi")])])])
  else if String.eqb text "call nothing" then
    inr (JDict [(KStr "action", JDict [(KStr "skill", JStr "nothing")])])
  else if String.eqb text "{}" then inr (JDict [])
  else if String.eqb text "[1, 2]" then inr (JList [JInt 1; JInt 2])
  else inl "Expecting value".

(** The text parses to an object. *)
Definition object_text (text : string) : bool :=
  match parse text with
  | inr (JDict _) => true
  | _ => false
  end.

(** The answers the client has left all parse to objects. *)
Definition well_scripted (w : list string) : Prop := forallb object_text w = true.

Definition dump (v : value) : string := repr v.

Definition silent (agent_name : string) (text : option string) (w : list string)
  : response unit * list string := (inr tt, w).

Definition no_text (cls : exn_class) (skill_name arguments : value) : string := "".

Definition step_one : dict := [(KStr "id", JStr "step-1")].

(** A coordinator that answers every call with the same text, and a
    workflow of scripted agents that has it. *)
Definition coordinator_saying (text : string) : CoordinatorAgent Scripted.world :=
  {| kickoff_task := fun _ w => (inr text, w);
     synthesise_outcome := fun _ _ _ _ w => (inr text, w) |}.

Definition coordinated : AutomationWorkflow Scripted.world :=
  {| planner := Scripted.scripted_planner; executor := Scripted.scripted_executor;
     reviewer := Scripted.scripted_reviewer;
     coordinator := Some (coordinator_saying "All done.");
     write_text := fun _ _ w => (inr tt, w);
     max_plan_iterations := 3; max_step_iterations := 3; max_replan_attempts := 2 |}.

End Canned.

(* ================================================================= *)
(** ** More kinds of events *)

Definition is_final_review (e : event) : bool :=
  match e with FinalReview _ _ _ => true | _ => false end.

Definition is_synthesis (e : event) : bool :=
  match e with SynthesiseOutcome _ _ _ _ => true | _ => false end.

Definition is_write_report (e : event) : bool :=
  match e with WriteReport _ _ => true | _ => false end.

(** A call on a step: its execution or its review. *)
Definition step_call (e : event) : bool := (is_execute e || is_review_step e)%bool.

(** What follows the steps of a plan: the final review, the synthesis and
    the report. *)
Definition closing (e : event) : bool :=
  (is_final_review e || is_synthesis e || is_write_report e)%bool.

(** [spec] is the step the engine works on for the step of the plan [p] at
    position [k], counting from 0: a copy of that step, with [step-<k+1>]
    as its [id] when it has none. *)
Definition step_of_plan (p : dict) (k : nat) (spec : dict) : Prop :=
  exists steps raw copied,
    py_or (get p "steps") (JList []) = JList steps /\
    nth_error steps k = Some raw /\
    py_dict raw = inr copied /\
    spec = prepared copied (S k).


(* ================================================================= *)
(** ** The monad *)

Section MonadFacts.
Variable W : Type.

Lemma bind_inv {A B} (m : M W A) (f : A -> M W B) w res w' d :
  bind m f w = (res, w', d) ->
  (exists e, m w = (inl e, w', d) /\ res = inl e) \/
  (exists a w1 d1 d2,
      m w = (inr a, w1, d1) /\ f a w1 = (res, w', d2) /\ d = (d1 ++ d2)%list).
Proof.
  unfold bind. destruct (m w) as [[[e | a] w1] d1].
  - intros H. inversion H; subst. left. eauto.
  - destruct (f a w1) as [[r w2] d2] eqn:Hf. intros H. inversion H; subst.
    right. exists a, w1, d1, d2. auto.
Qed.

Lemma call_inv {A} (f : W -> response A * W) (log : response A -> event) w res w' d :
  call f log w = (res, w', d) ->
  exists resp,
    f w = (resp, w') /\ d = [log resp] /\
    res = match resp with inl msg => inl (Collaborator msg) | inr a => inr a end.
Proof.
  unfold call. destruct (f w) as [[msg | a] w1]; intros H; inversion H; subst; eauto.
Qed.

Lemma lift_inv {A} (r : result A) w res w' d :
  lift (W:=W) r w = (res, w', d) -> res = r /\ w' = w /\ d = [].
Proof. unfold lift. intros H. inversion H. auto. Qed.

End MonadFacts.

(** Take one [bind], [call], [lift], [ret] or [raise] apart in [H]; a
    branch whose result contradicts [H] is closed. *)
Ltac run_inv H :=
  match type of H with
  | bind _ _ _ = _ =>
      let e := fresh "e" in let a := fresh "a" in let w1 := fresh "w" in
      let d1 := fresh "d" in let d2 := fresh "d" in
      let H1 := fresh "Hrun" in let H2 := fresh "Hrun" in
      let Hr := fresh "Hres" in let Hd := fresh "Hd" in
      apply bind_inv in H;
      destruct H as [(e & H1 & Hr) | (a & w1 & d1 & d2 & H1 & H2 & Hd)];
      [ first [ discriminate Hr | subst ] | subst ]
  | call _ _ _ = _ =>
      let resp := fresh "resp" in let Hc := fresh "Hcall" in
      let Hr := fresh "Hres" in let Hd := fresh "Hd" in
      apply call_inv in H; destruct H as (resp & Hc & Hd & Hr);
      destruct resp; first [ discriminate Hr | inversion Hr; subst ]
  | lift _ _ = _ =>
      let Hr := fresh "Hres" in let Hw := fresh "Hw" in let Hd := fresh "Hd" in
      apply lift_inv in H; destruct H as (Hr & Hw & Hd); subst
  | ret _ _ = _ => unfold ret in H; inversion H; subst
  | raise _ _ = _ => unfold raise in H; inversion H; subst
  end.

(** Close a goal [forall e, res = inl e -> _] once [res] is known. *)
Ltac which_error :=
  let E := fresh "E" in
  intros ? E; inversion E; subst;
  repeat match goal with
         | H : inl _ = inl _ |- _ => inversion H; clear H; subst
         end;
  eauto.

(** The same on whatever the context holds, the binds last. *)
Ltac run_step :=
  match goal with
  | H : call _ _ _ = _ |- _ => run_inv H
  | H : lift _ _ = _ |- _ => run_inv H
  | H : ret _ _ = _ |- _ => run_inv H
  | H : raise _ _ = _ |- _ => run_inv H
  | H : bind _ _ _ = _ |- _ => run_inv H
  end.

(* ================================================================= *)
(** ** The attempts of one step *)

Lemma final_snoc {A} (l : list A) (x : A) : final (l ++ [x]) = Some x.
Proof. unfold final. rewrite map_app. simpl. apply last_last. Qed.

Lemma lookup_app_r (d1 d2 : dict) (k : key) :
  lookup d1 k = None -> lookup (d1 ++ d2) k = lookup d2 k.
Proof.
  induction d1 as [| [k' v'] d1 IH]; simpl; [reflexivity |].
  destruct (key_eqb k' k); [discriminate | auto].
Qed.

(** After [setdefault], [step["id"]] cannot fail. *)
Lemma getitem_setdefault (d : dict) (k : string) (v : value) :
  getitem (setdefault d k v) k = inr (get (setdefault d k v) k).
Proof.
  unfold getitem, get, get_default, setdefault.
  destruct (lookup d (KStr k)) eqn:E.
  - rewrite E. reflexivity.
  - rewrite (lookup_app_r _ _ _ E). simpl. rewrite String.eqb_refl. reflexivity.
Qed.

Lemma attempts_end_cons approved budget r new ap rr :
  retried r ->
  attempts_end approved budget new ap rr ->
  attempts_end approved (S budget) (r :: new) ap rr.
Proof.
  intros Hr H. destruct H as [init x Hi Hx | init x Hi Hx Hy | new Hn Hl].
  - change (r :: init ++ [x])%list with ((r :: init) ++ [x])%list.
    apply end_approved; auto.
  - change (r :: init ++ [x])%list with ((r :: init) ++ [x])%list.
    apply end_replan; auto.
  - apply end_exhausted; [auto | simpl; congruence].
Qed.

Section Attempts.
Variable W : Type.
Variable self : AutomationWorkflow W.
Variable t : Task.
Variable spec : dict.
Variable id : value.
Hypothesis Hid : getitem spec "id" = inr id.

(** The results of a completed attempts loop, the way it ended and the
    exchanges it made. *)
Lemma attempts_loop_ok attempts :
  forall approved fb sa w sa' ap' rr w' d,
    attempts_loop self t spec attempts approved fb sa w = (inr (sa', ap', rr), w', d) ->
    exists new,
      sa' = (sa ++ new)%list /\
      attempts_end approved (List.length attempts) new ap' rr /\
      d = attempt_events spec approved fb new /\
      map attempt new = firstn (List.length new) attempts /\
      Forall (fun r => step_id r = id /\ step r = spec) new.
Proof.
  induction attempts as [| n later IH]; intros approved fb sa w sa' ap' rr w' d H.
  - simpl in H. run_inv H. exists []. rewrite app_nil_r.
    repeat split; auto. apply end_exhausted; auto.
  - simpl in H.
    run_inv H. run_inv Hrun. run_inv Hrun0. run_inv Hrun. run_inv Hrun1. run_inv Hrun.
    rewrite Hid in Hres1. inversion Hres1; subst.
    match type of Hcall with _ = (inr ?o, _) => rename o into out end.
    match type of Hcall0 with _ = (inr ?o, _) => rename o into rev end.
    set (r := {| step_id := id; step := spec; output := out; review := rev;
                 attempt := n |}) in *.
    destruct (truthy (get rev "approved")) eqn:Happ.
    + run_inv Hrun0. exists [r]. repeat split; auto.
      apply (end_approved _ _ [] r); auto.
    + destruct (truthy (get rev "requires_replan")) eqn:Hrep.
      * run_inv Hrun0. exists [r]. repeat split; auto.
        apply (end_replan _ _ [] r); auto.
      * apply IH in Hrun0. destruct Hrun0 as (new & -> & Hend & -> & Hatt & Hall).
        exists (r :: new). rewrite <- app_assoc. repeat split; auto.
        -- apply attempts_end_cons; [split; auto | auto].
        -- simpl. congruence.
Qed.

Lemma attempts_loop_events attempts :
  forall approved fb sa w res w' d,
    attempts_loop self t spec attempts approved fb sa w = (res, w', d) ->
    Forall (fun e => execution_event e = true) d /\
    contexts_ok approved d /\
    ((signal_free d /\ forall sa' ap', res <> inr (sa', ap', true)) \/
     (exists sa' ap', res = inr (sa', ap', true) /\ signalled d (last_feedback sa'))) /\
    (forall e, res = inl e -> exists msg, e = Collaborator msg).
Proof.
  induction attempts as [| n later IH]; intros approved fb sa w res w' d H.
  - simpl in H. run_inv H. repeat split; auto; [| discriminate].
    left. split; [constructor | congruence].
  - simpl in H. run_inv H.
    { (* execute_step raised *)
      run_inv Hrun. repeat split; simpl; auto.
      - left. split; [repeat constructor | congruence].
      - intros ? E. inversion E. eauto. }
    run_inv Hrun. run_inv Hrun0.
    { (* review_step raised *)
      run_inv Hrun. repeat split; simpl; auto.
      - left. split; [repeat constructor | congruence].
      - intros ? E. inversion E. eauto. }
    run_inv Hrun. rewrite Hid in Hrun1.
    run_step; [run_step; discriminate |].
    run_step. match goal with H : inr _ = inr _ |- _ => inversion H; subst end.
    match type of Hcall with _ = (inr ?o, _) => rename o into out end.
    match type of Hcall0 with _ = (inr ?o, _) => rename o into rev end.
    simpl. unfold approved_result at 1. simpl.
    destruct (truthy (get rev "approved")) eqn:Happ.
    + run_inv Hrun0. simpl. repeat split; auto; [| discriminate].
      left. split; [| congruence].
      repeat constructor. simpl. rewrite Happ. reflexivity.
    + destruct (truthy (get rev "requires_replan")) eqn:Hrep.
      * run_inv Hrun0. simpl. repeat split; auto; [| discriminate].
        right. eexists _, _. split; [reflexivity |].
        apply (signalled_at _ _ [ExecuteStep spec approved fb (inr out)]
                 (ReviewStep spec out n (inr rev))); auto.
        -- repeat constructor.
        -- simpl. rewrite Happ, Hrep. unfold last_feedback. rewrite final_snoc.
           reflexivity.
      * apply IH in Hrun0. destruct Hrun0 as (Hex & Hctx & Hsig & Herr).
        rewrite !app_nil_r. repeat split; auto.
        destruct Hsig as [[Hfree Hno] | (sa' & ap' & -> & Hs)].
        -- left. split; [| exact Hno].
           repeat constructor; auto. simpl. rewrite Happ, Hrep. reflexivity.
        -- right. exists sa', ap'. split; [reflexivity |].
           destruct Hs as [d0 e Hd Hfree He].
           apply (signalled_at _ _
                    (ExecuteStep spec approved fb (inr out)
                     :: ReviewStep spec out n (inr rev) :: d0) e); auto.
           ++ simpl. rewrite Hd. reflexivity.
           ++ repeat constructor; auto. simpl. rewrite Happ, Hrep. reflexivity.
Qed.

End Attempts.

(* ================================================================= *)
(** ** The steps of one plan *)

Lemma created_app d1 d2 : created (d1 ++ d2) = created d1 ++ created d2.
Proof. unfold created. apply flat_map_app. Qed.

Lemma created_attempt_events spec prior new :
  forall fb,
    Forall (fun r => step_id r = get spec "id" /\ step r = spec) new ->
    created (attempt_events spec prior fb new) = new.
Proof.
  induction new as [| r new IH]; intros fb Hall; [reflexivity |].
  inversion Hall as [| ? ? [Hi Hs] Hrest]; subst. simpl. rewrite IH by assumption.
  destruct r; simpl in *. congruence.
Qed.

Lemma contexts_ok_app d1 :
  forall prior d2,
    contexts_ok prior (d1 ++ d2) <->
    contexts_ok prior d1 /\
    contexts_ok (prior ++ filter approved_result (created d1)) d2.
Proof.
  induction d1 as [| e d1 IH]; intros prior d2; simpl.
  - rewrite app_nil_r. tauto.
  - rewrite IH. unfold created. simpl. rewrite filter_app, app_assoc. tauto.
Qed.

Lemma filter_retried new :
  Forall retried new -> filter approved_result new = [].
Proof.
  induction 1 as [| r new [Ha _] _ IH]; [reflexivity |].
  simpl. unfold approved_result at 1. rewrite Ha. exact IH.
Qed.

Lemma attempts_end_forwarded approved budget new ap rr :
  attempts_end approved budget new ap rr ->
  ap = approved ++ filter approved_result new.
Proof.
  intros [init r Hi Hr | init r Hi Hr Hp | new' Hn Hl].
  - rewrite filter_app, (filter_retried _ Hi). simpl.
    unfold approved_result. rewrite Hr. reflexivity.
  - rewrite filter_app, (filter_retried _ Hi). simpl.
    unfold approved_result. rewrite Hr. rewrite app_nil_r. reflexivity.
  - rewrite (filter_retried _ Hn), app_nil_r. reflexivity.
Qed.

Lemma signal_free_app d1 d2 :
  signal_free d1 -> signal_free d2 -> signal_free (d1 ++ d2).
Proof. unfold signal_free. intros. apply Forall_app. auto. Qed.

Lemma signalled_app d1 d2 fb :
  signal_free d1 -> signalled d2 fb -> signalled (d1 ++ d2) fb.
Proof.
  intros H1 [d0 e Hd Hfree He].
  apply (signalled_at _ _ (d1 ++ d0) e); auto.
  - rewrite Hd, app_assoc. reflexivity.
  - apply signal_free_app; assumption.
Qed.

Lemma pair_of_error v e : pair_of v = inl e -> exists cls, e = Builtin cls.
Proof.
  destruct v as [| | | s | items | entries]; simpl; intros H;
    try (inversion H; eauto; fail).
  - destruct (chars s) as [| ? [| ? [| ]]]; inversion H; eauto.
  - destruct items as [| ? [| ? [| ]]]; inversion H; eauto.
  - destruct entries as [| [] [| [] [| ]]]; inversion H; eauto.
Qed.

Lemma dict_of_pairs_error items :
  forall acc e, dict_of_pairs acc items = inl e -> exists cls, e = Builtin cls.
Proof.
  induction items as [| item rest IH]; intros acc e H; simpl in H; [discriminate |].
  destruct (pair_of item) as [e' | [k v]] eqn:Ep.
  - inversion H; subst. eapply pair_of_error; eassumption.
  - destruct (key_of_value k) as [e' | k'] eqn:Ek.
    + inversion H; subst. destruct k; simpl in Ek; inversion Ek; eauto.
    + eapply IH; eassumption.
Qed.

(** [dict()] fails with [TypeError] or [ValueError] only. *)
Lemma py_dict_error v e : py_dict v = inl e -> exists cls, e = Builtin cls.
Proof.
  destruct v; simpl; intros H; try (inversion H; eauto; fail);
    eapply dict_of_pairs_error; eassumption.
Qed.

Section Steps.
Variable W : Type.
Variable self : AutomationWorkflow W.
Variable t : Task.

(** What any run of the steps loop emits, and what a completed one returns. *)
Lemma steps_loop_events steps :
  forall index all approved w res w' d,
    steps_loop self t steps index all approved w = (res, w', d) ->
    Forall (fun e => execution_event e = true) d /\
    contexts_ok approved d /\
    ((signal_free d /\ forall fb, res <> inr (ReplanRequested fb)) \/
     (exists fb, res = inr (ReplanRequested fb) /\ signalled d fb)) /\
    (forall all', res = inr (Completed all') -> all' = all ++ created d) /\
    (forall e, res = inl e -> step_error W self e).
Proof.
  induction steps as [| raw later IH]; intros index all approved w res w' d H.
  - simpl in H. run_inv H. repeat split; auto; [| | discriminate].
    + left. split; [constructor | congruence].
    + intros all' E. inversion E. rewrite app_nil_r. reflexivity.
  - cbn [steps_loop] in H. run_inv H.
    { run_step. repeat split; auto; try discriminate.
      - left. split; [constructor | congruence].
      - intros ? E. inversion E; subst. right. left.
        eapply py_dict_error. symmetry. eassumption. }
    run_step.
    match goal with
    | H : inr ?c = py_dict raw |- _ => rename c into copied; clear H
    end.
    set (spec := setdefault copied "id" (JStr ("step-" ++ str_of_nat index)%string)) in *.
    pose proof (getitem_setdefault copied "id"
                  (JStr ("step-" ++ str_of_nat index)%string)) as Hid.
    fold spec in Hid. simpl.
    run_step.
    { (* the attempts loop raised *)
      match goal with
      | H : attempts_loop _ _ _ _ _ _ _ _ = _ |- _ =>
          apply (attempts_loop_events W self t spec _ Hid) in H;
          destruct H as (Hex & Hctx & [[Hfree Hno] | (? & ? & E & _)] & Herr)
      end; [| discriminate].
      repeat split; auto; try discriminate.
      - left. split; [assumption | congruence].
      - intros ? E. inversion E; subst. left. apply Herr. reflexivity. }
    match goal with
    | H : attempts_loop _ _ _ _ _ _ _ _ = (inr ?a, ?wx, ?dx) |- _ =>
        rename wx into w1; rename dx into d1; destruct a as [[sa ap] rr];
        pose proof (attempts_loop_events W self t spec _ Hid _ _ _ _ _ _ _ _ H)
          as (Hex & Hctx & Hsig & _);
        apply (attempts_loop_ok W self t spec _ Hid) in H;
        destruct H as (new & Hsa & Hend & Hd & _ & Hnew)
    end.
    simpl in Hsa. subst sa.
    assert (Hcr : created d1 = new).
    { rewrite Hd. apply created_attempt_events.
      eapply Forall_impl; [| exact Hnew]. simpl. intros r [-> ->]. auto. }
    destruct rr.
    + (* re-plan requested *)
      run_step. rewrite app_nil_r.
      destruct Hsig as [[_ Hno] | (sa' & ap' & E & Hs)];
        [exfalso; eapply Hno; reflexivity |].
      inversion E; subst sa' ap'.
      repeat split; auto; try discriminate.
      right. eexists. split; [reflexivity | assumption].
    + destruct Hsig as [[Hfree _] | (? & ? & E & _)]; [| discriminate].
      destruct (approved_last new) eqn:Hlast; simpl in *.
      * (* approved: on to the next step *)
        match goal with
        | H : steps_loop _ _ _ _ _ _ _ = _ |- _ =>
            apply IH in H; destruct H as (Hex2 & Hctx2 & Hsig2 & Hall2 & Herr2)
        end.
        pose proof (attempts_end_forwarded _ _ _ _ _ Hend) as Hap.
        repeat split.
        -- apply Forall_app. auto.
        -- apply contexts_ok_app. split; [assumption |].
           rewrite Hcr, <- Hap. assumption.
        -- destruct Hsig2 as [[Hfree2 Hno2] | (fb & -> & Hs2)].
           ++ left. split; [apply signal_free_app; assumption | assumption].
           ++ right. exists fb. split; [reflexivity |].
              apply signalled_app; assumption.
        -- intros all' E. apply Hall2 in E. rewrite E, created_app, Hcr, app_assoc.
           reflexivity.
        -- assumption.
      * (* not approved: the bound is exceeded *)
        run_step; [run_step; rewrite Hid in *; discriminate |].
        run_step. run_step. rewrite !app_nil_r.
        repeat split; auto; try discriminate.
        -- left. split; [assumption | congruence].
        -- intros ? E. inversion E; subst. right. right. eauto.
Qed.

End Steps.

(* ================================================================= *)
(** ** Executing one plan *)

Lemma created_nil_tail d tail :
  Forall (fun e => created_by e = []) tail -> created (d ++ tail) = created d.
Proof.
  intros H. rewrite created_app.
  assert (E : created tail = []).
  { induction H as [| e tail He _ IH]; [reflexivity |].
    unfold created in *. simpl. rewrite He, IH. reflexivity. }
  rewrite E. apply app_nil_r.
Qed.

Lemma contexts_ok_tail prior tail :
  Forall (fun e => is_execute e = false /\ created_by e = []) tail ->
  contexts_ok prior tail.
Proof.
  intros H. revert prior.
  induction H as [| e tail [He Hc] _ IH]; intros prior; simpl; [exact I |].
  rewrite Hc. simpl. rewrite app_nil_r. split; [| apply IH].
  destruct e; try exact I. discriminate He.
Qed.

Lemma join_error sep items e : join sep items = inl e -> e = Builtin TypeError.
Proof.
  unfold join. destruct (join_items items) as [e' | ss] eqn:Ej; [| discriminate].
  intros H. inversion H; subst. clear H. revert e Ej.
  induction items as [| v vs IH]; intros e Ej; simpl in Ej; [discriminate |].
  destruct v; try (inversion Ej; reflexivity).
  destruct (join_items vs); [| discriminate]. inversion Ej; subst. auto.
Qed.

Section Execution.
Variable W : Type.
Variable self : AutomationWorkflow W.
Variable t : Task.

Lemma write_report_events r (w : W) res w' d :
  _write_report self r w = (res, w', d) ->
  Forall quiet d /\
  (forall e, res = inl e -> (exists msg, e = Collaborator msg) \/ e = Builtin TypeError) /\
  (forall u, res = inr u ->
     exists text, to_markdown r = inr text /\
       write_text self (safe_name (name (task r)) ++ ".md")%string text w = (inr u, w') /\
       d = [WriteReport (safe_name (name (task r)) ++ ".md")%string text]).
Proof.
  unfold _write_report. intros H. run_inv H.
  - run_inv Hrun. repeat split; [constructor | | discriminate].
    intros e' E. inversion E; subst. right. eapply join_error. symmetry. eassumption.
  - run_inv Hrun. run_inv Hrun0.
    + repeat split; [repeat constructor | | discriminate].
      intros e' E. inversion E; subst. left. eauto.
    + repeat split; [repeat constructor | discriminate |].
      intros u' E. inversion E; subst. eexists.
      split; [symmetry; eassumption |]. split; [eassumption | reflexivity].
Qed.

Lemma synthesis_events p all summary w res w' d :
  synthesis self t p all summary w = (res, w', d) ->
  Forall quiet d /\ (forall e, res = inl e -> exists msg, e = Collaborator msg).
Proof.
  unfold synthesis. destruct (coordinator self) as [c |]; intros H.
  - run_inv H; run_step; try run_step; split; try which_error; repeat constructor.
  - run_inv H. split; [constructor | discriminate].
Qed.

(** The end of [_execute_plan]: it starts with the final review over
    [all], runs no step, and fails only on the exception of a call that
    leaves the engine or on a report that does not render. *)
Lemma finalise_events p all w res w' d :
  finalise self t p all w = (res, w', d) ->
  (exists resp tail, d = FinalReview p all resp :: tail) /\
  Forall quiet d /\
  (forall r fb, res = inr (r, fb) ->
     exists result,
       r = Some result /\ fb = JNull /\ task result = t /\ plan result = p /\
       step_results result = all) /\
  (forall e, res = inl e -> (exists msg, e = Collaborator msg) \/ e = Builtin TypeError).
Proof.
  unfold finalise. intros H. run_step.
  { run_step. repeat split; try discriminate; [simpl; eauto | repeat constructor | which_error]. }
  run_step. run_step.
  { (* synthesis raised *)
    match goal with H : _ = (inl _, _, _) |- _ =>
      apply synthesis_events in H; destruct H as (Hq & Herr) end.
    repeat split; try discriminate; [simpl; eauto | | ].
    - constructor; [repeat split; auto | assumption].
    - intros e' E. inversion E; subst. left. apply Herr. reflexivity. }
  match goal with H : _ = (inr _, _, _) |- _ =>
    apply synthesis_events in H; destruct H as (Hq & _) end.
  run_step.
  { (* the report did not render, or was not written *)
    match goal with H : _write_report _ _ _ = _ |- _ =>
      apply write_report_events in H; destruct H as (Hq2 & Herr & _) end.
    repeat split; try discriminate; [simpl; eauto | | ].
    - constructor; [repeat split; auto |]. apply Forall_app. auto.
    - intros e' E. inversion E; subst. apply Herr. reflexivity. }
  match goal with H : _write_report _ _ _ = _ |- _ =>
    apply write_report_events in H; destruct H as (Hq2 & _ & _) end.
  run_step. repeat split; try discriminate; [simpl; eauto | | ].
  - constructor; [repeat split; auto |]. rewrite app_nil_r.
    apply Forall_app. auto.
  - intros r fb E. inversion E; subst. eexists. repeat split; reflexivity.
Qed.

(** What any call of [_execute_plan] emits and returns. *)
Lemma execute_plan_events p :
  forall w res w' d,
    _execute_plan self t p w = (res, w', d) ->
    Forall (fun e => execution_event e = true) d /\
    contexts_ok [] d /\
    ((signal_free d /\ forall fb, res <> inr (None, fb)) \/
     (exists fb, res = inr (None, fb) /\ signalled d fb)) /\
    (forall r fb, res = inr (Some r, fb) ->
       fb = JNull /\ task r = t /\ plan r = p /\ step_results r = created d) /\
    (forall e, res = inl e ->
       step_error W self e \/
       (e = steps_not_array /\
        forall items, py_or (get p "steps") (JList []) <> JList items)) /\
    (d = [] -> exists e, res = inl e).
Proof.
  intros w res w' d H. unfold _execute_plan in H.
  destruct (py_or (get p "steps") (JList [])) as [| b | z | s | steps | entries];
    try (run_inv H; repeat split; auto; try discriminate;
         [left; split; [constructor | congruence]
         | intros ? E; inversion E; right; split; [reflexivity | discriminate]
         | eauto]).
  run_inv H.
  { (* the steps loop raised *)
    apply steps_loop_events in Hrun.
    destruct Hrun as (Hex & Hctx & [[Hfree _] | (? & E & _)] & _ & Herr);
      [| discriminate].
    repeat split; auto; try discriminate.
    - left. split; [assumption | congruence].
    - intros ? E. inversion E; subst. left. apply Herr. reflexivity.
    - eauto. }
  apply steps_loop_events in Hrun.
  destruct Hrun as (Hex & Hctx & Hsig & Hall & _).
  destruct a as [all_results | feedback].
  - (* the loop completed: final review, synthesis, report *)
    destruct Hsig as [[Hfree _] | (? & E & _)]; [| discriminate].
    specialize (Hall _ eq_refl). simpl in Hall. subst all_results.
    match goal with H : finalise _ _ _ _ _ = (_, _, ?dx) |- _ =>
      rename dx into tail;
      apply finalise_events in H; destruct H as ((resp & tail' & Hne) & Hev & Hres & Herr)
    end.
    unfold quiet in Hev. repeat split.
    + apply Forall_app. split; [assumption |].
      eapply Forall_impl; [| exact Hev]. simpl. tauto.
    + apply contexts_ok_app. split; [assumption |].
      apply contexts_ok_tail. eapply Forall_impl; [| exact Hev]. simpl. tauto.
    + left. split.
      * apply signal_free_app; [assumption |].
        eapply Forall_impl; [| exact Hev]. simpl. tauto.
      * intros fb E. destruct (Hres _ _ E) as (? & ? & _). discriminate.
    + destruct (Hres _ _ H) as (x & E & Hfb & Ht & Hp & Hs). assumption.
    + destruct (Hres _ _ H) as (x & E & Hfb & Ht & Hp & Hs).
      inversion E; subst x. assumption.
    + destruct (Hres _ _ H) as (x & E & Hfb & Ht & Hp & Hs).
      inversion E; subst x. assumption.
    + destruct (Hres _ _ H) as (x & E & Hfb & Ht & Hp & Hs).
      inversion E; subst x. rewrite Hs.
      symmetry. apply created_nil_tail.
      eapply Forall_impl; [| exact Hev]. simpl. tauto.
    + intros e E. left. unfold step_error.
      destruct (Herr _ E) as [? | ->]; eauto.
    + intros E. apply app_eq_nil in E. destruct E as [_ ->]. discriminate.
  - (* a re-plan was requested *)
    run_step. rewrite app_nil_r.
    destruct Hsig as [[_ Hno] | (fb & E & Hs)]; [exfalso; eapply Hno; reflexivity |].
    inversion E; subst.
    repeat split; auto; try discriminate.
    + right. eauto.
    + intros ->. destruct Hs as [d0' e0 Hd _ _]. destruct d0'; discriminate.
Qed.

End Execution.

(* ================================================================= *)
(** ** The planning loop *)

Lemma final_app_nonnil {A} (l1 l2 : list A) :
  l2 <> [] -> final (l1 ++ l2) = final l2.
Proof.
  intros H. destruct (exists_last H) as (l & x & ->).
  rewrite app_assoc, !final_snoc. reflexivity.
Qed.

Lemma final_In {A} (l : list A) (x : A) : final l = Some x -> In x l.
Proof.
  destruct l as [| y l']; [discriminate |].
  destruct (@exists_last _ (y :: l')) as (l0 & z & E); [discriminate |].
  rewrite E, final_snoc. intros H. inversion H; subst.
  apply in_or_app. right. left. reflexivity.
Qed.

Lemma final_free d1 d2 e :
  signal_free (d1 ++ d2) -> final (d1 ++ d2) = Some e -> replan_signal e = None.
Proof.
  intros Hfree H. apply final_In in H.
  unfold signal_free in Hfree. rewrite Forall_forall in Hfree. auto.
Qed.

Lemma signals_answered_free d :
  signal_free d -> forall cur, signals_answered cur d.
Proof.
  induction 1 as [| e d He _ IH]; intros cur; simpl; [exact I |].
  split; [intros fb E; congruence | apply IH].
Qed.

(** Signal-free events other than plan reviews leave the plan under
    execution as it is. *)
Lemma signals_answered_app d1 :
  forall cur d2,
    signal_free d1 ->
    Forall (fun e => is_review_plan e = false) d1 ->
    signals_answered cur d2 ->
    signals_answered cur (d1 ++ d2).
Proof.
  induction d1 as [| e d1 IH]; intros cur d2 Hfree Hex H2; simpl; [assumption |].
  inversion Hfree; subst. inversion Hex; subst.
  split; [intros fb E; congruence |].
  replace (reviewed cur e) with cur by (destruct e; try reflexivity; discriminate).
  apply IH; assumption.
Qed.

Lemma execution_not_review d :
  Forall (fun e => execution_event e = true) d ->
  Forall (fun e => is_review_plan e = false) d.
Proof.
  apply Forall_impl. intros e H. destruct e; try reflexivity; discriminate.
Qed.

Lemma signals_answered_split pre :
  forall cur e post fb,
    signals_answered cur (pre ++ e :: post) ->
    replan_signal e = Some fb ->
    post = [] \/
    exists p resp rest,
      fold_left reviewed pre cur = Some p /\
      post = ProposePlan (py_or fb default_replan_feedback) (Some p) resp :: rest.
Proof.
  induction pre as [| x pre IH]; intros cur e post fb H Hs; simpl in H.
  - destruct H as [H _]. specialize (H _ Hs).
    destruct post as [| next post]; [auto |].
    right. destruct H as (p & resp & -> & ->). simpl. eauto.
  - destruct H as [_ H]. simpl. eapply IH; eassumption.
Qed.

Lemma planning_prefix_execution exec rest :
  Forall (fun e => execution_event e = true) exec ->
  exec <> [] \/ rest = [] ->
  planning_prefix (exec ++ rest) = [].
Proof.
  intros Hex [Hne | ->].
  - destruct exec as [| e exec]; [congruence |].
    inversion Hex; subst. simpl. rewrite H1. reflexivity.
  - rewrite app_nil_r. destruct exec as [| e exec]; [reflexivity |].
    inversion Hex; subst. simpl. rewrite H1. reflexivity.
Qed.

Section Planning.
Variable W : Type.
Variable self : AutomationWorkflow W.
Variable t : Task.

Lemma plan_loop_iteration remaining pa fb prev w res w' d :
  plan_loop self t (S remaining) pa fb prev w = (res, w', d) ->
  iteration W self t remaining pa fb prev w res w' d.
Proof.
  intros H. cbn [plan_loop] in H.
  run_inv H; [run_step; eapply propose_raised; reflexivity |].
  run_step. run_step; [run_step; eapply review_raised; reflexivity |].
  run_step.
  match goal with
  | H : (if negb (truthy (get ?rev "approved")) then _ else _) _ = _ |- _ =>
      destruct (truthy (get rev "approved")) eqn:Happ; simpl in H
  end.
  - run_step.
    + eapply execution_raised; eauto.
    + match goal with
      | H : _execute_plan _ _ _ _ = (inr ?a, _, _) |- _ => destruct a as [[r |] fbk]
      end.
      * run_step. rewrite app_nil_r. eapply execution_returned; eauto.
      * change (0 + 1) with 1 in *.
        destruct (1 >? max_replan_attempts self) eqn:Hmax.
        -- run_step. rewrite app_nil_r. eapply replan_refused; eauto.
        -- eapply replanned; eauto.
  - eapply plan_rejected; eauto.
Qed.

Lemma plan_loop_head remaining pa fb prev w res w' d :
  plan_loop self t remaining pa fb prev w = (res, w', d) ->
  (d = [] /\ res = inl (plan_attempts_exceeded t)) \/
  (exists resp rest, d = ProposePlan fb prev resp :: rest).
Proof.
  destruct remaining as [| remaining]; intros H.
  - simpl in H. run_inv H. auto.
  - right. destruct (plan_loop_iteration _ _ _ _ _ _ _ _ H); subst; eauto.
Qed.

(** Re-plan signals are answered by a proposal, unless the run stops on a
    bound. *)
Lemma plan_loop_signals remaining :
  forall pa fb prev w res w' d cur,
    plan_loop self t remaining pa fb prev w = (res, w', d) ->
    signals_answered cur d /\
    (forall e fbk, final d = Some e -> replan_signal e = Some fbk ->
       res = inl (replans_exceeded t) \/ res = inl (plan_attempts_exceeded t)).
Proof.
  induction remaining as [| remaining IH]; intros pa fb prev w res w' d cur H.
  - simpl in H. run_inv H. split; [exact I | discriminate].
  - destruct (plan_loop_iteration _ _ _ _ _ _ _ _ H)
      as [msg -> -> | p msg -> -> | p rev w2 rest Happ Hrest ->
          | p rev w2 e exec Happ Hexec -> -> | p rev w2 r fbk exec Happ Hexec -> ->
          | p rev w2 fbk exec Happ Hexec Hmax -> ->
          | p rev w2 fbk exec w3 rest Happ Hexec Hmax Hrest ->].
    + split; [simpl; intuition discriminate |].
      intros e fbk E. inversion E; subst. discriminate.
    + split; [simpl; intuition discriminate |].
      intros e fbk E. inversion E; subst. discriminate.
    + destruct (IH _ _ _ _ _ _ _ (Some p) Hrest) as (Hans & Hfin).
      split; [simpl; intuition discriminate |].
      intros e fbk E Hs. destruct rest as [| x rest'].
      * inversion E; subst. discriminate.
      * apply (Hfin e fbk); [| assumption].
        rewrite <- E. symmetry.
        apply (final_app_nonnil [_; _] (x :: rest')). discriminate.
    + apply execute_plan_events in Hexec.
      destruct Hexec as (_ & _ & [[Hfree _] | (? & E & _)] & _); [| discriminate].
      split.
      * simpl. repeat split; try discriminate.
        apply signals_answered_free. assumption.
      * intros e0 fbk E Hs. apply (final_free [_; _] exec e0) in E; [congruence |].
        repeat constructor; assumption.
    + apply execute_plan_events in Hexec.
      destruct Hexec as (_ & _ & [[Hfree _] | (? & E & _)] & _); [| discriminate].
      split.
      * simpl. repeat split; try discriminate.
        apply signals_answered_free. assumption.
      * intros e0 fbk0 E Hs. apply (final_free [_; _] exec e0) in E; [congruence |].
        repeat constructor; assumption.
    + split; [| auto].
      apply execute_plan_events in Hexec.
      destruct Hexec as (Hex & _ & [[_ Hno] | (fb' & E & Hs)] & _);
        [exfalso; eapply Hno; reflexivity |].
      simpl. repeat split; try discriminate.
      destruct Hs as [d0 e0 -> Hfree0 He0].
      apply signals_answered_app; [assumption | | ].
      * apply execution_not_review. apply Forall_app in Hex. tauto.
      * simpl. auto.
    + apply execute_plan_events in Hexec.
      destruct Hexec as (Hex & _ & [[_ Hno] | (fb' & E & Hs)] & _);
        [exfalso; eapply Hno; reflexivity |].
      inversion E; subst fb'. clear E.
      destruct (IH _ _ _ _ _ _ _ (Some p) Hrest) as (Hans & Hfin).
      destruct Hs as [d0 e0 -> Hfree0 He0].
      apply Forall_app in Hex. destruct Hex as [Hex0 _].
      split.
      * simpl. repeat split; try discriminate.
        rewrite <- app_assoc.
        apply signals_answered_app;
          [assumption | apply execution_not_review; assumption |].
        simpl. split;
          [| destruct e0; simpl in He0; try discriminate; assumption].
        intros fb0 Hf. rewrite He0 in Hf. inversion Hf; subst fb0.
        destruct (plan_loop_head _ _ _ _ _ _ _ _ Hrest) as [[-> _] | (resp & rest' & ->)];
          [exact I | eauto].
      * intros e fbk0 E Hs.
        destruct (plan_loop_head _ _ _ _ _ _ _ _ Hrest) as [[-> ->] | (resp & rest' & ->)];
          [auto |].
        apply (Hfin e fbk0); [| assumption].
        rewrite <- E.
        change (ProposePlan fb prev (inr p) :: ReviewPlan p (S pa) (inr rev)
                :: (d0 ++ [e0]) ++ ProposePlan (py_or fbk default_replan_feedback)
                                     (Some p) resp :: rest')
          with ((ProposePlan fb prev (inr p) :: ReviewPlan p (S pa) (inr rev)
                 :: (d0 ++ [e0])) ++ ProposePlan (py_or fbk default_replan_feedback)
                                      (Some p) resp :: rest').
        symmetry. apply final_app_nonnil. discriminate.
Qed.

(** A run that returns ends with the approval of the plan it returns and
    that plan's execution. *)
Lemma plan_loop_result remaining :
  forall pa fb prev w r w' d,
    plan_loop self t remaining pa fb prev w = (inr r, w', d) ->
    exists pre n rev exec,
      d = pre ++ ReviewPlan (plan r) n (inr rev) :: exec /\
      truthy (get rev "approved") = true /\
      Forall (fun e => execution_event e = true) exec /\
      task r = t /\
      step_results r = created exec.
Proof.
  induction remaining as [| remaining IH]; intros pa fb prev w r w' d H.
  - simpl in H. run_inv H.
  - destruct (plan_loop_iteration _ _ _ _ _ _ _ _ H)
      as [msg _ E | p msg _ E | p rev w2 rest Happ Hrest ->
          | p rev w2 e exec Happ Hexec E _ | p rev w2 r0 fbk exec Happ Hexec E ->
          | p rev w2 fbk exec Happ Hexec Hmax E _
          | p rev w2 fbk exec w3 rest Happ Hexec Hmax Hrest ->];
      try discriminate.
    + apply IH in Hrest. destruct Hrest as (pre & n & rev' & exec & -> & Hrest).
      exists (ProposePlan fb prev (inr p) :: ReviewPlan p (S pa) (inr rev) :: pre),
        n, rev', exec. split; [reflexivity | assumption].
    + inversion E; subst r0. apply execute_plan_events in Hexec.
      destruct Hexec as (Hex & _ & _ & Hres & _).
      destruct (Hres _ _ eq_refl) as (_ & Ht & Hp & Hs). subst p.
      exists [ProposePlan fb prev (inr (plan r))], (S pa), rev, exec. auto.
    + apply IH in Hrest. destruct Hrest as (pre & n & rev' & exec' & -> & Hrest).
      exists (ProposePlan fb prev (inr p) :: ReviewPlan p (S pa) (inr rev)
              :: exec ++ pre), n, rev', exec'.
      split; [| assumption]. simpl. rewrite <- app_assoc. reflexivity.
Qed.

(** The exceptions of [_execute_plan] are not those of [run_task]. *)
Lemma execution_error_not_replans e :
  step_error W self e \/ e = steps_not_array -> e <> replans_exceeded t.
Proof.
  unfold step_error, step_not_approved, steps_not_array, replans_exceeded.
  intros [[(msg & ->) | [(cls & ->) | (id & ->)]] | ->]; discriminate.
Qed.

(** With [max_replan_attempts] at least 1 the re-plan bound is never hit:
    [replan_attempts] restarts at 0 for every approved plan and is compared
    once, at 1. *)
Lemma plan_loop_replans remaining :
  1 <= max_replan_attempts self ->
  forall pa fb prev w res w' d,
    plan_loop self t remaining pa fb prev w = (res, w', d) ->
    res <> inl (replans_exceeded t).
Proof.
  intros Hmax1.
  induction remaining as [| remaining IH]; intros pa fb prev w res w' d H.
  - simpl in H. run_inv H.
    unfold plan_attempts_exceeded, replans_exceeded. discriminate.
  - destruct (plan_loop_iteration _ _ _ _ _ _ _ _ H)
      as [msg _ -> | p msg _ -> | p rev w2 rest Happ Hrest _
          | p rev w2 e exec Happ Hexec -> _ | p rev w2 r0 fbk exec Happ Hexec -> _
          | p rev w2 fbk exec Happ Hexec Hmax _ _
          | p rev w2 fbk exec w3 rest Happ Hexec Hmax Hrest _];
      try discriminate; eauto.
    + apply execute_plan_events in Hexec.
      destruct Hexec as (_ & _ & _ & _ & Herr & _).
      intros E. inversion E; subst.
      eapply execution_error_not_replans; [| reflexivity].
      destruct (Herr _ eq_refl) as [? | [? _]]; [left | right]; eassumption.
    + exfalso. apply Z.gtb_lt in Hmax. lia.
Qed.

(** The planning phase of a run whose reviews reject [k] plans and then
    approve one: [k + 1] rounds, chained. *)
Lemma plan_loop_planning remaining :
  forall pa fb prev w res w' d k,
    plan_loop self t remaining pa fb prev w = (res, w', d) ->
    map plan_approved (plan_reviews (planning_prefix d)) = repeat false k ++ [true] ->
    (k < remaining)%nat /\
    exists rounds,
      List.length rounds = S k /\
      planning_prefix d = planning_chain fb prev (S pa) rounds.
Proof.
  induction remaining as [| remaining IH]; intros pa fb prev w res w' d k H Hk.
  - simpl in H. run_inv H. destruct k; discriminate.
  - assert (Hexec : forall p rev exec rest (w2 w3 : W) res_e,
              truthy (get rev "approved") = true ->
              _execute_plan self t p w2 = (res_e, w3, exec) ->
              (exec <> [] \/ rest = []) ->
              d = ProposePlan fb prev (inr p) :: ReviewPlan p (S pa) (inr rev)
                  :: exec ++ rest ->
              (k < S remaining)%nat /\
              exists rounds,
                List.length rounds = S k /\
                planning_prefix d = planning_chain fb prev (S pa) rounds).
    { intros p rev exec rest w2 w3 res_e Happ He Hne ->.
      apply execute_plan_events in He. destruct He as (Hex & _).
      simpl in Hk. rewrite (planning_prefix_execution _ _ Hex Hne) in Hk.
      simpl in Hk. unfold plan_approved in Hk at 1. rewrite Happ in Hk.
      destruct k as [| k]; [| discriminate].
      split; [lia |]. exists [(p, rev)]. simpl.
      rewrite (planning_prefix_execution _ _ Hex Hne). auto. }
    destruct (plan_loop_iteration _ _ _ _ _ _ _ _ H)
      as [msg -> _ | p msg -> _ | p rev w2 rest Happ Hrest ->
          | p rev w2 e exec Happ He _ E | p rev w2 r0 fbk exec Happ He _ E
          | p rev w2 fbk exec Happ He Hmax _ E
          | p rev w2 fbk exec w3 rest Happ He Hmax Hrest E].
    + destruct k; discriminate.
    + destruct k; discriminate.
    + simpl in Hk. unfold plan_approved in Hk at 1. rewrite Happ in Hk.
      destruct k as [| k]; [discriminate |]. simpl in Hk. inversion Hk as [Hk'].
      destruct (IH _ _ _ _ _ _ _ _ Hrest Hk') as (Hlt & rounds & Hlen & Hpre).
      split; [lia |]. exists ((p, rev) :: rounds). simpl.
      rewrite Hlen, Hpre. auto.
    + apply (Hexec p rev exec [] w2 w' (inl e)); auto.
      rewrite app_nil_r. assumption.
    + apply (Hexec p rev exec [] w2 w' (inr (Some r0, fbk))); auto.
      rewrite app_nil_r. assumption.
    + apply (Hexec p rev exec [] w2 w' (inr (None, fbk))); auto.
      rewrite app_nil_r. assumption.
    + apply (Hexec p rev exec rest w2 w3 (inr (None, fbk))); auto.
      left. intros ->. apply execute_plan_events in He.
      destruct He as (_ & _ & _ & _ & _ & Hnil).
      destruct (Hnil eq_refl). discriminate.
Qed.

End Planning.

(* ================================================================= *)
(** ** Properties of the step loop *)

Lemma count_attempt_events spec prior new :
  forall fb,
    count is_execute (attempt_events spec prior fb new) = List.length new /\
    count is_review_step (attempt_events spec prior fb new) = List.length new.
Proof.
  induction new as [| r new IH]; intros fb; [split; reflexivity |].
  destruct (IH (get (review r) "feedback")) as [IH1 IH2].
  unfold count in *. simpl. rewrite IH1, IH2. split; reflexivity.
Qed.

Lemma firstn_seq_last k :
  forall start n x,
    final (firstn (S k) (seq start n)) = Some x ->
    (S k <= n)%nat -> x = (start + k)%nat.
Proof.
  induction k as [| k IH]; intros start n x H Hle.
  - destruct n as [| n]; [lia |]. simpl in H. inversion H. lia.
  - destruct n as [| n]; [lia |].
    change (firstn (S (S k)) (seq start (S n)))
      with (start :: firstn (S k) (seq (S start) n)) in H.
    assert (E : final (start :: firstn (S k) (seq (S start) n))
                = final (firstn (S k) (seq (S start) n))).
    { apply (final_app_nonnil [start]). destruct n; [lia | discriminate]. }
    rewrite E in H. apply IH in H; lia.
Qed.

Lemma final_map {A B} (f : A -> B) (l : list A) :
  final (map f l) = option_map f (final l).
Proof.
  destruct l as [| y l']; [reflexivity |].
  destruct (@exists_last _ (y :: l')) as (l0 & z & ->); [discriminate |].
  rewrite map_app. simpl. rewrite !final_snoc. reflexivity.
Qed.

Section StepLoop.
Variable W : Type.
Variable self : AutomationWorkflow W.
Variable t : Task.

(** One pass through the body of the steps loop, from the outcome of the
    attempts on the step. *)
Lemma steps_loop_step raw later index all approved w copied sa ap rr w1 d1 :
  py_dict raw = inr copied ->
  attempts_loop self t (prepared copied index)
    (seq 1 (Z.to_nat (max_step_iterations self))) approved JNull [] w
    = (inr (sa, ap, rr), w1, d1) ->
  steps_loop self t (raw :: later) index all approved w =
    if rr then (inr (ReplanRequested (last_feedback sa)), w1, d1)
    else if approved_last sa then
      let '(res, w2, d2) := steps_loop self t later (S index) (all ++ sa) ap w1 in
      (res, w2, d1 ++ d2)
    else (inl (step_not_approved self (get (prepared copied index) "id")), w1, d1).
Proof.
  intros Hc Ha. cbn [steps_loop]. rewrite Hc. unfold prepared in Ha.
  unfold bind at 1. unfold lift at 1. unfold bind at 1. rewrite Ha.
  destruct rr.
  - unfold ret. rewrite !app_nil_r. reflexivity.
  - destruct (approved_last sa); simpl.
    + destruct (steps_loop self t later (S index) (all ++ sa) ap w1) as [[res w2] d2].
      reflexivity.
    + unfold bind, lift, raise. rewrite getitem_setdefault. rewrite !app_nil_r.
      reflexivity.
Qed.

End StepLoop.

Lemma approved_last_retried sa : Forall retried sa -> approved_last sa = false.
Proof.
  intros H. unfold approved_last. destruct (final sa) as [r |] eqn:E; [| reflexivity].
  apply final_In in E. rewrite Forall_forall in H. apply H in E. apply E.
Qed.

Lemma contexts_ok_split pre :
  forall prior s given fb resp post,
    contexts_ok prior (pre ++ ExecuteStep s given fb resp :: post) ->
    given = prior ++ filter approved_result (created pre).
Proof.
  intros prior s given fb resp post H.
  apply contexts_ok_app in H. destruct H as [_ H]. simpl in H. tauto.
Qed.

Section StepClaims.
Variable W : Type.
Variable self : AutomationWorkflow W.
Variable t : Task.

(** C4.  A step whose [max_step_iterations] attempts are all reviewed with
    [approved] false and [requires_replan] false: the attempts loop used all
    its attempts, and the engine raises the [RuntimeError] whose message
    names the step's id; nothing is emitted after the attempts of that step,
    so no later step is executed. *)
Theorem step_attempts_exhausted raw later index all approved w copied sa ap rr w1 d1 :
  py_dict raw = inr copied ->
  attempts_loop self t (prepared copied index)
    (seq 1 (Z.to_nat (max_step_iterations self))) approved JNull [] w
    = (inr (sa, ap, rr), w1, d1) ->
  Forall retried sa ->
  List.length sa = Z.to_nat (max_step_iterations self) /\
  count is_execute d1 = Z.to_nat (max_step_iterations self) /\
  count is_review_step d1 = Z.to_nat (max_step_iterations self) /\
  steps_loop self t (raw :: later) index all approved w =
    (inl (Raise RuntimeError
            ("Step '" ++ str (get (prepared copied index) "id")
             ++ "' was not approved after "
             ++ str_of_Z (max_step_iterations self) ++ " attempts.")%string),
     w1, d1).
Proof.
  intros Hc Ha Hall.
  rewrite (steps_loop_step W self t _ later index all _ _ _ _ _ _ _ _ Hc Ha).
  pose proof (getitem_setdefault copied "id"
                (JStr ("step-" ++ str_of_nat index)%string)) as Hid.
  apply (attempts_loop_ok W self t _ _ Hid) in Ha.
  destruct Ha as (new & Hsa & Hend & Hd & _ & _). simpl in Hsa. subst new.
  destruct (count_attempt_events (prepared copied index) approved sa JNull) as [C1 C2].
  unfold prepared in *. rewrite <- Hd in C1, C2.
  assert (Hlen : List.length sa = Z.to_nat (max_step_iterations self) /\ rr = false).
  { destruct Hend as [init r Hi Hr | init r Hi Hr Hp | new' Hn Hl].
    - apply Forall_app in Hall. destruct Hall as [_ Hr'].
      inversion Hr' as [| ? ? [Hx _] _]; subst. congruence.
    - apply Forall_app in Hall. destruct Hall as [_ Hr'].
      inversion Hr' as [| ? ? [_ Hx] _]; subst. congruence.
    - rewrite length_seq in Hl. auto. }
  destruct Hlen as [Hlen ->].
  rewrite (approved_last_retried _ Hall).
  repeat split; try congruence.
Qed.

(** C6.  A step approved on attempt [a]: [a] is within the bound, the step
    took exactly [a] [execute_step] and [a] [review_step] calls, of the [a]
    results only the approved one joins the approved results, and every
    [execute_step] of the steps that follow is given the earlier approved
    results, this one, and the approved results created since. *)
Theorem step_approved_on_attempt raw later index all approved w copied sa ap rr w1 d1 r :
  py_dict raw = inr copied ->
  attempts_loop self t (prepared copied index)
    (seq 1 (Z.to_nat (max_step_iterations self))) approved JNull [] w
    = (inr (sa, ap, rr), w1, d1) ->
  final sa = Some r ->
  truthy (get (review r) "approved") = true ->
  (1 <= attempt r <= Z.to_nat (max_step_iterations self))%nat /\
  List.length sa = attempt r /\
  count is_execute d1 = attempt r /\
  count is_review_step d1 = attempt r /\
  filter approved_result sa = [r] /\
  ap = approved ++ [r] /\
  forall res w2 d2,
    steps_loop self t later (S index) (all ++ sa) (approved ++ [r]) w1 = (res, w2, d2) ->
    steps_loop self t (raw :: later) index all approved w = (res, w2, d1 ++ d2) /\
    forall pre s given fb resp post,
      d2 = pre ++ ExecuteStep s given fb resp :: post ->
      given = approved ++ [r] ++ filter approved_result (created pre).
Proof.
  intros Hc Ha Hfin Happ.
  pose proof (steps_loop_step W self t _ later index all _ _ _ _ _ _ _ _ Hc Ha) as Hstep.
  pose proof (getitem_setdefault copied "id"
                (JStr ("step-" ++ str_of_nat index)%string)) as Hid.
  apply (attempts_loop_ok W self t _ _ Hid) in Ha.
  destruct Ha as (new & Hsa & Hend & Hd & Hatt & _). simpl in Hsa. subst new.
  destruct (count_attempt_events (prepared copied index) approved sa JNull) as [C1 C2].
  unfold prepared in *. rewrite <- Hd in C1, C2.
  destruct Hend as [init r' Hi Hr | init r' Hi Hr Hp | new' Hn Hl].
  - rewrite final_snoc in Hfin. inversion Hfin; subst r'. clear Hfin.
    assert (Hle : (List.length (init ++ [r]) <= Z.to_nat (max_step_iterations self))%nat).
    { apply (f_equal (@List.length nat)) in Hatt.
      rewrite length_map, length_firstn, length_seq in Hatt. lia. }
    assert (Hnum : attempt r = List.length (init ++ [r])).
    { rewrite length_app in *. simpl in *.
      replace (List.length init + 1)%nat with (S (List.length init)) in * by lia.
      assert (E : final (map attempt (init ++ [r])) = Some (attempt r)).
      { rewrite final_map, final_snoc. reflexivity. }
      rewrite Hatt in E. apply firstn_seq_last in E; lia. }
    assert (Hflt : filter approved_result (init ++ [r]) = [r]).
    { rewrite filter_app, (filter_retried _ Hi). simpl.
      unfold approved_result. rewrite Happ. reflexivity. }
    repeat split; auto; try congruence.
    + rewrite Hnum, length_app. simpl. lia.
    + unfold approved_last in Hstep. rewrite final_snoc, Happ in Hstep.
      rewrite Hstep, H. reflexivity.
    + intros pre s given fb resp post ->.
      apply steps_loop_events in H. destruct H as (_ & Hctx & _).
      apply contexts_ok_split in Hctx. rewrite Hctx, <- app_assoc. reflexivity.
  - rewrite final_snoc in Hfin. inversion Hfin; subst. congruence.
  - apply final_In in Hfin. rewrite Forall_forall in Hn.
    destruct (Hn _ Hfin). congruence.
Qed.

(** C7.  A step review with both [approved] and [requires_replan] true: its
    result is the last one of the step, the loop leaves without asking for
    a re-plan, the result joins the approved results, and the steps loop
    goes on with the steps that follow. *)
Theorem approval_overrides_replan raw later index all approved w copied sa ap rr w1 d1 r :
  py_dict raw = inr copied ->
  attempts_loop self t (prepared copied index)
    (seq 1 (Z.to_nat (max_step_iterations self))) approved JNull [] w
    = (inr (sa, ap, rr), w1, d1) ->
  In r sa ->
  truthy (get (review r) "approved") = true ->
  truthy (get (review r) "requires_replan") = true ->
  final sa = Some r /\
  rr = false /\
  ap = approved ++ [r] /\
  steps_loop self t (raw :: later) index all approved w =
    (let '(res, w2, d2) :=
       steps_loop self t later (S index) (all ++ sa) (approved ++ [r]) w1 in
     (res, w2, d1 ++ d2)).
Proof.
  intros Hc Ha Hin Happ Hrep.
  pose proof (steps_loop_step W self t _ later index all _ _ _ _ _ _ _ _ Hc Ha) as Hstep.
  pose proof (getitem_setdefault copied "id"
                (JStr ("step-" ++ str_of_nat index)%string)) as Hid.
  apply (attempts_loop_ok W self t _ _ Hid) in Ha.
  destruct Ha as (new & Hsa & Hend & _). simpl in Hsa. subst new.
  assert (Hnot : forall init, Forall retried init -> ~ In r init).
  { intros init Hi Hr. rewrite Forall_forall in Hi. destruct (Hi _ Hr). congruence. }
  destruct Hend as [init r' Hi Hr | init r' Hi Hr Hp | new' Hn Hl].
  - apply in_app_or in Hin. destruct Hin as [Hin | [<- | []]];
      [exfalso; eapply Hnot; eassumption |].
    unfold approved_last in Hstep. rewrite final_snoc, Happ in Hstep.
    rewrite final_snoc. auto.
  - apply in_app_or in Hin. destruct Hin as [Hin | [<- | []]];
      [exfalso; eapply Hnot; eassumption | congruence].
  - exfalso. eapply Hnot; eassumption.
Qed.

End StepClaims.

(* ================================================================= *)
(** ** Properties of [_execute_plan] *)

Lemma count_quiet d :
  Forall quiet d -> count is_execute d = 0%nat /\ count is_review_step d = 0%nat.
Proof.
  induction 1 as [| e d (_ & _ & He & Hr & _) _ [IH1 IH2]]; [split; reflexivity |].
  unfold count in *. simpl. rewrite He, Hr. auto.
Qed.

Section PlanClaims.
Variable W : Type.
Variable self : AutomationWorkflow W.
Variable t : Task.

Lemma finalise_ok p all w summary w1 cs w2 ds text w3 :
  final_review (reviewer self) t p all w = (inr summary, w1) ->
  synthesis self t p all summary w1 = (inr cs, w2, ds) ->
  to_markdown {| task := t; plan := p; step_results := all;
                 reviewer_summary := summary; coordinator_summary := cs |}
    = inr text ->
  write_text self (safe_name (name t) ++ ".md")%string text w2 = (inr tt, w3) ->
  finalise self t p all w =
    (inr (Some {| task := t; plan := p; step_results := all;
                  reviewer_summary := summary; coordinator_summary := cs |}, JNull),
     w3,
     FinalReview p all (inr summary)
     :: ds ++ [WriteReport (safe_name (name t) ++ ".md")%string text]).
Proof.
  intros Hf Hs Hm Hw. unfold finalise, _write_report, bind, call, lift, emit, ret.
  rewrite Hf, Hs. cbn [task name]. rewrite Hm, Hw. simpl.
  rewrite ?app_nil_r. reflexivity.
Qed.

(** A result comes out of [finalise] only when the final review and the
    synthesis answered, the report rendered and the file was written. *)
Lemma finalise_returned_only p all w r fb w' d :
  finalise self t p all w = (inr (r, fb), w', d) ->
  exists summary w1 cs w2 ds text,
    final_review (reviewer self) t p all w = (inr summary, w1) /\
    synthesis self t p all summary w1 = (inr cs, w2, ds) /\
    to_markdown {| task := t; plan := p; step_results := all;
                   reviewer_summary := summary; coordinator_summary := cs |}
      = inr text /\
    write_text self (safe_name (name t) ++ ".md")%string text w2 = (inr tt, w').
Proof.
  unfold finalise, _write_report, bind, call, lift, emit, ret.
  destruct (final_review (reviewer self) t p all w) as [[msg | summary] w1] eqn:Hf;
    [discriminate |].
  destruct (synthesis self t p all summary w1) as [[[e | cs] w2] ds] eqn:Hs;
    [discriminate |].
  cbn [task name].
  destruct (to_markdown _) as [e | text] eqn:Hm; [discriminate |].
  destruct (write_text self _ text w2) as [[what | []] w3] eqn:Hw; [discriminate |].
  intros H. inversion H. subst. exists summary, w1, cs, w2, ds, text.
  repeat split; assumption.
Qed.

Lemma execute_empty_plan p w :
  py_or (get p "steps") (JList []) = JList [] ->
  _execute_plan self t p w = finalise self t p [] w.
Proof.
  intros H. unfold _execute_plan. rewrite H. simpl.
  unfold bind, ret. destruct (finalise self t p [] w) as [[res w'] d]. reflexivity.
Qed.

(** C8.  An approved plan whose [steps] is the empty list.  Whatever the
    collaborators and the file system do, [_execute_plan] first calls
    [final_review] with an empty history, makes no [execute_step] or
    [review_step] call, never asks for a re-plan, and raises only what a
    call that leaves the engine raised or the [TypeError] of a report that
    does not render; a result it returns has no step results.  It returns
    that result when, and only when, the final review and the synthesis
    answer, the report renders and the report file is written. *)
Theorem empty_plan_completes p w :
  get p "steps" = JList [] ->
  (forall res w' d,
     _execute_plan self t p w = (res, w', d) ->
     (exists resp tail, d = FinalReview p [] resp :: tail) /\
     count is_execute d = 0%nat /\
     count is_review_step d = 0%nat /\
     (forall r fb, res = inr (r, fb) ->
        exists result, r = Some result /\ plan result = p /\ step_results result = []) /\
     (forall e, res = inl e ->
        (exists msg, e = Collaborator msg) \/ e = Builtin TypeError)) /\
  (forall summary w1 cs w2 ds text w3,
     final_review (reviewer self) t p [] w = (inr summary, w1) ->
     synthesis self t p [] summary w1 = (inr cs, w2, ds) ->
     to_markdown {| task := t; plan := p; step_results := [];
                    reviewer_summary := summary; coordinator_summary := cs |}
       = inr text ->
     write_text self (safe_name (name t) ++ ".md")%string text w2 = (inr tt, w3) ->
     _execute_plan self t p w =
       (inr (Some {| task := t; plan := p; step_results := [];
                     reviewer_summary := summary; coordinator_summary := cs |}, JNull),
        w3,
        FinalReview p [] (inr summary)
        :: ds ++ [WriteReport (safe_name (name t) ++ ".md")%string text])) /\
  (forall r fb w' d,
     _execute_plan self t p w = (inr (r, fb), w', d) ->
     exists summary w1 cs w2 ds text,
       final_review (reviewer self) t p [] w = (inr summary, w1) /\
       synthesis self t p [] summary w1 = (inr cs, w2, ds) /\
       to_markdown {| task := t; plan := p; step_results := [];
                      reviewer_summary := summary; coordinator_summary := cs |}
         = inr text /\
       write_text self (safe_name (name t) ++ ".md")%string text w2 = (inr tt, w')).
Proof.
  intros Hsteps.
  assert (Hor : py_or (get p "steps") (JList []) = JList []).
  { unfold py_or. rewrite Hsteps. reflexivity. }
  split; [| split].
  - intros res w' d H. rewrite (execute_empty_plan _ _ Hor) in H.
    apply finalise_events in H. destruct H as (Hhead & Hq & Hres & Herr).
    destruct (count_quiet _ Hq) as [C1 C2].
    repeat split; auto.
    intros r fb E. destruct (Hres _ _ E) as (result & -> & _ & _ & Hp & Hs). eauto.
  - intros summary w1 cs w2 ds text w3 Hf Hs Hm Hw.
    rewrite (execute_empty_plan _ _ Hor). eapply finalise_ok; eassumption.
  - intros r fb w' d H. rewrite (execute_empty_plan _ _ Hor) in H.
    eapply finalise_returned_only. exact H.
Qed.

(** C9.  [_execute_plan] raises the error about the [steps] array exactly
    when the plan has a [steps] value that is truthy and not a list; with
    [steps] absent, [None] or the empty list it goes to the final review
    with an empty history. *)
Theorem malformed_steps_iff p w res w' d :
  _execute_plan self t p w = (res, w', d) ->
  (res = inl (Raise ValueError "Planner response must contain a 'steps' array.")
   <-> exists v, lookup p (KStr "steps") = Some v /\ truthy v = true /\
                 forall items, v <> JList items) /\
  (lookup p (KStr "steps") = None \/ lookup p (KStr "steps") = Some JNull \/
   lookup p (KStr "steps") = Some (JList []) ->
   exists resp tail, d = FinalReview p [] resp :: tail).
Proof.
  intros H. split; [split |].
  - (* raised: the value is there, truthy and no list *)
    intros ->. apply execute_plan_events in H.
    destruct H as (_ & _ & _ & _ & Herr & _).
    destruct (Herr _ eq_refl) as [Hstep | [_ Hno]].
    + exfalso. unfold step_error, step_not_approved in Hstep.
      destruct Hstep as [(msg & E) | [(cls & E) | (id & E)]]; discriminate.
    + unfold py_or, get, get_default in Hno.
      destruct (lookup p (KStr "steps")) as [v |] eqn:Ev.
      * exists v. destruct (truthy v) eqn:Tv.
        -- repeat split; auto.
        -- exfalso. apply (Hno []). reflexivity.
      * exfalso. apply (Hno []). reflexivity.
  - (* the value is there, truthy and no list: raised *)
    intros (v & Ev & Tv & Hno).
    unfold _execute_plan, py_or, get, get_default in H. rewrite Ev, Tv in H.
    destruct v; try (run_inv H; reflexivity).
    exfalso. eapply Hno. reflexivity.
  - intros Hcase.
    assert (Hor : py_or (get p "steps") (JList []) = JList []).
    { unfold py_or, get, get_default.
      destruct Hcase as [-> | [-> | ->]]; reflexivity. }
    rewrite (execute_empty_plan _ _ Hor) in H.
    apply finalise_events in H. tauto.
Qed.

End PlanClaims.

(* ================================================================= *)
(** ** Properties of [run_task] *)

Lemma count_planning_chain rounds :
  forall fb prev n,
    count is_propose (planning_chain fb prev n rounds) = List.length rounds /\
    count is_review_plan (planning_chain fb prev n rounds) = List.length rounds.
Proof.
  induction rounds as [| [p rev] rounds IH]; intros fb prev n; [split; reflexivity |].
  destruct (IH (get rev "feedback") (Some p) (S n)) as [IH1 IH2].
  unfold count in *. simpl. rewrite IH1, IH2. split; reflexivity.
Qed.

Section RunClaims.
Variable W : Type.
Variable self : AutomationWorkflow W.
Variable t : Task.

(** [run_task] is the kickoff, when a coordinator is set, and the loop. *)
Lemma run_task_inv w res w' d :
  run_task self t w = (res, w', d) ->
  (exists msg, res = inl (Collaborator msg) /\ d = [Kickoff (inl msg)]) \/
  (exists kick w1 loop,
      d = kick ++ loop /\
      Forall (fun e => is_kickoff e = true) kick /\
      plan_loop self t (Z.to_nat (max_plan_iterations self)) 0 JNull None w1
        = (res, w', loop)).
Proof.
  unfold run_task. intros H. run_inv H.
  - left. destruct (coordinator self) as [c |].
    + run_step; [| run_step; discriminate]. run_step.
      repeat match goal with
             | H : inl _ = inl _ |- _ => inversion H; clear H; subst
             end.
      eauto.
    + run_step; discriminate.
  - right. destruct (coordinator self) as [c |].
    + run_step. run_step. run_step. rewrite app_nil_r.
      eexists _, _, _. split; [reflexivity |]. split; [| eassumption].
      repeat constructor.
    + run_step. eexists [], _, _. split; [reflexivity |]. split; [constructor | eassumption].
Qed.

(** C2, as the code has it.  The result [run_task] returns holds the step
    results of one execution only, that of the plan it returns: the run's
    events end with the approving review of that plan followed by events of
    its execution, and [step_results] is, in order, one result per
    [review_step] answer of that execution, approved or not.  Attempts made
    before, under plans that a re-plan signal abandoned, are not in it. *)
Theorem returned_history_is_last_execution w r w' d :
  run_task self t w = (inr r, w', d) ->
  exists pre n rev exec,
    d = pre ++ ReviewPlan (plan r) n (inr rev) :: exec /\
    truthy (get rev "approved") = true /\
    Forall (fun e => execution_event e = true) exec /\
    step_results r = created exec.
Proof.
  intros H. apply run_task_inv in H.
  destruct H as [(msg & E & _) | (kick & w1 & loop & -> & _ & H)]; [discriminate |].
  apply plan_loop_result in H.
  destruct H as (pre & n & rev & exec & -> & Happ & Hex & _ & Hs).
  exists (kick ++ pre), n, rev, exec. rewrite <- app_assoc. auto.
Qed.

(** C3, as the code has it.  After a step review that is not approved and
    requires a re-plan the engine makes no further [execute_step] or
    [review_step] call for that plan: either the run stops there on a
    bound, or the very next call is [propose_plan], given the plan that
    was being executed as [previous_plan] and, as feedback, the review's
    feedback when that is truthy and the fixed text otherwise. *)
Theorem replan_returns_to_planning w res w' d pre spec out n rev post :
  run_task self t w = (res, w', d) ->
  d = pre ++ ReviewStep spec out n (inr rev) :: post ->
  truthy (get rev "approved") = false ->
  truthy (get rev "requires_replan") = true ->
  (post = [] /\
   (res = inl (replans_exceeded t) \/ res = inl (plan_attempts_exceeded t))) \/
  (exists p resp rest,
      last_reviewed pre = Some p /\
      post = ProposePlan
               (py_or (get rev "feedback")
                      (JStr "Reviewer requested a re-plan during execution."))
               (Some p) resp :: rest).
Proof.
  intros H Hd Happ Hrep.
  assert (Hsig : replan_signal (ReviewStep spec out n (inr rev))
                 = Some (get rev "feedback")).
  { simpl. rewrite Happ, Hrep. reflexivity. }
  apply run_task_inv in H.
  destruct H as [(msg & _ & ->) | (kick & w1 & loop & -> & Hk & H)].
  { destruct pre as [| ? [| ]]; discriminate. }
  destruct (plan_loop_signals W self t _ _ _ _ _ _ _ _ None H) as (Hans & Hfin).
  assert (Hfree : signal_free kick).
  { eapply Forall_impl; [| exact Hk]. intros e He. destruct e; try discriminate.
    reflexivity. }
  assert (Hnr : Forall (fun e => is_review_plan e = false) kick).
  { eapply Forall_impl; [| exact Hk]. intros e He. destruct e; try discriminate.
    reflexivity. }
  pose proof (signals_answered_app kick None loop Hfree Hnr Hans) as Hall.
  rewrite Hd in Hall.
  destruct (signals_answered_split _ _ _ _ _ Hall Hsig) as [-> | Hnext].
  - left. split; [reflexivity |].
    apply (Hfin (ReviewStep spec out n (inr rev)) (get rev "feedback")); [| exact Hsig].
    destruct loop as [| x loop'].
    + rewrite app_nil_r in Hd. rewrite Hd in Hfree.
      apply Forall_app in Hfree. destruct Hfree as [_ Hf].
      inversion Hf; subst. congruence.
    + rewrite <- (final_app_nonnil kick (x :: loop')) by discriminate.
      rewrite Hd. apply final_snoc.
  - right. exact Hnext.
Qed.

(** C5.  A run whose plan reviews, up to the first execution, reject [k]
    plans and then approve one: [k] is below [max_plan_iterations], and up
    to there the engine made exactly [k + 1] [propose_plan] and [k + 1]
    [review_plan] calls, in rounds; the first proposal is given no feedback
    and no previous plan, each later one the plan and the review feedback
    of the round before. *)
Theorem rejected_plans_chain w res w' d k :
  run_task self t w = (res, w', d) ->
  map plan_approved (plan_reviews (planning_prefix d)) = repeat false k ++ [true] ->
  Z.of_nat k < max_plan_iterations self /\
  count is_propose (planning_prefix d) = S k /\
  count is_review_plan (planning_prefix d) = S k /\
  exists kick rounds,
    Forall (fun e => is_kickoff e = true) kick /\
    List.length rounds = S k /\
    planning_prefix d = kick ++ planning_chain JNull None 1 rounds.
Proof.
  intros H Hk. apply run_task_inv in H.
  destruct H as [(msg & _ & ->) | (kick & w1 & loop & -> & Hkick & H)].
  { destruct k; discriminate. }
  assert (Hpre : planning_prefix (kick ++ loop) = kick ++ planning_prefix loop).
  { clear - Hkick. induction Hkick as [| e kick He _ IH]; [reflexivity |].
    simpl. destruct e; try discriminate. simpl. rewrite IH. reflexivity. }
  assert (Hrev : forall x, plan_reviews (kick ++ x) = plan_reviews x).
  { clear - Hkick. intros x. induction Hkick as [| e kick He _ IH]; [reflexivity |].
    destruct e; try discriminate. exact IH. }
  assert (Hcnt : forall f x, (forall r, f (Kickoff r) = false) ->
                             count f (kick ++ x) = count f x).
  { clear - Hkick. intros f x Hf. induction Hkick as [| e kick He _ IH]; [reflexivity |].
    destruct e; try discriminate. unfold count in *. simpl. rewrite Hf. exact IH. }
  rewrite Hpre, Hrev in Hk.
  destruct (plan_loop_planning W self t _ _ _ _ _ _ _ _ _ H Hk) as (Hlt & rounds & Hlen & Hch).
  rewrite Hpre, Hch.
  destruct (count_planning_chain rounds JNull None 1) as [C1 C2].
  rewrite !Hcnt by reflexivity. rewrite C1, C2, Hlen.
  repeat split; [lia | eauto].
Qed.

End RunClaims.

(* ================================================================= *)
(** ** The report *)

(** C10.  [to_markdown] takes the result record and nothing else: equal
    records give the same text, or the same exception, and what
    [_write_report] hands to the file system for them is the same in any
    two worlds and under any two engines: it fails to render in both or in
    neither.  Whether the file is then written is the world's. *)
Theorem report_is_a_function_of_the_result (W : Type)
    (self1 self2 : AutomationWorkflow W) (r1 r2 : TaskRunResult) (w1 w2 : W) :
  r1 = r2 ->
  to_markdown r1 = to_markdown r2 /\
  (fst (fst (_write_report self1 r1 w1)) = inl (Builtin TypeError) <->
   fst (fst (_write_report self2 r2 w2)) = inl (Builtin TypeError)) /\
  snd (_write_report self1 r1 w1) = snd (_write_report self2 r2 w2).
Proof.
  intros ->. split; [reflexivity |].
  unfold _write_report, bind, lift, call.
  destruct (to_markdown r2) as [e | text]; simpl; [split; [tauto | reflexivity] |].
  destruct (write_text self1 _ text w1) as [[m1 | u1] w1'];
    destruct (write_text self2 _ text w2) as [[m2 | u2] w2']; simpl;
    (split; [split; discriminate | reflexivity]).
Qed.

(* ================================================================= *)
(** ** The re-plan bound *)

Section ReplanBound.
Variable W : Type.
Variable self : AutomationWorkflow W.
Variable t : Task.

(** With [max_replan_attempts] at 1 or more, [run_task] never raises the
    error of the re-plan bound, however many re-plan signals a run has. *)
Lemma replan_bound_unreachable w res w' d :
  1 <= max_replan_attempts self ->
  run_task self t w = (res, w', d) ->
  res <> inl (replans_exceeded t).
Proof.
  intros Hmax H. apply run_task_inv in H.
  destruct H as [(msg & -> & _) | (kick & w1 & loop & _ & _ & H)]; [discriminate |].
  eapply plan_loop_replans; eassumption.
Qed.

End ReplanBound.

Import Scripted.

(** C1, on the code.  With [max_plan_iterations = 4] and
    [max_replan_attempts = 2], a run in which every plan is approved and the
    step review asks for a re-plan three times before it approves: three
    re-plan signals, more than the bound, and [run_task] returns a result. *)
Theorem replan_bound_not_enforced :
  exists r w' d,
    run_task (workflow 4 3 2) demo
             (script 4 (repeat approve 4) [replan; replan; replan; approve])
      = (inr r, w', d) /\
    List.length (replan_signals d) = 3%nat /\
    max_replan_attempts (workflow 4 3 2) = 2.
Proof.
  eexists _, _, _. split; [vm_compute; reflexivity |].
  split; reflexivity.
Qed.

(** C2 as stated fails: a run with one re-plan creates two step results and
    returns one. *)
Lemma abandoned_attempts_not_returned :
  ~ full_history_returned (workflow 3 3 2) demo
      (script 2 (repeat approve 2) [replan; approve]).
Proof.
  intros H.
  assert (E := H _ _ _ ltac:(vm_compute; reflexivity)).
  vm_compute in E. discriminate E.
Qed.

(** C3 as stated fails: after a re-plan review without feedback the next
    proposal is given the fixed text, not the review's (absent) feedback. *)
Lemma silent_replan_not_forwarded :
  ~ replan_feedback_forwarded (workflow 3 3 2) demo
      (script 2 (repeat approve 2) [silent_replan; approve]).
Proof.
  intros H.
  set (x := run_task (workflow 3 3 2) demo
              (script 2 (repeat approve 2) [silent_replan; approve])).
  assert (E : exists prev resp rest,
             skipn 4 (snd x)
             = ProposePlan (get silent_replan "feedback") prev resp :: rest).
  { apply (H (fst (fst x)) (snd (fst x)) (snd x) (firstn 3 (snd x))
             [(KStr "id", JStr "step-1")] done 1%nat silent_replan);
      vm_compute; reflexivity. }
  destruct E as (prev & resp & rest & E). vm_compute in E. discriminate E.
Qed.

(** C8 as stated fails: a plan without steps whose [plan_overview] is
    [None] gets its final review, and then its report does not render: the
    run ends with the [TypeError] of [str.join], though every agent
    answered and the file could be written. *)
Lemma untitled_empty_plan_raises :
  ~ empty_plan_returns (workflow 3 3 2) demo untitled_plan (script 1 [] []).
Proof.
  intros H.
  destruct (H eq_refl) as (r & fb & w' & d & resp & tail & E & _).
  vm_compute in E. discriminate E.
Qed.

(* ================================================================= *)
(** ** Instances *)

(** The end-to-end run: one plan, approved; one step, approved at once. *)
Example end_to_end :
  exists r w' d text,
    run_task (workflow 3 3 2) demo (script 1 [approve] [approve]) = (inr r, w', d) /\
    plan r = one_step_plan /\
    map attempt (step_results r) = [1%nat] /\
    final d = Some (WriteReport "t1.md" text).
Proof.
  eexists _, _, _, _. split; [vm_compute; reflexivity |].
  split; [reflexivity |]. split; reflexivity.
Qed.

(** With the default bounds three re-plan signals end the run on the bound
    of the plan attempts, not on that of the re-plans. *)
Example default_bounds_three_replans :
  fst (fst (run_task (workflow 3 3 2) demo
              (script 3 (repeat approve 3) [replan; replan; replan])))
  = inl (Raise RuntimeError "Exceeded maximum plan attempts for task 't1'.").
Proof. vm_compute. reflexivity. Qed.

(** A report that cannot be written: the run ends with what [write_text]
    raised, after the final review and the call that hands over the
    report. *)
Example unwritable_report_raises :
  exists w' text,
    _execute_plan (unwritable 3 3 2) demo empty_plan (script 1 [] [])
    = (inl (Collaborator "File name too long"), w',
       [FinalReview empty_plan [] (inr ok); WriteReport "t1.md" text]).
Proof. eexists _, _. vm_compute. reflexivity. Qed.

Lemma returned_history_is_last_execution_witness :
  exists r w' d,
    run_task (workflow 3 3 2) demo (script 2 (repeat approve 2) [replan; approve])
      = (inr r, w', d) /\
    exists pre n rev exec,
      d = pre ++ ReviewPlan (plan r) n (inr rev) :: exec /\
      truthy (get rev "approved") = true /\
      Forall (fun e => execution_event e = true) exec /\
      step_results r = created exec.
Proof.
  eexists _, _, _. split; [vm_compute; reflexivity |].
  eapply (returned_history_is_last_execution world (workflow 3 3 2) demo
            (script 2 (repeat approve 2) [replan; approve])).
  vm_compute. reflexivity.
Defined.

Lemma replan_returns_to_planning_witness :
  exists res w' d,
    run_task (workflow 3 3 2) demo (script 2 (repeat approve 2) [replan; approve])
      = (res, w', d) /\
    exists p resp rest,
      last_reviewed (firstn 3 d) = Some p /\
      skipn 4 d = ProposePlan (JStr "start over") (Some p) resp :: rest.
Proof.
  eexists _, _, _. split; [vm_compute; reflexivity |].
  edestruct (replan_returns_to_planning world (workflow 3 3 2) demo
               (script 2 (repeat approve 2) [replan; approve]))
    as [[E _] | H];
    [vm_compute; reflexivity
    | instantiate (6 := [_; _; _]); vm_compute; reflexivity
    | reflexivity | reflexivity | discriminate E | exact H].
Defined.

Lemma step_attempts_exhausted_witness :
  exists w1 d1,
    steps_loop (workflow 3 3 2) demo [JDict [(KStr "id", JStr "step-1")]] 1 [] []
               (script 3 [] [retry; retry; retry])
    = (inl (Raise RuntimeError "Step 'step-1' was not approved after 3 attempts."),
       w1, d1).
Proof.
  eexists _, _.
  refine (proj2 (proj2 (proj2
            (step_attempts_exhausted world (workflow 3 3 2) demo
               (JDict [(KStr "id", JStr "step-1")]) [] 1 [] []
               (script 3 [] [retry; retry; retry]) [(KStr "id", JStr "step-1")]
               _ _ _ _ _ _ _ _)))).
  - reflexivity.
  - vm_compute. reflexivity.
  - repeat constructor.
Defined.

Lemma rejected_plans_chain_witness :
  exists res w' d,
    run_task (workflow 3 3 2) demo (script 2 [reject; approve] [approve])
      = (res, w', d) /\
    count is_propose (planning_prefix d) = 2%nat /\
    count is_review_plan (planning_prefix d) = 2%nat.
Proof.
  eexists _, _, _. split; [vm_compute; reflexivity |].
  edestruct (rejected_plans_chain world (workflow 3 3 2) demo
               (script 2 [reject; approve] [approve]))
    as (_ & C1 & C2 & _);
    [vm_compute; reflexivity
    | instantiate (1 := 1%nat); vm_compute; reflexivity
    | split; [exact C1 | exact C2]].
Defined.

Lemma step_approved_on_attempt_witness :
  exists sa ap rr w1 d1 r,
    attempts_loop (workflow 3 3 2) demo (prepared [(KStr "id", JStr "step-1")] 1)
                  (seq 1 3) [] JNull [] (script 2 [] [retry; approve])
      = (inr (sa, ap, rr), w1, d1) /\
    final sa = Some r /\
    attempt r = 2%nat /\
    count is_execute d1 = 2%nat /\
    count is_review_step d1 = 2%nat /\
    ap = [r].
Proof.
  eexists _, _, _, _, _, _.
  split; [vm_compute; reflexivity |]. split; [reflexivity |].
  edestruct (step_approved_on_attempt world (workflow 3 3 2) demo
               (JDict [(KStr "id", JStr "step-1")]) [] 1 [] []
               (script 2 [] [retry; approve]) [(KStr "id", JStr "step-1")])
    as (_ & Hl & C1 & C2 & _ & Hap & _);
    [reflexivity | vm_compute; reflexivity | reflexivity | reflexivity |].
  split; [reflexivity |]. split; [exact C1 |]. split; [exact C2 | exact Hap].
Defined.

Lemma approval_overrides_replan_witness :
  exists sa ap rr w1 d1 r,
    attempts_loop (workflow 3 3 2) demo (prepared [(KStr "id", JStr "step-1")] 1)
                  (seq 1 3) [] JNull [] (script 1 [] [approve_and_replan])
      = (inr (sa, ap, rr), w1, d1) /\
    final sa = Some r /\ rr = false /\ ap = [r].
Proof.
  eexists _, _, _, _, _, _.
  split; [vm_compute; reflexivity |].
  edestruct (approval_overrides_replan world (workflow 3 3 2) demo
               (JDict [(KStr "id", JStr "step-1")]) [] 1 [] []
               (script 1 [] [approve_and_replan]) [(KStr "id", JStr "step-1")])
    as (Hf & Hr & Hap & _);
    [reflexivity | vm_compute; reflexivity | left; reflexivity
    | reflexivity | reflexivity |].
  split; [exact Hf |]. split; [exact Hr | exact Hap].
Defined.

Lemma empty_plan_completes_witness :
  exists r w' d,
    _execute_plan (workflow 3 3 2) demo empty_plan (script 1 [] [])
      = (inr (Some r, JNull), w', d) /\
    step_results r = [] /\
    count is_execute d = 0%nat.
Proof.
  eexists _, _, _.
  split;
    [eapply (proj1 (proj2 (empty_plan_completes world (workflow 3 3 2) demo empty_plan
                             (script 1 [] []) eq_refl)));
     vm_compute; reflexivity
    | split; reflexivity].
Defined.

Lemma malformed_steps_iff_witness :
  fst (fst (_execute_plan (workflow 3 3 2) demo bad_plan (script 1 [] [])))
  = inl (Raise ValueError "Planner response must contain a 'steps' array.").
Proof.
  refine (proj2 (proj1
            (malformed_steps_iff world (workflow 3 3 2) demo bad_plan
               (script 1 [] []) _
               (snd (fst (_execute_plan (workflow 3 3 2) demo bad_plan
                            (script 1 [] []))))
               (snd (_execute_plan (workflow 3 3 2) demo bad_plan (script 1 [] [])))
               _)) _).
  - destruct (_execute_plan (workflow 3 3 2) demo bad_plan (script 1 [] []))
      as [[res w'] d].
    reflexivity.
  - exists (JStr "step one").
    split; [reflexivity |]. split; [reflexivity | discriminate].
Defined.

Lemma report_is_a_function_of_the_result_witness :
  to_markdown {| task := demo; plan := empty_plan; step_results := [];
                 reviewer_summary := ok; coordinator_summary := None |}
  = to_markdown {| task := demo; plan := empty_plan; step_results := [];
                   reviewer_summary := ok; coordinator_summary := None |}.
Proof.
  exact (proj1 (report_is_a_function_of_the_result world (workflow 3 3 2)
                  (workflow 3 3 2) _ _ (script 1 [] []) (script 1 [] []) eq_refl)).
Defined.

(* ================================================================= *)
(** ** The structured form is lossless *)

Lemma optional_text_inj o1 o2 : optional_text o1 = optional_text o2 -> o1 = o2.
Proof. destruct o1, o2; simpl; congruence. Qed.

Lemma map_JStr_inj l1 :
  forall l2, map JStr l1 = map JStr l2 -> l1 = l2.
Proof.
  induction l1 as [| x l1 IH]; intros [| y l2] H; simpl in H; try discriminate;
    [reflexivity |].
  inversion H. f_equal; auto.
Qed.

Lemma map_step_result_inj l1 :
  forall l2,
    map (fun x => JDict (step_result_to_dict x)) l1
    = map (fun x => JDict (step_result_to_dict x)) l2 ->
    l1 = l2.
Proof.
  induction l1 as [| x l1 IH]; intros [| y l2] H; cbn [map] in H; try discriminate;
    [reflexivity |].
  injection H as Hid Hn Hs Ho Hr Hl.
  apply Nat2Z.inj in Hn. apply IH in Hl.
  destruct x, y. simpl in *. subst. reflexivity.
Qed.

(** X1.  [TaskRunResult.to_dict] keeps everything but one distinction: two
    results have the same structured form exactly when they agree on the
    plan, the step results (every field of every attempt), the reviewer
    and coordinator summaries and the task's name, objective, context and
    deliverable, and their constraints agree once [None] is read as the
    empty list. *)
Theorem to_dict_loses_only_constraints r1 r2 :
  to_dict r1 = to_dict r2 <->
  plan r1 = plan r2 /\
  step_results r1 = step_results r2 /\
  reviewer_summary r1 = reviewer_summary r2 /\
  coordinator_summary r1 = coordinator_summary r2 /\
  name (task r1) = name (task r2) /\
  objective (task r1) = objective (task r2) /\
  context (task r1) = context (task r2) /\
  deliverable (task r1) = deliverable (task r2) /\
  constraints_or_nil (task r1) = constraints_or_nil (task r2).
Proof.
  unfold to_dict, task_to_dict. split.
  - intros H. inversion H.
    repeat split; auto using optional_text_inj, map_JStr_inj, map_step_result_inj.
  - intros (-> & -> & -> & -> & -> & -> & -> & -> & ->). reflexivity.
Qed.
(* ================================================================= *)
(** ** Batches of tasks *)

Section Batches.
Variable W : Type.
Variable self : AutomationWorkflow W.

Lemma run_task_task t w r w' d :
  run_task self t w = (inr r, w', d) -> task r = t.
Proof.
  intros H. apply run_task_inv in H.
  destruct H as [(msg & E & _) | (kick & w1 & loop & _ & _ & H)]; [discriminate |].
  apply plan_loop_result in H. destruct H as (? & ? & ? & ? & _ & _ & _ & Ht & _).
  exact Ht.
Qed.

Lemma run_all_cons t later w :
  run_all self (t :: later) w =
    match run_task self t w with
    | (inl e, w1, d1) => (inl e, w1, d1)
    | (inr r, w1, d1) =>
        match run_all self later w1 with
        | (inl e, w2, d2) => (inl e, w2, d1 ++ d2)
        | (inr rs, w2, d2) => (inr (r :: rs), w2, d1 ++ d2)
        end
    end.
Proof.
  cbn [run_all]. unfold bind at 1.
  destruct (run_task self t w) as [[[e | r] w1] d1]; [reflexivity |].
  unfold bind, ret.
  destruct (run_all self later w1) as [[[e | rs] w2] d2]; [reflexivity |].
  rewrite app_nil_r. reflexivity.
Qed.

(** X2.  A batch that returns has one result per task, in the order of the
    tasks, each result being that of its task. *)
Theorem run_all_results_follow_tasks tasks :
  forall w rs w' d,
    run_all self tasks w = (inr rs, w', d) -> map task rs = tasks.
Proof.
  induction tasks as [| t later IH]; intros w rs w' d H.
  - simpl in H. run_inv H. reflexivity.
  - rewrite run_all_cons in H.
    destruct (run_task self t w) as [[[e | r] w1] d1] eqn:Ht; [discriminate |].
    destruct (run_all self later w1) as [[[e | rs'] w2] d2] eqn:Hl; [discriminate |].
    inversion H; subst. simpl.
    rewrite (run_task_task _ _ _ _ _ Ht), (IH _ _ _ _ Hl). reflexivity.
Qed.

(** X3.  A batch stops at the first task that fails: the exception of that
    task leaves [run_all], the results of the tasks before it are not
    returned, and no call is made for any task after it. *)
Theorem run_all_stops_at_first_failure before :
  forall t after w rs w1 d1 e w2 d2,
    run_all self before w = (inr rs, w1, d1) ->
    run_task self t w1 = (inl e, w2, d2) ->
    run_all self (before ++ t :: after) w = (inl e, w2, d1 ++ d2).
Proof.
  induction before as [| b before IH]; intros t after w rs w1 d1 e w2 d2 Hb Ht.
  - simpl in Hb. run_inv Hb. simpl app. rewrite run_all_cons, Ht. reflexivity.
  - rewrite run_all_cons in Hb. simpl app. rewrite run_all_cons.
    destruct (run_task self b w) as [[[e0 | r] w0] d0]; [discriminate |].
    destruct (run_all self before w0) as [[[e0 | rs'] w3] d3] eqn:Hrest; [discriminate |].
    inversion Hb; subst.
    rewrite (IH _ after _ _ _ _ _ _ _ Hrest Ht). rewrite app_assoc. reflexivity.
Qed.

End Batches.
(* ================================================================= *)
(** ** The report file name *)

Lemma safe_char_slug c : slug_char (safe_char c) = true.
Proof. destruct c as [[] [] [] [] [] [] [] []]; reflexivity. Qed.

Lemma safe_char_fixes_slug c : slug_char c = true -> safe_char c = c.
Proof. destruct c as [[] [] [] [] [] [] [] []]; intros H; try reflexivity; discriminate H. Qed.

Lemma safe_char_lower c : safe_char (lower c) = safe_char c.
Proof. destruct c as [[] [] [] [] [] [] [] []]; reflexivity. Qed.

Lemma final_rev {A} (l : list A) : final (rev l) = hd_error l.
Proof.
  destruct l as [| x l]; [reflexivity |]. simpl. apply final_snoc.
Qed.

Lemma hd_error_rev {A} (l : list A) : hd_error (rev l) = final l.
Proof. rewrite <- final_rev, rev_involutive. reflexivity. Qed.

Lemma lstrip_head c l : hd_error (lstrip c l) <> Some c.
Proof.
  induction l as [| x l IH]; simpl; [discriminate |].
  destruct (Ascii.eqb x c) eqn:E; [exact IH |].
  simpl. intros H. inversion H; subst. rewrite Ascii.eqb_refl in E. discriminate.
Qed.

Lemma lstrip_suffix c l : exists pre, l = pre ++ lstrip c l.
Proof.
  induction l as [| x l (pre & IH)]; simpl; [exists []; reflexivity |].
  destruct (Ascii.eqb x c).
  - exists (x :: pre). simpl. f_equal. exact IH.
  - exists []. reflexivity.
Qed.

Lemma lstrip_id c l : hd_error l <> Some c -> lstrip c l = l.
Proof.
  destruct l as [| x l]; simpl; [reflexivity |].
  destruct (Ascii.eqb x c) eqn:E; [| reflexivity].
  apply Ascii.eqb_eq in E. subst. congruence.
Qed.

Lemma lstrip_Forall (P : ascii -> Prop) c l : Forall P l -> Forall P (lstrip c l).
Proof.
  destruct (lstrip_suffix c l) as (pre & E). intros H. rewrite E in H.
  apply Forall_app in H. tauto.
Qed.

Lemma strip_Forall (P : ascii -> Prop) c l : Forall P l -> Forall P (strip c l).
Proof.
  intros H. unfold strip. apply Forall_rev, lstrip_Forall, Forall_rev, lstrip_Forall.
  exact H.
Qed.

Lemma strip_last c l : final (strip c l) <> Some c.
Proof. unfold strip. rewrite final_rev. apply lstrip_head. Qed.

Lemma strip_head c l : hd_error (strip c l) <> Some c.
Proof.
  unfold strip. rewrite hd_error_rev.
  destruct (lstrip_suffix c (rev (lstrip c l))) as (pre & E).
  destruct (lstrip c (rev (lstrip c l))) as [| x rest] eqn:El; [discriminate |].
  rewrite <- (final_app_nonnil pre (x :: rest)) by discriminate.
  rewrite <- E, final_rev. apply lstrip_head.
Qed.

Lemma strip_id c l :
  hd_error l <> Some c -> final l <> Some c -> strip c l = l.
Proof.
  intros Hh Hf. unfold strip. rewrite (lstrip_id c l Hh).
  rewrite lstrip_id by (rewrite hd_error_rev; exact Hf).
  apply rev_involutive.
Qed.

(** The file name from the characters that are left after [strip]. *)
Lemma safe_name_cases n :
  let kept := strip "-" (map safe_char (list_ascii_of_string n)) in
  (kept = [] /\ safe_name n = "task") \/
  (kept <> [] /\ list_ascii_of_string (safe_name n) = kept).
Proof.
  unfold safe_name.
  destruct (strip "-" (map safe_char (list_ascii_of_string n))) as [| x kept] eqn:E.
  - left. split; reflexivity.
  - right. split; [discriminate |].
    cbn [string_of_list_ascii String.eqb].
    change (String x (string_of_list_ascii kept))
      with (string_of_list_ascii (x :: kept)).
    apply list_ascii_of_string_of_list_ascii.
Qed.

Lemma safe_name_characters n :
  list_ascii_of_string (safe_name n) <> [] /\
  forallb slug_char (list_ascii_of_string (safe_name n)) = true /\
  hd_error (list_ascii_of_string (safe_name n)) <> Some "-"%char /\
  final (list_ascii_of_string (safe_name n)) <> Some "-"%char.
Proof.
  destruct (safe_name_cases n) as [[_ ->] | [Hne ->]].
  - repeat split; discriminate.
  - repeat split.
    + exact Hne.
    + apply forallb_forall. apply Forall_forall. apply strip_Forall.
      apply Forall_forall. intros c Hc. apply in_map_iff in Hc.
      destruct Hc as (c0 & <- & _). apply safe_char_slug.
    + apply strip_head.
    + apply strip_last.
Qed.

(** X4.  The report file name of an ASCII task name is never empty, holds
    only the characters a to z, 0 to 9, [-] and [_], and neither starts nor
    ends with [-]. *)
Theorem safe_name_shape n :
  ascii_text n ->
  list_ascii_of_string (safe_name n) <> [] /\
  forallb slug_char (list_ascii_of_string (safe_name n)) = true /\
  hd_error (list_ascii_of_string (safe_name n)) <> Some "-"%char /\
  final (list_ascii_of_string (safe_name n)) <> Some "-"%char.
Proof. intros _. apply safe_name_characters. Qed.

Lemma map_safe_char_fixes l :
  forallb slug_char l = true -> map safe_char l = l.
Proof.
  induction l as [| c l IH]; simpl; [reflexivity |].
  intros H. apply andb_true_iff in H. destruct H as [Hc Hl].
  rewrite (safe_char_fixes_slug c Hc), (IH Hl). reflexivity.
Qed.

(** X5.  Naming is idempotent: the file name of a file name is that file
    name, so a task called after its own report gets the same file. *)
Theorem safe_name_idempotent n :
  ascii_text n -> safe_name (safe_name n) = safe_name n.
Proof.
  intros _. destruct (safe_name_characters n) as (Hne & Hall & Hh & Hl).
  unfold safe_name at 1.
  rewrite (map_safe_char_fixes _ Hall), (strip_id _ _ Hh Hl).
  rewrite string_of_list_ascii_of_string.
  destruct (safe_name n) as [| c s] eqn:E; [exfalso; apply Hne; reflexivity |].
  reflexivity.
Qed.

Lemma safe_name_of_kept n1 n2 :
  map safe_char (list_ascii_of_string n1) = map safe_char (list_ascii_of_string n2) ->
  safe_name n1 = safe_name n2.
Proof. unfold safe_name. intros ->. reflexivity. Qed.

(** X6.  Task names that differ only in the case of their letters get the
    same report file: the later report replaces the earlier one. *)
Theorem safe_name_ignores_case n1 n2 :
  ascii_text n1 -> ascii_text n2 ->
  lower_text n1 = lower_text n2 ->
  safe_name n1 = safe_name n2.
Proof.
  intros _ _ H. apply safe_name_of_kept.
  apply (f_equal list_ascii_of_string) in H. unfold lower_text in H.
  rewrite !list_ascii_of_string_of_list_ascii in H.
  apply (f_equal (map safe_char)) in H. rewrite !map_map in H.
  erewrite map_ext in H by (intros; apply safe_char_lower).
  symmetry in H.
  erewrite map_ext in H by (intros; apply safe_char_lower).
  symmetry. exact H.
Qed.

Lemma lstrip_all c l : Forall (fun x => x = c) l -> lstrip c l = [].
Proof.
  induction 1 as [| x l -> _ IH]; simpl; [reflexivity |].
  rewrite Ascii.eqb_refl. exact IH.
Qed.

(** X7.  A task name without a letter, a digit or an underscore, the empty
    name included, gets the file name [task]. *)
Theorem safe_name_fallback n :
  ascii_text n ->
  forallb (fun c => negb (is_alnum c || Ascii.eqb c "_"))
          (list_ascii_of_string n) = true ->
  safe_name n = "task".
Proof.
  intros _ H.
  assert (E : strip "-" (map safe_char (list_ascii_of_string n)) = []).
  { unfold strip.
    rewrite (lstrip_all "-" (map safe_char (list_ascii_of_string n)));
      [reflexivity |].
    apply Forall_forall. intros c Hc. apply in_map_iff in Hc.
    destruct Hc as (c0 & <- & Hin).
    rewrite forallb_forall in H. specialize (H _ Hin).
    unfold safe_char. apply negb_true_iff in H.
    apply orb_false_iff in H. destruct H as [H1 H2].
    rewrite H1, H2. simpl.
    destruct (Ascii.eqb c0 "-") eqn:E; [| reflexivity].
    apply Ascii.eqb_eq in E. subst. reflexivity. }
  unfold safe_name. rewrite E. reflexivity.
Qed.
(* ================================================================= *)
(** ** Rendering the report *)

Lemma join_items_text items :
  forallb is_text items = true -> exists ss, join_items items = inr ss.
Proof.
  induction items as [| v items IH]; simpl; [eauto |].
  intros H. apply andb_true_iff in H. destruct H as [Hv Hi].
  destruct v; try discriminate. destruct (IH Hi) as (ss & ->). eauto.
Qed.

Lemma join_items_not_text items :
  forallb is_text items = false -> join_items items = inl (Builtin TypeError).
Proof.
  induction items as [| v items IH]; simpl; [discriminate |].
  intros H. destruct v; try reflexivity. simpl in H. rewrite (IH H). reflexivity.
Qed.

Lemma is_text_get_default d k fallback :
  is_text (get_default d k (JStr fallback)) = text_or_absent d k.
Proof.
  unfold get_default, text_or_absent. destruct (lookup d (KStr k)); reflexivity.
Qed.

Lemma forallb_is_text_map {A} (f : A -> string) (l : list A) :
  forallb is_text (map (fun x => JStr (f x)) l) = true.
Proof. induction l; simpl; auto. Qed.

Lemma forallb_is_text_timeline (l : list StepResult) :
  forallb is_text (map timeline_line l) = true.
Proof. induction l; simpl; auto. Qed.

Lemma forallb_is_text_coordinator (l : list string) :
  forallb is_text
    (flat_map (fun c => [JStr "## Coordinator Summary"; JStr c; JStr ""]) l) = true.
Proof. induction l; simpl; auto. Qed.

Lemma markdown_lines_text r :
  forallb is_text (markdown_lines r)
  = (text_or_absent (plan r) "plan_overview"
     && text_or_absent (reviewer_summary r) "feedback")%bool.
Proof.
  unfold markdown_lines. rewrite !forallb_app.
  rewrite !(forallb_is_text_map (fun c => _)).
  rewrite forallb_is_text_coordinator.
  destruct (step_results r) as [| x l].
  - simpl. rewrite !is_text_get_default. rewrite !andb_true_r. reflexivity.
  - rewrite forallb_is_text_timeline. simpl. rewrite !is_text_get_default.
    rewrite !andb_true_r. reflexivity.
Qed.

Lemma to_markdown_renders_iff r :
  text_or_absent (plan r) "plan_overview" = true /\
  text_or_absent (reviewer_summary r) "feedback" = true <->
  exists text, to_markdown r = inr text.
Proof.
  unfold to_markdown, join.
  pose proof (markdown_lines_text r) as E.
  destruct (forallb is_text (markdown_lines r)) eqn:F.
  - destruct (join_items_text _ F) as (ss & ->).
    symmetry in E. apply andb_true_iff in E. split; eauto.
  - rewrite (join_items_not_text _ F). split.
    + intros [H1 H2]. rewrite H1, H2 in E. discriminate.
    + intros (text & H). discriminate.
Qed.

(** X8.  [to_markdown] returns a text exactly when the plan's
    [plan_overview] and the final review's [feedback] are each a [str] or
    absent; when one of them is there and is no [str] ([None] included) it
    raises [TypeError]. *)
Theorem to_markdown_renders r :
  (text_or_absent (plan r) "plan_overview" = true /\
   text_or_absent (reviewer_summary r) "feedback" = true <->
   exists text, to_markdown r = inr text) /\
  (to_markdown r = inl (Builtin TypeError) \/ exists text, to_markdown r = inr text).
Proof.
  split; [apply to_markdown_renders_iff |].
  unfold to_markdown, join.
  destruct (forallb is_text (markdown_lines r)) eqn:F.
  - destruct (join_items_text _ F) as (ss & ->). eauto.
  - rewrite (join_items_not_text _ F). left. reflexivity.
Qed.

Section Written.
Variable W : Type.
Variable self : AutomationWorkflow W.
Variable t : Task.

Lemma finalise_written p all w r fb w' d :
  finalise self t p all w = (inr (Some r, fb), w', d) ->
  exists text,
    to_markdown r = inr text /\
    final d = Some (WriteReport (safe_name (name t) ++ ".md")%string text).
Proof.
  unfold finalise. intros H. run_step. run_step. run_step. run_step.
  match goal with H : _write_report _ _ _ = _ |- _ =>
    apply write_report_events in H; destruct H as (_ & _ & Hw) end.
  destruct (Hw _ eq_refl) as (text & Hm & _ & ->).
  run_step.
  match goal with E : inr _ = inr _ |- _ => inversion E; subst end.
  exists text. split; [exact Hm |].
  rewrite app_nil_r.
  match goal with |- final (?a ++ ?b ++ [?x]) = _ =>
    rewrite (app_assoc a b [x]); apply final_snoc end.
Qed.

Lemma execute_plan_written p w r fb w' d :
  _execute_plan self t p w = (inr (Some r, fb), w', d) ->
  exists text,
    to_markdown r = inr text /\
    final d = Some (WriteReport (safe_name (name t) ++ ".md")%string text).
Proof.
  unfold _execute_plan. intros H.
  destruct (py_or (get p "steps") (JList [])); try (run_inv H; fail).
  run_inv H. destruct a as [all | feedback]; [| run_step].
  apply finalise_written in Hrun0. destruct Hrun0 as (text & Hm & Hf).
  exists text. split; [exact Hm |].
  destruct d1 as [| x d1]; [discriminate |].
  rewrite final_app_nonnil by discriminate. exact Hf.
Qed.

Lemma plan_loop_written remaining :
  forall pa fb prev w r w' d,
    plan_loop self t remaining pa fb prev w = (inr r, w', d) ->
    exists text,
      to_markdown r = inr text /\
      final d = Some (WriteReport (safe_name (name t) ++ ".md")%string text).
Proof.
  induction remaining as [| remaining IH]; intros pa fb prev w r w' d H.
  - simpl in H. run_inv H.
  - destruct (plan_loop_iteration _ _ _ _ _ _ _ _ _ _ _ H)
      as [msg _ E | p msg _ E | p rev w2 rest Happ Hrest ->
          | p rev w2 e exec Happ Hexec E _ | p rev w2 r0 fbk exec Happ Hexec E ->
          | p rev w2 fbk exec Happ Hexec Hmax E _
          | p rev w2 fbk exec w3 rest Happ Hexec Hmax Hrest ->];
      try discriminate.
    + destruct (IH _ _ _ _ _ _ _ Hrest) as (text & Hm & Hf).
      exists text. split; [exact Hm |].
      destruct rest as [| x rest]; [discriminate |].
      rewrite <- Hf. apply (final_app_nonnil [_; _] (x :: rest)). discriminate.
    + inversion E; subst r0.
      destruct (execute_plan_written _ _ _ _ _ _ Hexec) as (text & Hm & Hf).
      exists text. split; [exact Hm |].
      destruct exec as [| x exec]; [discriminate |].
      rewrite <- Hf. apply (final_app_nonnil [_; _] (x :: exec)). discriminate.
    + destruct (IH _ _ _ _ _ _ _ Hrest) as (text & Hm & Hf).
      exists text. split; [exact Hm |].
      destruct rest as [| x rest]; [discriminate |].
      rewrite <- Hf.
      apply (final_app_nonnil (_ :: _ :: exec) (x :: rest)). discriminate.
Qed.

(** X9.  Every result [run_task] returns has been rendered and written: the
    last thing the run did is write the report of that result under the file
    name of the task, and so the plan it holds has a [plan_overview] that
    is a [str] or absent, and its final review a [feedback] that is a [str]
    or absent.  A run whose approved plan has any other [plan_overview]
    cannot return. *)
Theorem run_task_report_written w r w' d :
  run_task self t w = (inr r, w', d) ->
  exists text,
    to_markdown r = inr text /\
    final d = Some (WriteReport (safe_name (name t) ++ ".md")%string text) /\
    text_or_absent (plan r) "plan_overview" = true /\
    text_or_absent (reviewer_summary r) "feedback" = true.
Proof.
  intros H. apply run_task_inv in H.
  destruct H as [(msg & E & _) | (kick & w1 & loop & -> & _ & H)]; [discriminate |].
  destruct (plan_loop_written _ _ _ _ _ _ _ _ H) as (text & Hm & Hf).
  exists text. split; [exact Hm |]. split.
  - destruct loop as [| x loop]; [discriminate |].
    rewrite final_app_nonnil by discriminate. exact Hf.
  - assert (Hx : exists text, to_markdown r = inr text) by eauto.
    apply (proj2 (to_markdown_renders_iff r)) in Hx. exact Hx.
Qed.

End Written.
(* ================================================================= *)
(** ** Dictionaries keyed by text: lookup after update *)

Section StrDictFacts.
Context {V : Type}.

Lemma strdict_lookup_set_same k (v : V) d :
  StrDict.lookup k (StrDict.set k v d) = Some v.
Proof.
  induction d as [| [k' v'] d IH]; simpl.
  - rewrite String.eqb_refl. reflexivity.
  - destruct (String.eqb k k') eqn:E; simpl; rewrite E; [reflexivity | exact IH].
Qed.

Lemma strdict_lookup_set_other k k' (v : V) d :
  k <> k' -> StrDict.lookup k' (StrDict.set k v d) = StrDict.lookup k' d.
Proof.
  intros Hne. induction d as [| [k0 v0] d IH]; simpl.
  - destruct (String.eqb k' k) eqn:E; [| reflexivity].
    apply String.eqb_eq in E. congruence.
  - destruct (String.eqb k k0) eqn:E; simpl.
    + apply String.eqb_eq in E. subst k0.
      destruct (String.eqb k' k) eqn:E'; [| reflexivity].
      apply String.eqb_eq in E'. congruence.
    + rewrite IH. reflexivity.
Qed.

Lemma strdict_set_fresh k (v : V) d :
  StrDict.lookup k d = None -> StrDict.set k v d = d ++ [(k, v)].
Proof.
  induction d as [| [k' v'] d IH]; simpl; [reflexivity |].
  destruct (String.eqb k k'); [discriminate |].
  intros H. rewrite (IH H). reflexivity.
Qed.

Lemma strdict_mem_false k (d : StrDict.t V) :
  StrDict.mem k d = false <-> StrDict.lookup k d = None.
Proof.
  unfold StrDict.mem. destruct (StrDict.lookup k d); split; congruence.
Qed.

Lemma strdict_lookup_In k (v : V) d : StrDict.lookup k d = Some v -> In (k, v) d.
Proof.
  induction d as [| [k' v'] d IH]; simpl; [discriminate |].
  destruct (String.eqb k k') eqn:E.
  - apply String.eqb_eq in E. intros H. inversion H. subst. left. reflexivity.
  - intros H. right. exact (IH H).
Qed.

Lemma strdict_lookup_None_keys k (d : StrDict.t V) :
  StrDict.lookup k d = None <-> ~ In k (StrDict.keys d).
Proof.
  induction d as [| [k' v'] d IH]; simpl.
  - split; [intros _ [] | reflexivity].
  - destruct (String.eqb k k') eqn:E.
    + apply String.eqb_eq in E. subst. split; [discriminate |].
      intros H. exfalso. apply H. left. reflexivity.
    + apply String.eqb_neq in E. rewrite IH. split.
      * intros H [H1 | H1]; [congruence | exact (H H1)].
      * intros H H1. apply H. right. exact H1.
Qed.

Lemma strdict_In_lookup k (v : V) d :
  NoDup (StrDict.keys d) -> In (k, v) d -> StrDict.lookup k d = Some v.
Proof.
  induction d as [| [k' v'] d IH]; simpl; [intros _ [] |].
  intros Hnd [H | H].
  - inversion H. subst. rewrite String.eqb_refl. reflexivity.
  - inversion Hnd as [| ? ? Hnotin Hnd']. subst.
    destruct (String.eqb k k') eqn:E.
    + apply String.eqb_eq in E. subst. exfalso. apply Hnotin.
      apply (in_map fst) in H. exact H.
    + exact (IH Hnd' H).
Qed.

End StrDictFacts.

(* ================================================================= *)
(** ** The skill registry *)

Section SkillFacts.
Variable W : Type.

Lemma register_inv name f d (self self' : Skills.SkillRegistry W) :
  Skills.register name f d self = inr self' ->
  exists sig,
    StrDict.lookup name self = None /\
    Skills.inspect_signature f = inr sig /\
    self' = self ++ [(name, {| Skills.name := name; Skills.description := d;
                               Skills.function := f; Skills.signature := sig |})].
Proof.
  unfold Skills.register. destruct (StrDict.mem name self) eqn:M; [discriminate |].
  apply strdict_mem_false in M.
  destruct (Skills.inspect_signature f) as [raised | sig]; [discriminate |].
  intros H. inversion H. exists sig. split; [exact M |]. split; [reflexivity |].
  apply strdict_set_fresh. exact M.
Qed.

Lemma lookup_app_fresh {V} k k' (v : V) d :
  StrDict.lookup k' (d ++ [(k, v)]) =
    match StrDict.lookup k' d with
    | Some x => Some x
    | None => if String.eqb k' k then Some v else None
    end.
Proof.
  induction d as [| [k0 v0] d IH]; simpl; [reflexivity |].
  destruct (String.eqb k' k0); [reflexivity | exact IH].
Qed.

(** X10.  A registered skill is never replaced.  Registering its name again
    raises [ValueError], whatever the function given, and a registration
    that returns leaves it as it was. *)
Theorem register_never_replaces (self : Skills.SkillRegistry W) m s :
  StrDict.lookup m self = Some s ->
  forall name f d,
    (name = m ->
     Skills.register name f d self
     = inl (Raise ValueError ("A skill named '" ++ m ++ "' is already registered."))) /\
    (forall self', Skills.register name f d self = inr self' ->
                   StrDict.lookup m self' = Some s /\
                   Skills.len self' = S (Skills.len self)).
Proof.
  intros Hm name f d. split.
  - intros ->. unfold Skills.register, StrDict.mem. rewrite Hm. reflexivity.
  - intros self' H. apply register_inv in H. destruct H as (sig & _ & _ & ->).
    split.
    + rewrite lookup_app_fresh, Hm. reflexivity.
    + unfold Skills.len. rewrite length_app. simpl. lia.
Qed.

(** X11.  What is registered is what runs: after [register(name, f, ...)]
    returns, [execute(name, **kwargs)] calls [f] with these keyword
    arguments and returns its result as text, a [str] as it is and anything
    else through [repr]; what [f] raises leaves [execute].  The keywords
    must not be called [self] or [name]. *)
Theorem registered_skill_runs name f d (self self' : Skills.SkillRegistry W) kwargs w :
  Skills.register name f d self = inr self' ->
  Skills.has_keyword "self" kwargs = false ->
  Skills.has_keyword "name" kwargs = false ->
  Skills.execute (JStr name) kwargs self' w =
    match Skills.call_with f kwargs w with
    | (inl raised, w') => (inl (Collaborator raised), w')
    | (inr v, w') => (inr (str v), w')
    end.
Proof.
  intros H Hs Hn. apply register_inv in H. destruct H as (sig & Hnone & _ & ->).
  unfold Skills.execute. rewrite Hs, Hn. simpl.
  rewrite lookup_app_fresh, Hnone, String.eqb_refl.
  unfold Skills.skill_execute. rewrite Hs. simpl.
  destruct (Skills.call_with f kwargs w) as [[raised | v] w']; [reflexivity |].
  destruct v; reflexivity.
Qed.

Lemma string_append_assoc (a b c : string) :
  ((a ++ b) ++ c = a ++ (b ++ c))%string.
Proof. induction a as [| x a IH]; simpl; [reflexivity | rewrite IH; reflexivity]. Qed.

Lemma concat_snoc sep (l : list string) x :
  l <> [] ->
  String.concat sep (l ++ [x]) = (String.concat sep l ++ sep ++ x)%string.
Proof.
  induction l as [| a l IH]; [congruence |]. intros _.
  destruct l as [| b l].
  - reflexivity.
  - change (String.concat sep ((a :: b :: l) ++ [x]))
      with (a ++ sep ++ String.concat sep ((b :: l) ++ [x]))%string.
    rewrite IH by discriminate.
    change (String.concat sep (a :: b :: l))
      with (a ++ sep ++ String.concat sep (b :: l))%string.
    rewrite !string_append_assoc. reflexivity.
Qed.

(** X12.  The prompt fragment lists the skills in the order of their
    registration: a registration that returns adds one line, [- name
    signature: description], after the lines there were, and that line
    replaces the notice of an empty registry. *)
Theorem prompt_fragment_grows name f d (self self' : Skills.SkillRegistry W) :
  Skills.register name f d self = inr self' ->
  exists sig,
    Skills.inspect_signature f = inr sig /\
    Skills.to_prompt_fragment self' =
      match self with
      | [] => ("- " ++ name ++ sig ++ ": " ++ d)%string
      | _ => (Skills.to_prompt_fragment self ++ newline
              ++ "- " ++ name ++ sig ++ ": " ++ d)%string
      end.
Proof.
  intros H. apply register_inv in H. destruct H as (sig & _ & Hsig & ->).
  exists sig. split; [exact Hsig |].
  destruct self as [| kv self]; [reflexivity |].
  unfold Skills.to_prompt_fragment.
  change ((kv :: self) ++ [(name, {| Skills.name := name; Skills.description := d;
                                     Skills.function := f; Skills.signature := sig |})])
    with (kv :: (self ++ [(name, {| Skills.name := name; Skills.description := d;
                                     Skills.function := f; Skills.signature := sig |})])).
  cbv iota.
  change (kv :: (self ++ [(name, {| Skills.name := name; Skills.description := d;
                                     Skills.function := f; Skills.signature := sig |})]))
    with ((kv :: self) ++ [(name, {| Skills.name := name; Skills.description := d;
                                     Skills.function := f; Skills.signature := sig |})]).
  unfold StrDict.values. rewrite map_app, map_app. simpl map at 3.
  rewrite concat_snoc by discriminate. reflexivity.
Qed.

Lemma NoDup_snoc {A} (l : list A) x : NoDup l -> ~ In x l -> NoDup (l ++ [x]).
Proof.
  induction l as [| a l IH]; simpl; intros Hnd Hx.
  - constructor; [intros [] | constructor].
  - inversion Hnd as [| ? ? Ha Hl]. subst. constructor.
    + intros Hin. apply in_app_or in Hin. destruct Hin as [Hin | [-> | []]].
      * exact (Ha Hin).
      * apply Hx. left. reflexivity.
    + apply IH; [exact Hl |]. intros Hin. apply Hx. right. exact Hin.
Qed.

Lemma built_names (self : Skills.SkillRegistry W) :
  Skills.built self ->
  NoDup (StrDict.keys self) /\
  Forall (fun kv => Skills.name (snd kv) = fst kv) self.
Proof.
  induction 1 as [| self name f d self' _ [IHn IHf] Hreg].
  - split; constructor.
  - apply register_inv in Hreg. destruct Hreg as (sig & Hnone & _ & ->). split.
    + unfold StrDict.keys. rewrite map_app. simpl.
      apply NoDup_snoc; [exact IHn |].
      apply strdict_lookup_None_keys. exact Hnone.
    + apply Forall_app. split; [exact IHf |]. repeat constructor.
Qed.

(** X13.  In a registry built by registrations, every skill that
    [list_skills] yields, and so every line of the prompt fragment, can be
    executed under the name it shows: the registry holds that very skill
    under its [name]. *)
Theorem listed_skill_is_registered (self : Skills.SkillRegistry W) skill :
  Skills.built self ->
  In skill (Skills.list_skills self) ->
  StrDict.lookup (Skills.name skill) self = Some skill.
Proof.
  intros Hb Hin. destruct (built_names self Hb) as [Hnd Hf].
  unfold Skills.list_skills, StrDict.values in Hin.
  apply in_map_iff in Hin. destruct Hin as ([k s] & Hs & Hin). simpl in Hs. subst s.
  rewrite Forall_forall in Hf. pose proof (Hf _ Hin) as Hk. simpl in Hk.
  rewrite Hk. apply strdict_In_lookup; assumption.
Qed.

End SkillFacts.
(* ================================================================= *)
(** ** Conversations *)

Lemma strdict_lookup_remove {V} k k' (d : StrDict.t V) :
  StrDict.lookup k' (StrDict.remove k d)
  = if String.eqb k k' then None else StrDict.lookup k' d.
Proof.
  unfold StrDict.remove. induction d as [| [k0 v0] d IH]; simpl.
  - destruct (String.eqb k k'); reflexivity.
  - destruct (String.eqb k k0) eqn:E0; simpl.
    + apply String.eqb_eq in E0. subst k0. rewrite IH.
      destruct (String.eqb k k') eqn:E; [reflexivity |].
      rewrite String.eqb_sym, E. reflexivity.
    + rewrite IH. destruct (String.eqb k' k0) eqn:E1; [| reflexivity].
      apply String.eqb_eq in E1. subst k0. rewrite E0. reflexivity.
Qed.

Section AgentFacts.
Variable W : Type.
Variable float : Type.

Lemma history_of_stored id (self : Agent.Agent W float) :
  Agent.history_of id self =
    match StrDict.lookup id (Agent.chat_histories self) with
    | Some history => history
    | None => [Agent.system_message self]
    end.
Proof.
  unfold Agent.history_of, Agent.get_chat_history.
  destruct (StrDict.lookup id (Agent.chat_histories self)); reflexivity.
Qed.

Lemma get_lookup_same id (self : Agent.Agent W float) :
  StrDict.lookup id (Agent.chat_histories (snd (Agent.get_chat_history id self)))
  = Some (Agent.history_of id self).
Proof.
  rewrite history_of_stored. unfold Agent.get_chat_history.
  destruct (StrDict.lookup id (Agent.chat_histories self)) eqn:E; simpl.
  - exact E.
  - apply strdict_lookup_set_same.
Qed.

Lemma get_lookup_other id id' (self : Agent.Agent W float) :
  id <> id' ->
  StrDict.lookup id' (Agent.chat_histories (snd (Agent.get_chat_history id self)))
  = StrDict.lookup id' (Agent.chat_histories self).
Proof.
  intros Hne. unfold Agent.get_chat_history.
  destruct (StrDict.lookup id (Agent.chat_histories self)) eqn:E; simpl.
  - reflexivity.
  - apply strdict_lookup_set_other. exact Hne.
Qed.

Lemma get_fixed id (self : Agent.Agent W float) :
  Agent.system_prompt (snd (Agent.get_chat_history id self)) = Agent.system_prompt self /\
  Agent.client (snd (Agent.get_chat_history id self)) = Agent.client self /\
  Agent.model (snd (Agent.get_chat_history id self)) = Agent.model self.
Proof.
  unfold Agent.get_chat_history.
  destruct (StrDict.lookup id (Agent.chat_histories self)); simpl; auto.
Qed.

Lemma append_lookup_same id role content (self : Agent.Agent W float) :
  StrDict.lookup id (Agent.chat_histories (Agent.append_to_history id role content self))
  = Some (Agent.history_of id self
          ++ [ {| Agent.role := role; Agent.content := content |} ]).
Proof.
  unfold Agent.append_to_history, Agent.history_of.
  destruct (Agent.get_chat_history id self) as [history self1]. simpl.
  apply strdict_lookup_set_same.
Qed.

Lemma append_lookup_other id id' role content (self : Agent.Agent W float) :
  id <> id' ->
  StrDict.lookup id' (Agent.chat_histories (Agent.append_to_history id role content self))
  = StrDict.lookup id' (Agent.chat_histories self).
Proof.
  intros Hne. unfold Agent.append_to_history.
  pose proof (get_lookup_other id id' self Hne) as H.
  destruct (Agent.get_chat_history id self) as [history self1]. simpl in *.
  rewrite strdict_lookup_set_other by exact Hne. exact H.
Qed.

Lemma append_fixed id role content (self : Agent.Agent W float) :
  Agent.system_prompt (Agent.append_to_history id role content self) = Agent.system_prompt self /\
  Agent.client (Agent.append_to_history id role content self) = Agent.client self /\
  Agent.model (Agent.append_to_history id role content self)
  = Agent.model self.
Proof.
  unfold Agent.append_to_history.
  pose proof (get_fixed id self) as H.
  destruct (Agent.get_chat_history id self) as [history self1]. simpl in *. exact H.
Qed.

Lemma history_of_append id role content (self : Agent.Agent W float) :
  Agent.history_of id (Agent.append_to_history id role content self)
  = Agent.history_of id self ++ [ {| Agent.role := role; Agent.content := content |} ].
Proof.
  rewrite (history_of_stored id (Agent.append_to_history id role content self)).
  rewrite append_lookup_same. reflexivity.
Qed.

Lemma history_of_get id (self : Agent.Agent W float) :
  Agent.history_of id (snd (Agent.get_chat_history id self)) = Agent.history_of id self.
Proof.
  rewrite (history_of_stored id (snd (Agent.get_chat_history id self))).
  rewrite get_lookup_same. reflexivity.
Qed.

Lemma request_payload_fixed (a b : Agent.Agent W float) history format temperature max_tokens :
  Agent.model a = Agent.model b ->
  Agent.request_payload a history format temperature max_tokens
  = Agent.request_payload b history format temperature max_tokens.
Proof. unfold Agent.request_payload. intros ->. reflexivity. Qed.

(** What a call with a client does, in terms of the agent it started from. *)
Lemma generate_response_with_client id message format temperature max_tokens
    (self : Agent.Agent W float) c w :
  Agent.client self = Some c ->
  let asked := Agent.append_to_history id "user" (Some message)
                 (snd (Agent.get_chat_history id self)) in
  let payload := Agent.request_payload self (Agent.history_of id self ++ [Agent.user message])
                   format temperature max_tokens in
  Agent.history_of id asked = Agent.history_of id self ++ [Agent.user message] /\
  Agent.generate_response id message format temperature max_tokens self w =
    match Agent.create c payload w with
    | (inl raised, w') => (inl (Collaborator raised), asked, w', [payload])
    | (inr answer, w') =>
        (inr answer, Agent.append_to_history id "assistant" answer asked, w', [payload])
    end.
Proof.
  intros Hc asked payload.
  assert (Ha : Agent.history_of id asked = Agent.history_of id self ++ [Agent.user message]).
  { unfold asked. rewrite history_of_append, history_of_get. reflexivity. }
  split; [exact Ha |].
  unfold Agent.generate_response, Agent._ensure_client. rewrite Hc.
  fold asked. fold (Agent.history_of id asked). rewrite Ha.
  rewrite (request_payload_fixed asked self).
  - reflexivity.
  - unfold asked.
    rewrite (proj2 (proj2 (append_fixed _ _ _ _))).
    apply (proj2 (proj2 (get_fixed _ _))).
Qed.

Lemma asked_lookup_other id id' message (self : Agent.Agent W float) :
  id <> id' ->
  StrDict.lookup id'
    (Agent.chat_histories (Agent.append_to_history id "user" (Some message)
                       (snd (Agent.get_chat_history id self))))
  = StrDict.lookup id' (Agent.chat_histories self).
Proof.
  intros Hne. rewrite append_lookup_other by exact Hne.
  apply get_lookup_other. exact Hne.
Qed.

Lemma generate_response_returned id message format temperature max_tokens
    (self : Agent.Agent W float) w answer a w1 sent :
  Agent.generate_response id message format temperature max_tokens self w
  = (inr answer, a, w1, sent) ->
  Agent.history_of id a
  = Agent.history_of id self ++ [Agent.user message; Agent.assistant answer] /\
  List.length sent = 1%nat /\
  Agent.client a = Agent.client self /\
  forall other, other <> id ->
    StrDict.lookup other (Agent.chat_histories a)
    = StrDict.lookup other (Agent.chat_histories self).
Proof.
  intros H. destruct (Agent.client self) as [c |] eqn:Hc.
  - destruct (generate_response_with_client id message format temperature max_tokens
                self c w Hc) as [Ha E].
    rewrite E in H. clear E.
    destruct (Agent.create c _ w) as [[r | ans] w'']; [discriminate |].
    inversion H. subst. clear H. split.
    { rewrite history_of_append, Ha, <- app_assoc. reflexivity. }
    split; [reflexivity |]. split.
    { rewrite (proj1 (proj2 (append_fixed _ _ _ _))),
        (proj1 (proj2 (append_fixed _ _ _ _))), (proj1 (proj2 (get_fixed _ _))).
      exact Hc. }
    intros other Hne. rewrite append_lookup_other by congruence.
    apply asked_lookup_other. congruence.
  - unfold Agent.generate_response, Agent._ensure_client in H. rewrite Hc in H.
    discriminate.
Qed.

(** X14.  Every conversation an agent stores starts with its system
    message, whatever is called on it and in whatever order:
    [get_chat_history], [append_to_history], [reset_conversation] and
    [generate_response] keep that, and none of them changes the system
    prompt. *)
Theorem histories_stay_seeded (self self' : Agent.Agent W float) :
  Agent.seeded self ->
  Agent.steps self self' ->
  Agent.seeded self' /\ Agent.system_prompt self' = Agent.system_prompt self.
Proof.
  intros Hs Hsteps. induction Hsteps as [| mid self' _ [IHs IHp] Hstep].
  - split; [exact Hs | reflexivity].
  - assert (Hget : forall id (a : Agent.Agent W float),
               Agent.seeded a -> Agent.seeded (snd (Agent.get_chat_history id a))).
    { intros id a Ha id' history H.
      destruct (String.eqb id id') eqn:E.
      - apply String.eqb_eq in E. subst id'. rewrite get_lookup_same in H.
        inversion H. rewrite history_of_stored.
        destruct (StrDict.lookup id (Agent.chat_histories a)) as [h |] eqn:El.
        + destruct (Ha _ _ El) as (rest & ->).
          exists rest. unfold Agent.system_message.
          rewrite (proj1 (get_fixed id a)). reflexivity.
        + exists []. unfold Agent.system_message.
          rewrite (proj1 (get_fixed id a)). reflexivity.
      - apply String.eqb_neq in E. rewrite get_lookup_other in H by exact E.
        destruct (Ha _ _ H) as (rest & ->). exists rest.
        unfold Agent.system_message. rewrite (proj1 (get_fixed id a)). reflexivity. }
    assert (Happ : forall id role content (a : Agent.Agent W float),
               Agent.seeded a -> Agent.seeded (Agent.append_to_history id role content a)).
    { intros id role content a Ha id' history H.
      unfold Agent.system_message. rewrite (proj1 (append_fixed id role content a)).
      destruct (String.eqb id id') eqn:E.
      - apply String.eqb_eq in E. subst id'. rewrite append_lookup_same in H.
        inversion H. rewrite history_of_stored.
        destruct (StrDict.lookup id (Agent.chat_histories a)) as [h |] eqn:El.
        + destruct (Ha _ _ El) as (rest & ->). eexists. reflexivity.
        + eexists. reflexivity.
      - apply String.eqb_neq in E. rewrite append_lookup_other in H by exact E.
        exact (Ha _ _ H). }
    destruct Hstep as [id | id role content | [id |] | id message format temperature max_tokens w].
    + split; [apply Hget; exact IHs |].
      rewrite (proj1 (get_fixed id mid)). exact IHp.
    + split; [apply Happ; exact IHs |].
      rewrite (proj1 (append_fixed id role content mid)). exact IHp.
    + split; [| exact IHp].
      intros id' history H. simpl in H. rewrite strdict_lookup_remove in H.
      destruct (String.eqb id id'); [discriminate |]. exact (IHs _ _ H).
    + split; [| exact IHp]. intros id' history H. discriminate H.
    + unfold Agent.generate_response, Agent._ensure_client.
      destruct (Agent.client mid) as [c |]; [| split; [exact IHs | exact IHp]].
      match goal with |- context [Agent.create c ?p w] =>
        destruct (Agent.create c p w) as [[raised | answer] w'] end; simpl.
      * split; [apply Happ, Hget; exact IHs |].
        rewrite (proj1 (append_fixed _ _ _ _)), (proj1 (get_fixed _ _)). exact IHp.
      * split; [apply Happ, Happ, Hget; exact IHs |].
        rewrite (proj1 (append_fixed _ _ _ _)), (proj1 (append_fixed _ _ _ _)),
          (proj1 (get_fixed _ _)).
        exact IHp.
Qed.

(** X15.  An exchange that succeeds: the request carries the history of the
    conversation, a new one being the system message alone, followed by the
    user's message; the answer is returned; the conversation then holds
    the former history, the user's message and the answer, in this order. *)
Theorem generate_response_exchange id message format temperature max_tokens
    (self : Agent.Agent W float) c w answer w' :
  Agent.client self = Some c ->
  Agent.create c
    (Agent.request_payload self (Agent.history_of id self ++ [Agent.user message])
       format temperature max_tokens) w = (inr answer, w') ->
  exists self',
    Agent.generate_response id message format temperature max_tokens self w
    = (inr answer, self', w',
       [Agent.request_payload self (Agent.history_of id self ++ [Agent.user message])
          format temperature max_tokens]) /\
    Agent.history_of id self' = Agent.history_of id self ++ [Agent.user message; Agent.assistant answer].
Proof.
  intros Hc Hcreate.
  destruct (generate_response_with_client id message format temperature max_tokens
              self c w Hc) as [Ha ->].
  rewrite Hcreate. eexists. split; [reflexivity |].
  rewrite history_of_append, Ha, <- app_assoc. reflexivity.
Qed.

(** X16.  A request that fails is not rolled back: the exception leaves
    [generate_response] with the user's message already in the history and
    no answer after it, so a second call with the same message sends that
    message twice. *)
Theorem failed_request_keeps_user_message id message format temperature max_tokens
    (self : Agent.Agent W float) c w raised w' :
  Agent.client self = Some c ->
  Agent.create c
    (Agent.request_payload self (Agent.history_of id self ++ [Agent.user message])
       format temperature max_tokens) w = (inl raised, w') ->
  exists self',
    Agent.generate_response id message format temperature max_tokens self w
    = (inl (Collaborator raised), self', w',
       [Agent.request_payload self (Agent.history_of id self ++ [Agent.user message])
          format temperature max_tokens]) /\
    Agent.history_of id self' = Agent.history_of id self ++ [Agent.user message] /\
    snd (Agent.generate_response id message format temperature max_tokens self' w')
    = [Agent.request_payload self (Agent.history_of id self ++ [Agent.user message; Agent.user message])
         format temperature max_tokens].
Proof.
  intros Hc Hcreate.
  destruct (generate_response_with_client id message format temperature max_tokens
              self c w Hc) as [Ha ->].
  rewrite Hcreate. eexists. split; [reflexivity |]. split; [exact Ha |].
  set (asked := Agent.append_to_history id "user" (Some message)
                  (snd (Agent.get_chat_history id self))) in *.
  assert (Hc' : Agent.client asked = Some c).
  { unfold asked. rewrite (proj1 (proj2 (append_fixed _ _ _ _))),
      (proj1 (proj2 (get_fixed _ _))). exact Hc. }
  assert (Hm : Agent.model asked = Agent.model self).
  { unfold asked. rewrite (proj2 (proj2 (append_fixed _ _ _ _))).
    apply (proj2 (proj2 (get_fixed _ _))). }
  destruct (generate_response_with_client id message format temperature max_tokens
              asked c w' Hc') as [_ ->].
  rewrite Ha, <- app_assoc. simpl app.
  rewrite (request_payload_fixed asked self _ _ _ _ Hm).
  destruct (Agent.create c _ w') as [[r | a] w'']; reflexivity.
Qed.

(** X17.  After [reset_conversation], for one conversation or for all, the
    next request of that conversation carries the system message and the
    user's message and nothing else; resetting one conversation leaves the
    others as they were. *)
Theorem reset_starts_over id message format temperature max_tokens
    (self : Agent.Agent W float) c w which :
  Agent.client self = Some c ->
  which = None \/ which = Some id ->
  snd (Agent.generate_response id message format temperature max_tokens
         (Agent.reset_conversation which self) w)
  = [Agent.request_payload self [Agent.system_message self; Agent.user message]
       format temperature max_tokens] /\
  forall other, other <> id ->
    StrDict.lookup other (Agent.chat_histories (Agent.reset_conversation (Some id) self))
    = StrDict.lookup other (Agent.chat_histories self).
Proof.
  intros Hc Hwhich. split.
  - assert (Hr : Agent.client (Agent.reset_conversation which self) = Some c)
      by (destruct which; exact Hc).
    destruct (generate_response_with_client id message format temperature max_tokens
                (Agent.reset_conversation which self) c w Hr) as [_ ->].
    assert (Hh : Agent.history_of id (Agent.reset_conversation which self) = [Agent.system_message self]).
    { rewrite history_of_stored.
      destruct Hwhich as [-> | ->]; simpl; [reflexivity |].
      rewrite strdict_lookup_remove, String.eqb_refl. reflexivity. }
    rewrite Hh. simpl app.
    rewrite (request_payload_fixed (Agent.reset_conversation which self) self)
      by (destruct which; reflexivity).
    destruct (Agent.create c _ w) as [[r | a] w'']; reflexivity.
  - intros other Hne. simpl. rewrite strdict_lookup_remove.
    destruct (String.eqb id other) eqn:E; [| reflexivity].
    apply String.eqb_eq in E. congruence.
Qed.

(** X18.  One call of [generate_response] sends at most one request, and
    none exactly when the agent has no client, in which case the agent is
    left as it was; whatever the outcome, the other conversations are not
    touched. *)
Theorem generate_response_is_local id message format temperature max_tokens
    (self : Agent.Agent W float) w :
  let run := Agent.generate_response id message format temperature max_tokens self w in
  (Agent.client self = None ->
   run = (inl (Raise RuntimeError
                 ("OpenAI client is not configured. Set the OPENAI_API_KEY environment "
                  ++ "variable or provide an explicit api_key when instantiating the agent.")),
          self, w, [])) /\
  (Agent.client self <> None -> List.length (snd run) = 1%nat) /\
  (forall other, other <> id ->
     StrDict.lookup other (Agent.chat_histories (snd (fst (fst run))))
     = StrDict.lookup other (Agent.chat_histories self)).
Proof.
  intros run. unfold run. destruct (Agent.client self) as [c |] eqn:Hc.
  - destruct (generate_response_with_client id message format temperature max_tokens
                self c w Hc) as [_ ->].
    split; [discriminate |].
    destruct (Agent.create c _ w) as [[r | a] w'']; simpl.
    + split; [reflexivity |]. intros other Hne.
      apply asked_lookup_other. congruence.
    + split; [reflexivity |]. intros other Hne.
      rewrite append_lookup_other by congruence.
      apply asked_lookup_other. congruence.
  - unfold Agent.generate_response, Agent._ensure_client. rewrite Hc.
    split; [reflexivity |]. split; [congruence |]. reflexivity.
Qed.

End AgentFacts.
(* ================================================================= *)
(** ** Colours *)

Lemma colour_kept agent_name cache colour :
  StrDict.lookup agent_name cache = Some colour ->
  forall other,
    StrDict.lookup agent_name (snd (Utils._colour_for_agent other cache)) = Some colour.
Proof.
  intros H other. unfold Utils._colour_for_agent.
  destruct (StrDict.lookup other cache) eqn:E; simpl; [exact H |].
  rewrite strdict_lookup_set_other; [exact H |].
  intros ->. congruence.
Qed.

Lemma colours_kept names :
  forall agent_name cache colour,
    StrDict.lookup agent_name cache = Some colour ->
    StrDict.lookup agent_name (snd (Utils.colours names cache)) = Some colour.
Proof.
  induction names as [| n names IH]; intros a cache colour H; simpl; [exact H |].
  pose proof (colour_kept a cache colour H n) as Hk.
  destruct (Utils._colour_for_agent n cache) as [c1 cache1]. simpl in Hk.
  pose proof (IH a cache1 colour Hk) as Hr.
  destruct (Utils.colours names cache1) as [rest cache2]. exact Hr.
Qed.

Lemma colour_cached agent_name cache :
  StrDict.lookup agent_name (snd (Utils._colour_for_agent agent_name cache))
  = Some (fst (Utils._colour_for_agent agent_name cache)).
Proof.
  unfold Utils._colour_for_agent.
  destruct (StrDict.lookup agent_name cache) eqn:E; simpl; [exact E |].
  apply strdict_lookup_set_same.
Qed.

(** X19.  The colour of an agent never changes: whatever names are coloured
    after its first call, a later call for the agent returns the colour of
    the first. *)
Theorem colour_is_stable agent_name between cache :
  fst (Utils._colour_for_agent agent_name
         (snd (Utils.colours between
                 (snd (Utils._colour_for_agent agent_name cache)))))
  = fst (Utils._colour_for_agent agent_name cache).
Proof.
  pose proof (colours_kept between agent_name _ _ (colour_cached agent_name cache)) as H.
  unfold Utils._colour_for_agent at 1. rewrite H. reflexivity.
Qed.

Lemma colours_of_new names :
  forall cache,
    NoDup names ->
    (forall n, In n names -> StrDict.lookup n cache = None) ->
    fst (Utils.colours names cache)
    = map (fun i => Utils.palette_at (i mod 8))
          (seq (List.length cache) (List.length names)).
Proof.
  induction names as [| n names IH]; intros cache Hnd Hnew; [reflexivity |].
  inversion Hnd as [| ? ? Hn Hnd']. subst.
  assert (Hl : StrDict.lookup n cache = None) by (apply Hnew; left; reflexivity).
  cbn [Utils.colours]. unfold Utils._colour_for_agent. rewrite Hl.
  rewrite (strdict_set_fresh n _ cache Hl).
  specialize (IH (cache ++ [(n, Utils.palette_at
                                  (List.length cache mod List.length Utils._AGENT_PALETTE))])
                 Hnd').
  destruct (Utils.colours names _) as [rest cache2]. simpl fst in *.
  rewrite IH.
  - rewrite length_app. simpl List.length. rewrite Nat.add_1_r. reflexivity.
  - intros m Hm. rewrite lookup_app_fresh, (Hnew m (or_intror Hm)).
    destruct (String.eqb m n) eqn:E; [| reflexivity].
    apply String.eqb_eq in E. subst. contradiction.
Qed.

(** X20.  Colours go round the palette: from an empty cache, the agents
    named for the first time get the colours of the palette in its order,
    the ninth agent the first colour again. *)
Theorem colours_rotate names :
  NoDup names ->
  fst (Utils.colours names [])
  = map (fun i => Utils.palette_at (i mod 8)) (seq 0 (List.length names)).
Proof.
  intros Hnd. apply (colours_of_new names [] Hnd). reflexivity.
Qed.

Lemma palette_at_inj i j :
  (i < 8)%nat -> (j < 8)%nat -> Utils.palette_at i = Utils.palette_at j -> i = j.
Proof.
  intros Hi Hj.
  do 8 (destruct i as [| i]; [do 8 (destruct j as [| j]; [try reflexivity; discriminate |]); lia |]).
  lia.
Qed.

Lemma NoDup_map_in {A B} (f : A -> B) (l : list A) :
  (forall x y, In x l -> In y l -> f x = f y -> x = y) ->
  NoDup l -> NoDup (map f l).
Proof.
  induction l as [| a l IH]; simpl; intros Hinj Hnd; [constructor |].
  inversion Hnd as [| ? ? Ha Hl]. subst. constructor.
  - intros Hin. apply in_map_iff in Hin. destruct Hin as (x & Hx & Hin).
    assert (x = a) by (apply Hinj; auto). subst. contradiction.
  - apply IH; [| exact Hl]. intros x y Hx Hy. apply Hinj; auto.
Qed.

(** X21.  The first eight agents get eight different colours: among up to
    eight names coloured from an empty cache, two different names never
    share a colour. *)
Theorem first_eight_colours_differ names :
  NoDup names ->
  (List.length names <= 8)%nat ->
  NoDup (fst (Utils.colours names [])).
Proof.
  intros Hnd Hlen. rewrite (colours_of_new names [] Hnd) by reflexivity.
  simpl List.length.
  apply NoDup_map_in; [| apply seq_NoDup].
  intros i j Hi Hj H. apply in_seq in Hi, Hj.
  rewrite !Nat.mod_small in H by lia.
  apply palette_at_inj; [lia | lia | exact H].
Qed.
(* ================================================================= *)
(** ** Executing a step *)

Section ExecutorFacts.
Variable W : Type.
Variable float : Type.
Variable default_temperature : float.
Variable json_loads : string -> response value.
Variable json_dumps : value -> string.
Variable print_agent_output : string -> option string -> W -> response unit * W.
Variable interpreter_text : exn_class -> value -> value -> string.

Lemma generate_response_sent id message format temperature max_tokens
    (self : Agent.Agent W float) w :
  (List.length (snd (Agent.generate_response id message format temperature max_tokens
                       self w)) <= 1)%nat.
Proof.
  unfold Agent.generate_response.
  destruct (Agent._ensure_client self) as [e | c]; [simpl; lia |].
  match goal with |- context [Agent.create c ?p w] =>
    destruct (Agent.create c p w) as [[r | a] w'] end; simpl; lia.
Qed.

Lemma requests_app (a b : list (Executor.event float)) :
  Executor.requests (a ++ b) = (Executor.requests a + Executor.requests b)%nat.
Proof. unfold Executor.requests. rewrite filter_app, length_app. reflexivity. Qed.

Lemma runs_app (a b : list (Executor.event float)) :
  Executor.runs (a ++ b) = (Executor.runs a + Executor.runs b)%nat.
Proof. unfold Executor.runs. rewrite filter_app, length_app. reflexivity. Qed.

Lemma requests_asked (sent : list (Agent.Payload float)) :
  Executor.requests (map (@Executor.Asked float) sent) = List.length sent.
Proof.
  unfold Executor.requests. induction sent as [| p sent IH]; simpl; [reflexivity |].
  rewrite IH. reflexivity.
Qed.

Lemma runs_asked (sent : list (Agent.Payload float)) :
  Executor.runs (map (@Executor.Asked float) sent) = 0%nat.
Proof.
  unfold Executor.runs. induction sent as [| p sent IH]; simpl; [reflexivity | exact IH].
Qed.

Lemma respond_bounds remaining :
  forall (self : Executor.ExecutorAgent W float) id message w,
    let d := snd (Executor.respond default_temperature json_loads print_agent_output
                    interpreter_text self id message remaining w) in
    (Executor.runs d <= remaining)%nat /\
    (Executor.requests d <= Executor.runs d + 1)%nat.
Proof.
  induction remaining as [| remaining IH]; intros self id message w;
    cbn [Executor.respond]; cbv zeta;
    pose proof (generate_response_sent id message
                  (Some [(KStr "type", JStr "json_object")]) default_temperature None
                  (Executor.agent self) w) as Hsent;
    destruct (Agent.generate_response id message _ default_temperature None
                (Executor.agent self) w) as [[[[e | response] a] w1] sent];
    simpl in Hsent;
    try (simpl; rewrite runs_asked, requests_asked; lia);
    destruct (print_agent_output (Agent.name a) response w1) as [[what | u] w2];
    try (simpl; rewrite runs_asked, requests_asked; lia);
    destruct (Executor.loads json_loads response) as [e | parsed];
    try (simpl; rewrite runs_asked, requests_asked; lia);
    destruct parsed as [| b | z | s | items | parsed];
    try (simpl; rewrite runs_asked, requests_asked; lia).
  - destruct (truthy _); simpl; rewrite runs_asked, requests_asked; lia.
  - destruct (truthy _); [| simpl; rewrite runs_asked, requests_asked; lia].
    match goal with |- context [Executor.invoke ?s ?n ?a w2] =>
      destruct (Executor.invoke s n a w2) as [outcome w3] end.
    match goal with |- context [Executor.respond _ _ _ _ ?s ?i ?m remaining ?w] =>
      specialize (IH s i m w);
      destruct (Executor.respond default_temperature json_loads print_agent_output
                  interpreter_text s i m remaining w) as [[[res self'] w4] later] end.
    simpl in *. rewrite runs_app, requests_app, runs_asked, requests_asked.
    change (Executor.runs (Executor.Ran _ _ outcome :: later))
      with (S (Executor.runs later)).
    change (Executor.requests (Executor.Ran _ _ outcome :: later))
      with (Executor.requests later).
    lia.
Qed.

(** X22.  One step runs at most [max_skill_invocations] skills, none when
    the bound is zero or negative, and sends at most one request more than
    the skills it ran: the loop of [execute_step] always ends. *)
Theorem skill_runs_are_bounded (self : Executor.ExecutorAgent W float) task step
    prior_results feedback w :
  let d := snd (Executor.execute_step default_temperature json_loads json_dumps
                  print_agent_output interpreter_text
                  self task step prior_results feedback w) in
  (Z.of_nat (Executor.runs d) <= Z.max 0 (Executor.max_skill_invocations self)) /\
  (Executor.requests d <= Executor.runs d + 1)%nat.
Proof.
  intros d. unfold d, Executor.execute_step.
  destruct (respond_bounds (Z.to_nat (Executor.max_skill_invocations self)) self
              (Executor.conversation_id task step)
              (Executor.base_message json_dumps self task step prior_results feedback) w)
    as [Hr Hq].
  split; [lia | exact Hq].
Qed.

Lemma invoke_keeps (steady : W -> Prop) (self : Executor.ExecutorAgent W float) :
  (forall skill_name kwargs w,
     steady w ->
     steady (snd (Skills.execute skill_name kwargs (Executor.skill_registry self) w))) ->
  forall skill_name arguments w,
    steady w -> steady (snd (Executor.invoke self skill_name arguments w)).
Proof.
  intros Hskills skill_name arguments w Hw. unfold Executor.invoke.
  destruct arguments as [| b | z | s | items | kwargs]; try exact Hw.
  destruct (forallb Executor.is_str_key kwargs); [| exact Hw].
  apply Hskills. exact Hw.
Qed.

Lemma respond_returns (steady : W -> Prop) remaining c registry :
  (forall p w, steady w ->
     exists text w' parsed,
       Agent.create c p w = (inr (Some text), w') /\
       json_loads text = inr (JDict parsed) /\ steady w') ->
  (forall n t w, steady w ->
     exists w', print_agent_output n t w = (inr tt, w') /\ steady w') ->
  (forall skill_name kwargs w,
     steady w -> steady (snd (Skills.execute skill_name kwargs registry w))) ->
  forall (self : Executor.ExecutorAgent W float) id message w,
    Agent.client (Executor.agent self) = Some c ->
    Executor.skill_registry self = registry ->
    steady w ->
    exists parsed self' w' d,
      Executor.respond default_temperature json_loads print_agent_output
        interpreter_text self id message remaining w = (inr parsed, self', w', d) /\
      Executor.requests d = (Executor.runs d + 1)%nat.
Proof.
  intros Hcreate Hprint Hskills.
  induction remaining as [| remaining IH]; intros self id message w Hc Hreg Hw;
    cbn [Executor.respond]; cbv zeta;
    destruct (generate_response_with_client W float id message
                (Some [(KStr "type", JStr "json_object")]) default_temperature None
                (Executor.agent self) c w Hc) as [_ ->];
    match goal with |- context [Agent.create c ?p w] =>
      destruct (Hcreate p w Hw) as (text & w1 & parsed & -> & Hparsed & Hw1) end;
    match goal with |- context [print_agent_output ?n ?t ?w0] =>
      destruct (Hprint n t w0 Hw1) as (w2 & -> & Hw2) end;
    unfold Executor.loads; rewrite Hparsed.
  - destruct (truthy _); eexists _, _, _, _; (split; [reflexivity | reflexivity]).
  - destruct (truthy _);
      [| eexists _, _, _, _; (split; [reflexivity | reflexivity])].
    match goal with |- context [Executor.invoke ?s ?n ?a w2] =>
      assert (Hw3 : steady (snd (Executor.invoke s n a w2)))
        by (apply (invoke_keeps steady s); [simpl; rewrite Hreg; exact Hskills | exact Hw2]);
      destruct (Executor.invoke s n a w2) as [outcome w3] end.
    cbn [snd] in Hw3.
    match goal with |- context [Executor.respond _ _ _ _ ?s ?i ?m remaining ?w] =>
      destruct (IH s i m w) as (parsed' & self' & w4 & later & -> & Hq) end.
    { simpl. rewrite (proj1 (proj2 (append_fixed W float _ _ _ _))),
        (proj1 (proj2 (append_fixed W float _ _ _ _))),
        (proj1 (proj2 (get_fixed W float _ _))).
      exact Hc. }
    { exact Hreg. }
    { exact Hw3. }
    eexists _, _, _, _. split; [reflexivity |].
    rewrite requests_app, runs_app. simpl map.
    change (Executor.requests [Executor.Asked ?p]) with 1%nat.
    change (Executor.runs [Executor.Asked ?p]) with 0%nat.
    change (Executor.runs (Executor.Ran ?n ?a outcome :: later))
      with (S (Executor.runs later)).
    change (Executor.requests (Executor.Ran ?n ?a outcome :: later))
      with (Executor.requests later).
    lia.
Qed.

(** X23.  What a skill does cannot make a step fail.  Let [steady] hold of
    the world the step starts in and be kept by the client, the log and the
    skills, and let, in a steady world, the client answer a request with a
    text that [json.loads] reads as an object and the log accept it.  Then
    [execute_step] returns an answer, whether the skills asked for are
    unknown, get arguments they cannot take, or raise; and it has then sent
    one request more than it ran skills.  Nothing is asked of [json.loads]
    on texts the client does not answer with. *)
Theorem skill_failures_stay_inside (steady : W -> Prop)
    (self : Executor.ExecutorAgent W float) c task step prior_results feedback w :
  Agent.client (Executor.agent self) = Some c ->
  steady w ->
  (forall p w, steady w ->
     exists text w' parsed,
       Agent.create c p w = (inr (Some text), w') /\
       json_loads text = inr (JDict parsed) /\ steady w') ->
  (forall n t w, steady w ->
     exists w', print_agent_output n t w = (inr tt, w') /\ steady w') ->
  (forall skill_name kwargs w,
     steady w ->
     steady (snd (Skills.execute skill_name kwargs (Executor.skill_registry self) w))) ->
  exists parsed self' w' d,
    Executor.execute_step default_temperature json_loads json_dumps
      print_agent_output interpreter_text self task step prior_results feedback w
    = (inr parsed, self', w', d) /\
    Executor.requests d = (Executor.runs d + 1)%nat.
Proof.
  intros Hc Hw Hcreate Hprint Hskills. unfold Executor.execute_step.
  apply (respond_returns steady _ c (Executor.skill_registry self)
           Hcreate Hprint Hskills); auto.
Qed.

Lemma respond_conversation remaining :
  forall (self : Executor.ExecutorAgent W float) id message w parsed self' w' d,
    Executor.respond default_temperature json_loads print_agent_output
      interpreter_text self id message remaining w = (inr parsed, self', w', d) ->
    (exists answer rest,
       Agent.history_of id (Executor.agent self')
       = Agent.history_of id (Executor.agent self)
         ++ Agent.user message :: Agent.assistant answer :: rest /\
       List.length rest = (2 * Executor.runs d)%nat) /\
    Executor.skill_registry self' = Executor.skill_registry self /\
    forall other, other <> id ->
      StrDict.lookup other (Agent.chat_histories (Executor.agent self'))
      = StrDict.lookup other (Agent.chat_histories (Executor.agent self)).
Proof.
  induction remaining as [| remaining IH];
    intros self id message w parsed0 self' w' d;
    cbn [Executor.respond]; cbv zeta;
    destruct (Agent.generate_response id message _ default_temperature None
                (Executor.agent self) w) as [[[[e | response] a] w1] sent] eqn:G;
    try discriminate;
    apply generate_response_returned in G; destruct G as (Hh & _ & _ & Ho);
    destruct (print_agent_output (Agent.name a) response w1) as [[what | u] w2];
    try discriminate;
    destruct (Executor.loads json_loads response) as [e | parsed];
    try discriminate;
    destruct parsed as [| b | z | s | items | parsed]; try discriminate.
  - intros H.
    assert (E : (inr parsed, Executor.with_agent self a, w2,
                 map (@Executor.Asked float) sent)
                = (inr parsed0, self', w', d))
      by (destruct (truthy _); exact H).
    inversion E. subst. simpl. rewrite runs_asked. split; [| split; [reflexivity | exact Ho]].
    exists response, []. split; [exact Hh | reflexivity].
  - destruct (truthy _).
    + match goal with |- context [Executor.invoke ?s ?n ?a w2] =>
        destruct (Executor.invoke s n a w2) as [outcome w3] end.
      match goal with |- context [Executor.respond _ _ _ _ ?s ?i ?m remaining ?w] =>
        specialize (IH s i m w);
        destruct (Executor.respond default_temperature json_loads print_agent_output
                    interpreter_text s i m remaining w)
          as [[[res self1] w4] later] end.
      intros H. inversion H. subst. clear H.
      destruct (IH _ _ _ _ eq_refl) as ((answer & rest & Hh' & Hlen) & Hreg & Ho').
      simpl in Hh', Hreg, Ho'. split; [| split].
      * exists response. eexists. split.
        { rewrite Hh', Hh, <- app_assoc. simpl app. reflexivity. }
        rewrite runs_app, runs_asked.
        change (Executor.runs (Executor.Ran ?n ?a outcome :: later))
          with (S (Executor.runs later)).
        simpl List.length. lia.
      * exact Hreg.
      * intros other Hne. rewrite (Ho' other Hne). apply Ho. exact Hne.
    + intros H. inversion H. subst. simpl. rewrite runs_asked.
      split; [| split; [reflexivity | exact Ho]].
      exists response, []. split; [exact Hh | reflexivity].
Qed.

(** X24.  A step that returns leaves its whole exchange in the
    conversation of the step, whose name is made of the names of the task
    and of the step: the first message, its answer, and one message and one
    answer for every skill that ran.  A later attempt at the same step
    therefore sends all of it again.  The registry and the other
    conversations are left as they were. *)
Theorem step_conversation_grows (self : Executor.ExecutorAgent W float) task step
    prior_results feedback w parsed self' w' d :
  Executor.execute_step default_temperature json_loads json_dumps
    print_agent_output interpreter_text self task step prior_results feedback w
  = (inr parsed, self', w', d) ->
  (exists answer rest,
     Agent.history_of (Executor.conversation_id task step) (Executor.agent self')
     = Agent.history_of (Executor.conversation_id task step) (Executor.agent self)
       ++ Agent.user (Executor.base_message json_dumps self task step
                        prior_results feedback)
       :: Agent.assistant answer :: rest /\
     List.length rest = (2 * Executor.runs d)%nat) /\
  Executor.skill_registry self' = Executor.skill_registry self /\
  forall other, other <> Executor.conversation_id task step ->
    StrDict.lookup other (Agent.chat_histories (Executor.agent self'))
    = StrDict.lookup other (Agent.chat_histories (Executor.agent self)).
Proof.
  unfold Executor.execute_step. apply respond_conversation.
Qed.

End ExecutorFacts.
(* ================================================================= *)
(** ** Bounds on the calls of a run *)

Lemma count_app p (a b : list event) : count p (a ++ b) = (count p a + count p b)%nat.
Proof. unfold count. rewrite filter_app, length_app. reflexivity. Qed.

Lemma count_none p (d : list event) :
  Forall (fun e => p e = false) d -> count p d = 0%nat.
Proof.
  unfold count. induction 1 as [| e d He _ IH]; simpl; [reflexivity |].
  rewrite He. exact IH.
Qed.

Lemma count_le_length p (d : list event) : (count p d <= List.length d)%nat.
Proof. unfold count. apply filter_length_le. Qed.

Section Bounds.
Variable W : Type.
Variable self : AutomationWorkflow W.
Variable t : Task.

Lemma attempts_loop_calls attempts :
  forall step approved fb sa w,
    let d := snd (attempts_loop self t step attempts approved fb sa w) in
    (count is_execute d <= List.length attempts)%nat /\
    (count is_review_step d <= count is_execute d)%nat /\
    Forall (fun e => step_call e = true) d.
Proof.
  induction attempts as [| n later IH]; intros step approved fb sa w;
    cbn [attempts_loop].
  - unfold ret. simpl. repeat split; auto.
  - unfold bind, call, lift, ret.
    destruct (execute_step (executor self) t step approved fb w) as [[msg | out] w1].
    { simpl. unfold count. simpl. repeat split; try lia. repeat constructor. }
    destruct (review_step (reviewer self) t step out n w1) as [[msg | rev] w2].
    { simpl. unfold count. simpl. repeat split; try lia. repeat constructor. }
    destruct (getitem step "id") as [e | id].
    { simpl. unfold count. simpl. repeat split; try lia. repeat constructor. }
    destruct (truthy (get rev "approved")).
    { simpl. unfold count. simpl. repeat split; try lia. repeat constructor. }
    destruct (truthy (get rev "requires_replan")).
    { simpl. unfold count. simpl. repeat split; try lia. repeat constructor. }
    match goal with |- context [attempts_loop self t step later ?a ?f ?s ?w0] =>
      specialize (IH step a f s w0);
      destruct (attempts_loop self t step later a f s w0) as [[r w3] d3] end.
    simpl in *. destruct IH as (I1 & I2 & I3).
    unfold count in *. simpl. repeat split; try lia. repeat constructor. exact I3.
Qed.

Lemma steps_loop_calls steps :
  forall index all approved w,
    let d := snd (steps_loop self t steps index all approved w) in
    (count is_execute d
     <= List.length steps * Z.to_nat (max_step_iterations self))%nat /\
    (count is_review_step d <= count is_execute d)%nat /\
    Forall (fun e => step_call e = true) d.
Proof.
  induction steps as [| raw later IH]; intros index all approved w;
    cbn [steps_loop]; unfold bind, lift, ret, raise; cbv zeta.
  - cbn [snd]. repeat split; [apply Nat.le_0_l | apply Nat.le_0_l | constructor].
  - destruct (py_dict raw) as [e | copied].
    { cbn [snd]. repeat split; [apply Nat.le_0_l | apply Nat.le_0_l | constructor]. }
    match goal with |- context [attempts_loop self t ?s ?a ?p ?f ?sa w] =>
      pose proof (attempts_loop_calls a s p f sa w) as Ha;
      destruct (attempts_loop self t s a p f sa w) as [[[e | [[sa' ap'] rr]] w1] d1] end;
      cbn [snd] in Ha; destruct Ha as (A1 & A2 & A3); rewrite length_seq in A1;
      cbn [List.length]; rewrite Nat.mul_succ_l.
    { cbn [snd app]. repeat split; [lia | lia | exact A3]. }
    destruct rr.
    { cbn [snd]. rewrite !app_nil_r. cbn [app]. repeat split; [lia | lia | exact A3]. }
    destruct (negb (approved_last sa')).
    { destruct (getitem _ "id") as [e | id]; cbn [snd]; rewrite ?app_nil_r;
        cbn [app]; (repeat split; [lia | lia | exact A3]). }
    match goal with |- context [steps_loop self t later ?i ?a ?p ?w0] =>
      specialize (IH i a p w0);
      destruct (steps_loop self t later i a p w0) as [[r w2] d2] end.
    cbn [snd app] in *. destruct IH as (I1 & I2 & I3).
    rewrite !count_app. repeat split; [lia | lia |]. apply Forall_app. auto.
Qed.

Lemma finalise_calls p all w :
  Forall (fun e => closing e = true) (snd (finalise self t p all w)) /\
  (count is_final_review (snd (finalise self t p all w)) = 1)%nat.
Proof.
  unfold finalise, synthesis, _write_report, bind, call, lift, ret, emit.
  destruct (final_review (reviewer self) t p all w) as [[msg | summary] w1].
  { simpl. split; [repeat constructor | reflexivity]. }
  destruct (coordinator self) as [c |].
  - destruct (synthesise_outcome c t p all summary w1) as [[msg | s] w2].
    { simpl. split; [repeat constructor | reflexivity]. }
    destruct (to_markdown _) as [e | text];
      [simpl; split; [repeat constructor | reflexivity] |].
    cbn [task name].
    destruct (write_text self _ text w2) as [[what | u] w3]; simpl;
      (split; [repeat constructor | reflexivity]).
  - destruct (to_markdown _) as [e | text];
      [simpl; split; [repeat constructor | reflexivity] |].
    cbn [task name].
    destruct (write_text self _ text w1) as [[what | u] w3]; simpl;
      (split; [repeat constructor | reflexivity]).
Qed.

Lemma step_call_not_closing d :
  Forall (fun e => step_call e = true) d ->
  Forall (fun e => is_final_review e = false) d.
Proof.
  apply Forall_impl. intros [] H; try reflexivity; discriminate H.
Qed.

Lemma closing_not_step d :
  Forall (fun e => closing e = true) d ->
  Forall (fun e => is_execute e = false) d /\
  Forall (fun e => is_review_step e = false) d.
Proof.
  intros H. split; (eapply Forall_impl; [| exact H]);
    intros [] E; try reflexivity; discriminate E.
Qed.

(** The calls of one execution of a plan, by its outcome. *)
Lemma execute_plan_calls p w steps :
  py_or (get p "steps") (JList []) = JList steps ->
  let run := _execute_plan self t p w in
  (count is_execute (snd run)
   <= List.length steps * Z.to_nat (max_step_iterations self))%nat /\
  (count is_review_step (snd run) <= count is_execute (snd run))%nat /\
  (count is_final_review (snd run) <= 1)%nat /\
  (forall fb, fst (fst run) = inr (None, fb) ->
     count is_final_review (snd run) = 0%nat).
Proof.
  intros Hsteps run. unfold run, _execute_plan. rewrite Hsteps.
  unfold bind, ret.
  pose proof (steps_loop_calls steps 1 [] [] w) as Hs.
  destruct (steps_loop self t steps 1 [] [] w) as [[[e | exit] w1] d1];
    simpl in Hs; destruct Hs as (S1 & S2 & S3);
    pose proof (count_none _ _ (step_call_not_closing _ S3)) as S4.
  { simpl. repeat split; try lia; discriminate. }
  destruct exit as [all | feedback].
  - destruct (finalise_calls p all w1) as [F1 F2].
    destruct (closing_not_step _ F1) as [F3 F4].
    apply count_none in F3, F4.
    pose proof (finalise_events W self t p all w1) as Hf.
    destruct (finalise self t p all w1) as [[r w2] d2]. simpl in *.
    rewrite !count_app. repeat split; try lia.
    intros fb E. subst r.
    destruct (Hf _ _ _ eq_refl) as (_ & _ & Hres & _).
    destruct (Hres _ _ eq_refl) as (x & Hx & _). discriminate.
  - simpl. rewrite app_nil_r. repeat split; try lia.
Qed.

Lemma finalise_returned p all w r fb w' d :
  finalise self t p all w = (inr (Some r, fb), w', d) ->
  exists tail,
    d = FinalReview p all (inr (reviewer_summary r)) :: tail /\
    Forall (fun e => (is_synthesis e || is_write_report e)%bool = true) tail /\
    plan r = p /\ step_results r = all /\
    (coordinator self = None -> coordinator_summary r = None /\
                                Forall (fun e => is_synthesis e = false) tail).
Proof.
  unfold finalise, synthesis, _write_report, bind, call, lift, ret, emit.
  destruct (final_review (reviewer self) t p all w) as [[msg | summary] w1];
    [discriminate |].
  destruct (coordinator self) as [c |].
  - destruct (synthesise_outcome c t p all summary w1) as [[msg | s] w2];
      [discriminate |].
    destruct (to_markdown _) as [e | text]; [discriminate |].
    cbn [task name].
    destruct (write_text self _ text w2) as [[what | u] w3]; [discriminate |].
    simpl. intros H. inversion H. subst. eexists. split; [reflexivity |].
    split; [repeat constructor |]. split; [reflexivity |]. split; [reflexivity |].
    discriminate.
  - destruct (to_markdown _) as [e | text]; [discriminate |].
    cbn [task name].
    destruct (write_text self _ text w1) as [[what | u] w3]; [discriminate |].
    simpl. intros H. inversion H. subst. eexists. split; [reflexivity |].
    split; [repeat constructor |]. split; [reflexivity |]. split; [reflexivity |].
    intros _. split; [reflexivity | repeat constructor].
Qed.

Lemma finalise_without_coordinator p all w :
  coordinator self = None ->
  Forall (fun e => is_synthesis e = false) (snd (finalise self t p all w)).
Proof.
  intros Hc. unfold finalise, synthesis, _write_report, bind, call, lift, ret, emit.
  rewrite Hc.
  destruct (final_review (reviewer self) t p all w) as [[msg | summary] w1];
    [repeat constructor |].
  destruct (to_markdown _) as [e | text]; [repeat constructor |].
  cbn [task name].
  destruct (write_text self _ text w1) as [[what | u] w3]; repeat constructor.
Qed.

(** One execution of a plan, by its outcome: the calls on the steps come
    first; the final review, the synthesis and the report follow when the
    steps are all approved. *)
Lemma execute_plan_shape p w res w' d :
  _execute_plan self t p w = (res, w', d) ->
  (count is_final_review d <= 1)%nat /\
  (forall fb, res = inr (None, fb) -> Forall (fun e => step_call e = true) d) /\
  (forall r fb, res = inr (Some r, fb) ->
     exists pre tail,
       d = pre ++ FinalReview (plan r) (step_results r) (inr (reviewer_summary r))
                  :: tail /\
       Forall (fun e => step_call e = true) pre /\
       Forall (fun e => (is_synthesis e || is_write_report e)%bool = true) tail /\
       (coordinator self = None -> coordinator_summary r = None)) /\
  (coordinator self = None -> Forall (fun e => is_synthesis e = false) d).
Proof.
  unfold _execute_plan.
  destruct (py_or (get p "steps") (JList [])) as [| b | z | s | steps | entries];
    try (unfold raise; intros H; inversion H; subst;
         repeat split; try discriminate; try constructor; apply Nat.le_0_l).
  unfold bind, ret.
  pose proof (steps_loop_calls steps 1 [] [] w) as Hs.
  destruct (steps_loop self t steps 1 [] [] w) as [[[e | exit] w1] d1];
    cbn [snd] in Hs; destruct Hs as (_ & _ & S3);
    pose proof (count_none _ _ (step_call_not_closing _ S3)) as S4;
    assert (S5 : Forall (fun e => is_synthesis e = false) d1)
      by (eapply Forall_impl; [| exact S3]; intros [] E; try reflexivity; discriminate E).
  { intros H. inversion H. subst. repeat split; try discriminate; [lia | auto]. }
  destruct exit as [all | feedback].
  - destruct (finalise_calls p all w1) as [_ F2].
    pose proof (finalise_returned p all w1) as Hr.
    pose proof (finalise_without_coordinator p all w1) as Hn.
    pose proof (finalise_events W self t p all w1) as He.
    destruct (finalise self t p all w1) as [[r w2] d2]. cbn [snd] in *.
    intros H. inversion H. subst. clear H.
    rewrite count_app. repeat split.
    + lia.
    + intros fb E. subst res.
      destruct (He _ _ _ eq_refl) as (_ & _ & Hres & _).
      destruct (Hres _ _ eq_refl) as (x & Hx & _). discriminate.
    + intros r fb E. subst res.
      destruct (Hr _ _ _ _ eq_refl) as (tail & -> & Ht & <- & <- & Hco).
      exists d1, tail. repeat split; auto. intros Hc. apply Hco. exact Hc.
    + intros Hc. apply Forall_app. auto.
  - intros H. inversion H. subst. rewrite app_nil_r.
    repeat split; try discriminate; [lia | auto | auto].
Qed.

Lemma execution_error_not_attempts p w e w' d :
  _execute_plan self t p w = (inl e, w', d) -> e <> plan_attempts_exceeded t.
Proof.
  intros H E. apply execute_plan_events in H.
  destruct H as (_ & _ & _ & _ & Herr & _).
  destruct (Herr _ eq_refl) as [[(msg & ->) | [(cls & ->) | (id & ->)]] | [-> _]];
    try discriminate E.
Qed.

Lemma execution_no_planning d :
  Forall (fun e => execution_event e = true) d ->
  count is_propose d = 0%nat /\ count is_review_plan d = 0%nat /\
  Forall (fun e => is_kickoff e = false) d.
Proof.
  intros H. repeat split.
  - apply count_none. eapply Forall_impl; [| exact H].
    intros [] E; try reflexivity; discriminate E.
  - apply count_none. eapply Forall_impl; [| exact H].
    intros [] E; try reflexivity; discriminate E.
  - eapply Forall_impl; [| exact H]. intros [] E; try reflexivity; discriminate E.
Qed.

Lemma count_cons p e (d : list event) :
  count p (e :: d) = ((if p e then 1 else 0) + count p d)%nat.
Proof. unfold count. simpl. destruct (p e); reflexivity. Qed.

Lemma plan_loop_proposals remaining :
  forall pa fb prev w res w' d,
    plan_loop self t remaining pa fb prev w = (res, w', d) ->
    (count is_propose d <= remaining)%nat /\
    (count is_review_plan d <= count is_propose d)%nat /\
    (res = inl (plan_attempts_exceeded t) ->
     count is_propose d = remaining /\ count is_review_plan d = remaining).
Proof.
  induction remaining as [| remaining IH]; intros pa fb prev w res w' d H.
  - simpl in H. run_inv H. repeat split; auto.
  - destruct (plan_loop_iteration _ _ _ _ _ _ _ _ _ _ _ H)
      as [msg -> -> | p msg -> -> | p rev w2 rest Happ Hrest ->
          | p rev w2 e exec Happ Hexec -> -> | p rev w2 r fbk exec Happ Hexec -> ->
          | p rev w2 fbk exec Happ Hexec Hmax -> ->
          | p rev w2 fbk exec w3 rest Happ Hexec Hmax Hrest ->];
      rewrite ?count_cons, ?count_app; cbn [is_propose is_review_plan];
      try (apply IH in Hrest; destruct Hrest as (I1 & I2 & I3));
      try (pose proof (execution_error_not_attempts _ _ _ _ _ Hexec) as Hne);
      try (apply execute_plan_events in Hexec; destruct Hexec as (Hex & _);
           destruct (execution_no_planning _ Hex) as (C1 & C2 & _);
           rewrite ?C1, ?C2);
      change (count is_propose []) with 0%nat;
      change (count is_review_plan []) with 0%nat;
      (split; [lia | split; [lia |]]); intros E;
      try discriminate E.
    + destruct (I3 E). split; lia.
    + inversion E. contradiction.
    + destruct (I3 E). split; lia.
Qed.

(** X25.  What bounds a run is the number of plan attempts: [run_task]
    asks for at most [max_plan_iterations] plans, none when the bound is
    zero or negative, whether an attempt ends with a rejected plan or with
    a re-plan during execution; and it raises that the plan attempts are
    exceeded only after exactly that many proposals, each of them
    reviewed. *)
Theorem plan_attempts_are_bounded w res w' d :
  run_task self t w = (res, w', d) ->
  (Z.of_nat (count is_propose d) <= Z.max 0 (max_plan_iterations self)) /\
  (count is_review_plan d <= count is_propose d)%nat /\
  (res = inl (plan_attempts_exceeded t) ->
   count is_propose d = Z.to_nat (max_plan_iterations self) /\
   count is_review_plan d = Z.to_nat (max_plan_iterations self)).
Proof.
  intros H. apply run_task_inv in H.
  destruct H as [(msg & -> & ->) | (kick & w1 & loop & -> & Hk & H)].
  - unfold count. simpl. repeat split; try lia; discriminate.
  - apply plan_loop_proposals in H. destruct H as (I1 & I2 & I3).
    assert (K1 : count is_propose kick = 0%nat).
    { apply count_none. eapply Forall_impl; [| exact Hk].
      intros [] E; try reflexivity; discriminate E. }
    assert (K2 : count is_review_plan kick = 0%nat).
    { apply count_none. eapply Forall_impl; [| exact Hk].
      intros [] E; try reflexivity; discriminate E. }
    rewrite !count_app, K1, K2.
    split; [lia | split; [lia |]]. intros E. destruct (I3 E). split; lia.
Qed.

(** X26.  One execution of a plan calls [execute_step] at most
    [max_step_iterations] times per step of the plan, reviews no more
    executions than it made, and makes at most one final review. *)
Theorem step_calls_are_bounded p w steps :
  py_or (get p "steps") (JList []) = JList steps ->
  let d := snd (_execute_plan self t p w) in
  (Z.of_nat (count is_execute d)
   <= Z.of_nat (List.length steps) * Z.max 0 (max_step_iterations self)) /\
  (count is_review_step d <= count is_execute d)%nat /\
  (count is_final_review d <= 1)%nat.
Proof.
  intros Hsteps d.
  destruct (execute_plan_calls p w steps Hsteps) as (C1 & C2 & C3 & _).
  fold d in C1, C2, C3. repeat split; [| exact C2 | exact C3].
  apply Nat2Z.inj_le in C1. rewrite Nat2Z.inj_mul in C1. lia.
Qed.

Lemma step_calls_not_closing d :
  Forall (fun e => step_call e = true) d ->
  Forall (fun e => closing e = false) d.
Proof.
  apply Forall_impl. intros [] H; try reflexivity; discriminate H.
Qed.

Lemma plan_loop_closing remaining :
  forall pa fb prev w res w' d,
    plan_loop self t remaining pa fb prev w = (res, w', d) ->
    (count is_final_review d <= 1)%nat /\
    (forall r, res = inr r ->
       exists pre tail,
         d = pre ++ FinalReview (plan r) (step_results r) (inr (reviewer_summary r))
                    :: tail /\
         Forall (fun e => closing e = false) pre /\
         Forall (fun e => (is_synthesis e || is_write_report e)%bool = true) tail /\
         (coordinator self = None -> coordinator_summary r = None)) /\
    Forall (fun e => is_kickoff e = false) d /\
    (coordinator self = None -> Forall (fun e => is_synthesis e = false) d).
Proof.
  induction remaining as [| remaining IH]; intros pa fb prev w res w' d H.
  - simpl in H. run_inv H. repeat split; auto; discriminate.
  - destruct (plan_loop_iteration _ _ _ _ _ _ _ _ _ _ _ H)
      as [msg -> -> | p msg -> -> | p rev w2 rest Happ Hrest ->
          | p rev w2 e exec Happ Hexec -> -> | p rev w2 r fbk exec Happ Hexec -> ->
          | p rev w2 fbk exec Happ Hexec Hmax -> ->
          | p rev w2 fbk exec w3 rest Happ Hexec Hmax Hrest ->];
      rewrite ?count_cons, ?count_app; cbn [is_final_review];
      try (apply IH in Hrest; destruct Hrest as (I1 & I2 & I3 & I4));
      try (pose proof (execute_plan_shape _ _ _ _ _ Hexec) as (S1 & S2 & S3 & S4);
           apply execute_plan_events in Hexec; destruct Hexec as (Hex & _);
           destruct (execution_no_planning _ Hex) as (_ & _ & Hk)).
    + repeat split; try discriminate; repeat constructor.
    + repeat split; try discriminate; repeat constructor.
    + repeat split; [lia | | repeat constructor; exact I3
                     | intros Hc; repeat constructor; auto].
      intros r E. destruct (I2 r E) as (pre & tail & -> & Hp & Ht & Hco).
      exists (ProposePlan fb prev (inr p) :: ReviewPlan p (S pa) (inr rev) :: pre), tail.
      repeat split; auto; repeat constructor; exact Hp.
    + repeat split; [lia | discriminate | repeat constructor; exact Hk
                     | intros Hc; repeat constructor; auto].
    + repeat split; [lia | | repeat constructor; exact Hk
                     | intros Hc; repeat constructor; auto].
      intros r0 E. inversion E. subst r0.
      destruct (S3 _ _ eq_refl) as (pre & tail & -> & Hp & Ht & Hco).
      exists (ProposePlan fb prev (inr p) :: ReviewPlan p (S pa) (inr rev) :: pre), tail.
      repeat split; auto; repeat constructor; apply step_calls_not_closing; exact Hp.
    + repeat split; [lia | discriminate | repeat constructor; exact Hk
                     | intros Hc; repeat constructor; auto].
    + pose proof (S2 _ eq_refl) as Hsc.
      pose proof (count_none _ _ (step_call_not_closing _ Hsc)) as Hz.
      repeat split; [lia | | repeat constructor; apply Forall_app; auto
                     | intros Hc; repeat constructor; apply Forall_app; auto].
      intros r E. destruct (I2 r E) as (pre & tail & -> & Hp & Ht & Hco).
      exists (ProposePlan fb prev (inr p) :: ReviewPlan p (S pa) (inr rev)
              :: exec ++ pre), tail.
      split; [simpl; rewrite <- app_assoc; reflexivity |].
      split; [| split; assumption].
      repeat constructor. apply Forall_app. split; [| exact Hp].
      apply step_calls_not_closing. exact Hsc.
Qed.

(** X27.  The final review closes a run.  A run makes at most one final
    review; a run that returns made exactly one, on the plan and the step
    results it returns, and returns its answer as the reviewer summary;
    before it there is no final review, synthesis or report, after it
    nothing but the synthesis and the report. *)
Theorem final_review_closes_the_run w res w' d :
  run_task self t w = (res, w', d) ->
  (count is_final_review d <= 1)%nat /\
  (forall r, res = inr r ->
     exists pre tail,
       d = pre ++ FinalReview (plan r) (step_results r) (inr (reviewer_summary r))
                  :: tail /\
       Forall (fun e => closing e = false) pre /\
       Forall (fun e => (is_synthesis e || is_write_report e)%bool = true) tail).
Proof.
  intros H. apply run_task_inv in H.
  destruct H as [(msg & -> & ->) | (kick & w1 & loop & -> & Hk & H)].
  - split; [unfold count; simpl; lia | discriminate].
  - apply plan_loop_closing in H. destruct H as (I1 & I2 & _ & _).
    assert (Hkc : Forall (fun e => closing e = false) kick).
    { eapply Forall_impl; [| exact Hk]. intros [] E; try reflexivity; discriminate E. }
    assert (K1 : count is_final_review kick = 0%nat).
    { apply count_none. eapply Forall_impl; [| exact Hk].
      intros [] E; try reflexivity; discriminate E. }
    rewrite count_app, K1. split; [lia |].
    intros r E. destruct (I2 r E) as (pre & tail & -> & Hp & Ht & _).
    exists (kick ++ pre), tail. rewrite <- app_assoc.
    repeat split; auto. apply Forall_app. auto.
Qed.

(** X28.  Without a coordinator a run makes no kickoff and no synthesis,
    and the result it returns has no coordinator summary. *)
Theorem without_coordinator w res w' d :
  coordinator self = None ->
  run_task self t w = (res, w', d) ->
  Forall (fun e => is_kickoff e = false /\ is_synthesis e = false) d /\
  (forall r, res = inr r -> coordinator_summary r = None).
Proof.
  intros Hc H. unfold run_task in H. rewrite Hc in H.
  run_inv H; [run_inv Hrun |].
  run_inv Hrun. simpl.
  apply plan_loop_closing in Hrun0. destruct Hrun0 as (_ & I2 & I3 & I4).
  split.
  - specialize (I4 Hc). rewrite Forall_forall in *. intros e He. auto.
  - intros r E. destruct (I2 r E) as (_ & _ & _ & _ & _ & Hco). auto.
Qed.

End Bounds.
(* ================================================================= *)
(** ** Where the step results come from *)

Section Origins.
Variable W : Type.
Variable self : AutomationWorkflow W.
Variable t : Task.

Lemma steps_loop_results steps :
  forall index all approved w all' w' d,
    steps_loop self t steps index all approved w = (inr (Completed all'), w', d) ->
    exists new,
      all' = all ++ new /\
      Forall (fun x =>
                exists k raw copied,
                  nth_error steps k = Some raw /\
                  py_dict raw = inr copied /\
                  step x = prepared copied (index + k) /\
                  getitem (step x) "id" = inr (step_id x)) new.
Proof.
  induction steps as [| raw later IH]; intros index all approved w all' w' d H.
  - simpl in H. run_inv H. exists []. rewrite app_nil_r. split; [reflexivity | constructor].
  - cbn [steps_loop] in H. run_inv H. run_step.
    match goal with
    | H : inr ?c = py_dict raw |- _ => rename c into copied; symmetry in H; rename H into Hcopy
    end.
    fold (prepared copied index) in *.
    pose proof (getitem_setdefault copied "id"
                  (JStr ("step-" ++ str_of_nat index)%string)) as Hid.
    fold (prepared copied index) in Hid.
    run_step.
    match goal with
    | H : attempts_loop _ _ _ _ _ _ _ _ = (inr ?a, ?wx, ?dx) |- _ =>
        destruct a as [[sa ap] rr];
        apply (attempts_loop_ok W self t (prepared copied index) _ Hid) in H;
        destruct H as (new & Hsa & _ & _ & _ & Hnew)
    end.
    simpl in Hsa. subst sa.
    destruct rr; [run_step |].
    destruct (approved_last new); simpl in *; [| run_step; run_step; run_step].
    match goal with
    | H : steps_loop _ _ _ _ _ _ _ = _ |- _ =>
        apply IH in H; destruct H as (more & -> & Hmore)
    end.
    exists (new ++ more). split; [rewrite app_assoc; reflexivity |].
    apply Forall_app. split.
    + eapply Forall_impl; [| exact Hnew]. intros x [Hx1 Hx2].
      exists 0%nat, raw, copied. rewrite Nat.add_0_r, Hx2, Hx1.
      repeat split; auto.
    + eapply Forall_impl; [| exact Hmore].
      intros x (k & raw' & copied' & Hk & Hc & Hs & Hg).
      exists (S k), raw', copied'. rewrite Nat.add_succ_r. repeat split; auto.
Qed.

Lemma execute_plan_results p w r fb w' d :
  _execute_plan self t p w = (inr (Some r, fb), w', d) ->
  plan r = p /\
  Forall (fun x =>
            (exists k, step_of_plan p k (step x)) /\
            getitem (step x) "id" = inr (step_id x)) (step_results r).
Proof.
  unfold _execute_plan. intros H.
  destruct (py_or (get p "steps") (JList [])) as [| b | z | s | steps | entries] eqn:Hs;
    try (run_inv H; fail).
  run_inv H. destruct a as [all | feedback]; [| run_step].
  apply steps_loop_results in Hrun. destruct Hrun as (new & -> & Hnew).
  apply finalise_events in Hrun0. destruct Hrun0 as (_ & _ & Hres & _).
  destruct (Hres _ _ eq_refl) as (x & Hx & _ & _ & Hp & Hr).
  inversion Hx. subst x. split; [exact Hp |]. rewrite Hr. simpl.
  eapply Forall_impl; [| exact Hnew].
  intros x0 (k & raw & copied & Hk & Hc & Hst & Hg). split; [| exact Hg].
  exists k, steps, raw, copied. repeat split; auto.
Qed.

(** The result of a run is the result of an execution of its plan, the
    last thing the run did. *)
Lemma plan_loop_returns remaining :
  forall pa fb prev w r w' d,
    plan_loop self t remaining pa fb prev w = (inr r, w', d) ->
    exists p w2 fbk pre exec,
      _execute_plan self t p w2 = (inr (Some r, fbk), w', exec) /\
      d = pre ++ exec.
Proof.
  induction remaining as [| remaining IH]; intros pa fb prev w r w' d H.
  - simpl in H. run_inv H.
  - destruct (plan_loop_iteration _ _ _ _ _ _ _ _ _ _ _ H)
      as [msg _ E | p msg _ E | p rev w2 rest Happ Hrest ->
          | p rev w2 e exec Happ Hexec E _ | p rev w2 r0 fbk exec Happ Hexec E ->
          | p rev w2 fbk exec Happ Hexec Hmax E _
          | p rev w2 fbk exec w3 rest Happ Hexec Hmax Hrest ->];
      try discriminate.
    + destruct (IH _ _ _ _ _ _ _ Hrest) as (p' & w3 & fbk & pre & exec & He & ->).
      exists p', w3, fbk,
        (ProposePlan fb prev (inr p) :: ReviewPlan p (S pa) (inr rev) :: pre), exec.
      split; [exact He | reflexivity].
    + inversion E. subst r0.
      exists p, w2, fbk, [ProposePlan fb prev (inr p); ReviewPlan p (S pa) (inr rev)], exec.
      split; [exact Hexec | reflexivity].
    + destruct (IH _ _ _ _ _ _ _ Hrest) as (p' & w4 & fbk' & pre & exec' & He & ->).
      exists p', w4, fbk',
        (ProposePlan fb prev (inr p) :: ReviewPlan p (S pa) (inr rev) :: exec ++ pre),
        exec'.
      split; [exact He |]. simpl. rewrite <- app_assoc. reflexivity.
Qed.

(** X29.  Every step result a run returns comes from the plan it returns:
    its step is a copy of one of the steps of that plan, with
    [step-<position>] as [id] when the planner gave none, positions
    counting from 1, and its [step_id] is the [id] of that step. *)
Theorem step_results_come_from_the_plan w r w' d :
  run_task self t w = (inr r, w', d) ->
  Forall (fun x =>
            (exists k, step_of_plan (plan r) k (step x)) /\
            getitem (step x) "id" = inr (step_id x)) (step_results r).
Proof.
  intros H. apply run_task_inv in H.
  destruct H as [(msg & E & _) | (kick & w1 & loop & _ & _ & H)]; [discriminate |].
  apply plan_loop_returns in H. destruct H as (p & w2 & fbk & pre & exec & H & _).
  apply execute_plan_results in H. destruct H as [<- H]. exact H.
Qed.

Lemma finalise_with_coordinator c p all w r fb w' d :
  coordinator self = Some c ->
  finalise self t p all w = (inr (Some r, fb), w', d) ->
  exists s text,
    coordinator_summary r = Some s /\
    d = [FinalReview (plan r) (step_results r) (inr (reviewer_summary r));
         SynthesiseOutcome (plan r) (step_results r) (reviewer_summary r) (inr s);
         WriteReport (safe_name (name t) ++ ".md")%string text].
Proof.
  intros Hc. unfold finalise, synthesis, _write_report, bind, call, lift, ret, emit.
  rewrite Hc.
  destruct (final_review (reviewer self) t p all w) as [[msg | summary] w1];
    [discriminate |].
  destruct (synthesise_outcome c t p all summary w1) as [[msg | s] w2];
    [discriminate |].
  destruct (to_markdown _) as [e | text]; [discriminate |].
  cbn [task name].
  destruct (write_text self _ text w2) as [[what | u] w3]; [discriminate |].
  simpl. intros H. inversion H. subst. exists s, text. split; reflexivity.
Qed.

(** X30.  With a coordinator a run starts with the kickoff, its only one,
    and stops there when the kickoff raises.  A run that returns ends with
    the final review, the synthesis and the report, in this order: the
    synthesis is given the plan, the step results and the reviewer summary
    of the result, and its answer is the coordinator summary of the
    result. *)
Theorem with_coordinator c w res w' d :
  coordinator self = Some c ->
  run_task self t w = (res, w', d) ->
  (exists resp rest,
     d = Kickoff resp :: rest /\
     Forall (fun e => is_kickoff e = false) rest /\
     (forall msg, resp = inl msg -> rest = [] /\ res = inl (Collaborator msg))) /\
  (forall r, res = inr r ->
     exists s pre text,
       coordinator_summary r = Some s /\
       d = pre ++
           [FinalReview (plan r) (step_results r) (inr (reviewer_summary r));
            SynthesiseOutcome (plan r) (step_results r) (reviewer_summary r) (inr s);
            WriteReport (safe_name (name t) ++ ".md")%string text]).
Proof.
  intros Hc H. unfold run_task in H. rewrite Hc in H.
  run_inv H.
  { (* the kickoff raised *)
    run_inv Hrun; [| run_inv Hrun1].
    run_inv Hrun0. split; [| discriminate].
    eexists _, []. split; [reflexivity |]. split; [constructor |].
    intros msg E. inversion E. subst. split; [reflexivity | congruence]. }
  run_inv Hrun. run_inv Hrun1. run_inv Hrun2. simpl.
  pose proof (plan_loop_closing W self t _ _ _ _ _ _ _ _ Hrun0) as (_ & _ & Hk & _).
  split.
  - eexists _, _. split; [reflexivity |]. split; [exact Hk | discriminate].
  - intros r E. subst res.
    apply plan_loop_returns in Hrun0.
    destruct Hrun0 as (p & w2 & fbk & pre & exec & He & ->).
    unfold _execute_plan in He.
    destruct (py_or (get p "steps") (JList [])) as [| b | z | s0 | steps | entries];
      try (run_inv He; fail).
    run_inv He. destruct a as [all | feedback]; [| run_step].
    match goal with Hf : finalise _ _ _ _ _ = _ |- _ =>
      destruct (finalise_with_coordinator c _ _ _ _ _ _ _ Hc Hf) as (s1 & text & Hs & ->)
    end.
    exists s1. eexists. exists text. split; [exact Hs |].
    rewrite app_comm_cons, !app_assoc. reflexivity.
Qed.

End Origins.
(* ================================================================= *)
(** ** Instances of the further properties *)


Lemma run_all_results_follow_tasks_witness :
  exists rs w' d,
    run_all (workflow 3 3 2) [demo; demo]
            (script 2 [approve; approve] [approve; approve]) = (inr rs, w', d) /\
    map task rs = [demo; demo].
Proof.
  eexists _, _, _. split; [vm_compute; reflexivity |].
  eapply (run_all_results_follow_tasks world (workflow 3 3 2) [demo; demo]
            (script 2 [approve; approve] [approve; approve])).
  vm_compute. reflexivity.
Defined.

Lemma run_all_stops_at_first_failure_witness :
  exists e w' d,
    run_all (workflow 3 3 2) [demo; demo; demo] (script 1 [approve] [approve])
      = (inl e, w', d) /\
    count is_propose d = 2%nat.
Proof.
  eexists _, _, _. split; [| shelve].
  eapply (run_all_stops_at_first_failure world (workflow 3 3 2) [demo] demo [demo]
            (script 1 [approve] [approve])).
  - vm_compute. reflexivity.
  - vm_compute. reflexivity.
  Unshelve. reflexivity.
Defined.

Lemma safe_name_shape_witness :
  list_ascii_of_string (safe_name "Q3 Report!") <> [] /\
  forallb slug_char (list_ascii_of_string (safe_name "Q3 Report!")) = true /\
  hd_error (list_ascii_of_string (safe_name "Q3 Report!")) <> Some "-"%char /\
  final (list_ascii_of_string (safe_name "Q3 Report!")) <> Some "-"%char.
Proof. apply (safe_name_shape "Q3 Report!"). reflexivity. Defined.

Lemma safe_name_idempotent_witness :
  safe_name (safe_name "Q3 Report!") = safe_name "Q3 Report!".
Proof. apply (safe_name_idempotent "Q3 Report!"). reflexivity. Defined.

Lemma safe_name_ignores_case_witness :
  safe_name "Weekly Digest" = safe_name "weekly digest".
Proof.
  apply (safe_name_ignores_case "Weekly Digest" "weekly digest");
    reflexivity.
Defined.

Lemma safe_name_fallback_witness : safe_name "?!" = "task".
Proof. apply (safe_name_fallback "?!"); reflexivity. Defined.

Lemma run_task_report_written_witness :
  exists r w' d,
    run_task (workflow 3 3 2) demo (script 1 [approve] [approve]) = (inr r, w', d) /\
    exists text,
      to_markdown r = inr text /\
      final d = Some (WriteReport "t1.md" text) /\
      text_or_absent (plan r) "plan_overview" = true /\
      text_or_absent (reviewer_summary r) "feedback" = true.
Proof.
  eexists _, _, _. split; [vm_compute; reflexivity |].
  eapply (run_task_report_written world (workflow 3 3 2) demo
           (script 1 [approve] [approve])).
  vm_compute. reflexivity.
Defined.
Lemma register_never_replaces_witness :
  Skills.register "echo" Canned.broken "Another one." Canned.one_skill
  = inl (Raise ValueError "A skill named 'echo' is already registered.").
Proof.
  apply (proj1 (register_never_replaces (list string) Canned.one_skill "echo"
                  Canned.echo_skill eq_refl "echo" Canned.broken "Another one.")).
  reflexivity.
Defined.

Lemma registered_skill_runs_witness :
  Skills.execute (JStr "echo") [(KStr "text", JStr "hi")] Canned.one_skill []
  = (inr "hi", []).
Proof.
  exact (registered_skill_runs (list string) "echo" Canned.echo "Repeat the text."
           (Skills.empty (list string)) Canned.one_skill [(KStr "text", JStr "hi")] []
           eq_refl eq_refl eq_refl).
Defined.

Lemma prompt_fragment_grows_witness :
  exists sig,
    Skills.inspect_signature Canned.echo = inr sig /\
    Skills.to_prompt_fragment Canned.one_skill
    = ("- " ++ "echo" ++ sig ++ ": " ++ "Repeat the text.")%string.
Proof.
  exact (prompt_fragment_grows (list string) "echo" Canned.echo "Repeat the text."
           (Skills.empty (list string)) Canned.one_skill eq_refl).
Defined.

Lemma listed_skill_is_registered_witness :
  StrDict.lookup "echo" Canned.one_skill = Some Canned.echo_skill.
Proof.
  apply (listed_skill_is_registered (list string) Canned.one_skill Canned.echo_skill).
  - exact (@Skills.built_register (list string) (Skills.empty _) "echo" Canned.echo
             "Repeat the text." Canned.one_skill (Skills.built_empty _) eq_refl).
  - left. reflexivity.
Defined.

Lemma histories_stay_seeded_witness :
  Agent.seeded
    (snd (fst (fst (Agent.generate_response "plan::t1" "hello" None tt None
                      (Canned.assistant_with Canned.answering) ["hi"])))) /\
  Agent.system_prompt
    (snd (fst (fst (Agent.generate_response "plan::t1" "hello" None tt None
                      (Canned.assistant_with Canned.answering) ["hi"]))))
  = "You are the Executor.".
Proof.
  apply (histories_stay_seeded (list string) unit
           (Canned.assistant_with Canned.answering)).
  - intros id history H. discriminate H.
  - eapply Agent.steps_more; [apply Agent.steps_none | apply Agent.step_generate].
Defined.

Lemma generate_response_exchange_witness :
  exists self',
    Agent.generate_response "plan::t1" "hello" None tt None
      (Canned.assistant_with Canned.answering) ["hi"]
    = (inr (Some "hi"), self', [],
       [Agent.request_payload (Canned.assistant_with Canned.answering)
          [Agent.system_message (Canned.assistant_with Canned.answering);
           Agent.user "hello"] None tt None]) /\
    Agent.history_of "plan::t1" self'
    = [Agent.system_message (Canned.assistant_with Canned.answering);
       Agent.user "hello"; Agent.assistant (Some "hi")].
Proof.
  exact (generate_response_exchange (list string) unit "plan::t1" "hello" None tt None
           (Canned.assistant_with Canned.answering) Canned.answering ["hi"]
           (Some "hi") [] eq_refl eq_refl).
Defined.

Lemma failed_request_keeps_user_message_witness :
  exists self',
    Agent.generate_response "plan::t1" "hello" None tt None
      (Canned.assistant_with Canned.unreachable) []
    = (inl (Collaborator "connection refused"), self', [],
       [Agent.request_payload (Canned.assistant_with Canned.unreachable)
          [Agent.system_message (Canned.assistant_with Canned.unreachable);
           Agent.user "hello"] None tt None]) /\
    Agent.history_of "plan::t1" self'
    = [Agent.system_message (Canned.assistant_with Canned.unreachable);
       Agent.user "hello"] /\
    snd (Agent.generate_response "plan::t1" "hello" None tt None self' [])
    = [Agent.request_payload (Canned.assistant_with Canned.unreachable)
         [Agent.system_message (Canned.assistant_with Canned.unreachable);
          Agent.user "hello"; Agent.user "hello"] None tt None].
Proof.
  exact (failed_request_keeps_user_message (list string) unit "plan::t1" "hello" None
           tt None (Canned.assistant_with Canned.unreachable) Canned.unreachable []
           "connection refused" [] eq_refl eq_refl).
Defined.

Lemma reset_starts_over_witness :
  snd (Agent.generate_response "plan::t1" "hello" None tt None
         (Agent.reset_conversation (Some "plan::t1")
            (Canned.assistant_with Canned.answering)) [])
  = [Agent.request_payload (Canned.assistant_with Canned.answering)
       [Agent.system_message (Canned.assistant_with Canned.answering);
        Agent.user "hello"] None tt None].
Proof.
  exact (proj1 (reset_starts_over (list string) unit "plan::t1" "hello" None tt None
                  (Canned.assistant_with Canned.answering) Canned.answering []
                  (Some "plan::t1") eq_refl (or_intror eq_refl))).
Defined.

Lemma colours_rotate_witness :
  fst (Utils.colours ["Planner"; "Executor"; "Reviewer"; "Coordinator"] [])
  = [Utils.CYAN; Utils.GREEN; Utils.MAGENTA; Utils.YELLOW].
Proof.
  apply (colours_rotate ["Planner"; "Executor"; "Reviewer"; "Coordinator"]).
  repeat (constructor;
          [simpl; intros H; repeat destruct H as [H | H]; discriminate H || exact H |]).
  constructor.
Defined.

Lemma first_eight_colours_differ_witness :
  NoDup (fst (Utils.colours ["Planner"; "Executor"; "Reviewer"; "Coordinator"] [])).
Proof.
  apply (first_eight_colours_differ ["Planner"; "Executor"; "Reviewer"; "Coordinator"]).
  - repeat (constructor;
            [simpl; intros H; repeat destruct H as [H | H]; discriminate H || exact H |]).
    constructor.
  - simpl. lia.
Defined.

Lemma skill_failures_stay_inside_witness :
  exists parsed self' w' d,
    Executor.execute_step tt Canned.parse Canned.dump Canned.silent Canned.no_text
      Canned.skilled Scripted.demo Canned.step_one [] JNull
      ["call nothing"; "call echo"; "{}"]
    = (inr parsed, self', w', d) /\
    Executor.requests d = (Executor.runs d + 1)%nat.
Proof.
  apply (skill_failures_stay_inside (list string) unit tt Canned.parse Canned.dump
           Canned.silent Canned.no_text Canned.well_scripted Canned.skilled
           Canned.answering).
  - reflexivity.
  - reflexivity.
  - intros p [| answer rest] Hw.
    + exists "{}", [], []. repeat split; reflexivity.
    + unfold Canned.well_scripted in Hw. simpl in Hw.
      apply andb_prop in Hw. destruct Hw as [Ha Hrest].
      unfold Canned.object_text in Ha.
      destruct (Canned.parse answer) as [what | [| b | z | s | items | parsed]] eqn:E;
        try discriminate Ha.
      exists answer, rest, parsed. repeat split; [exact E | exact Hrest].
  - intros n t w Hw. exists w. split; [reflexivity | exact Hw].
  - intros skill_name kwargs w Hw. unfold Skills.execute.
    destruct (_ || _)%bool; [exact Hw |].
    destruct skill_name as [| b | z | s | items | entries]; simpl; try exact Hw.
    destruct (String.eqb s "echo"); simpl; [| exact Hw].
    unfold Skills.skill_execute.
    destruct (Skills.has_keyword "self" kwargs); simpl; [exact Hw |].
    destruct (get kwargs "text"); exact Hw.
Defined.

Lemma step_conversation_grows_witness :
  exists answer rest,
    Agent.history_of (Executor.conversation_id Scripted.demo Canned.step_one)
      (Executor.agent
         (snd (fst (fst (Executor.execute_step tt Canned.parse Canned.dump
                           Canned.silent Canned.no_text Canned.skilled Scripted.demo
                           Canned.step_one [] JNull ["call echo"; "{}"])))))
    = Agent.history_of (Executor.conversation_id Scripted.demo Canned.step_one)
        (Executor.agent Canned.skilled)
      ++ Agent.user (Executor.base_message Canned.dump Canned.skilled Scripted.demo
                       Canned.step_one [] JNull)
      :: Agent.assistant answer :: rest /\
    List.length rest = 2%nat.
Proof.
  destruct (step_conversation_grows (list string) unit tt Canned.parse Canned.dump
              Canned.silent Canned.no_text Canned.skilled Scripted.demo
              Canned.step_one [] JNull ["call echo"; "{}"]
              [] _ _ _ eq_refl) as ((answer & rest & Hh & Hl) & _ & _).
  exists answer, rest. split; [exact Hh | exact Hl].
Defined.
Lemma plan_attempts_are_bounded_witness :
  exists res w' d,
    run_task (workflow 3 3 2) demo
      (script 3 (repeat approve 3) [replan; replan; replan]) = (res, w', d) /\
    count is_propose d = 3%nat /\ count is_review_plan d = 3%nat.
Proof.
  eexists _, _, _. split; [vm_compute; reflexivity |].
  edestruct (plan_attempts_are_bounded world (workflow 3 3 2) demo
               (script 3 (repeat approve 3) [replan; replan; replan]))
    as (_ & _ & H); [vm_compute; reflexivity |].
  apply H. reflexivity.
Defined.

Lemma step_calls_are_bounded_witness :
  (count is_execute
     (snd (_execute_plan (workflow 3 3 2) demo one_step_plan
             (script 3 [] [retry; retry; approve]))) <= 3)%nat.
Proof.
  pose proof (proj1 (step_calls_are_bounded world (workflow 3 3 2) demo one_step_plan
                       (script 3 [] [retry; retry; approve])
                       [JDict [(KStr "id", JStr "step-1")]] eq_refl)) as H.
  apply Nat2Z.inj_le. exact H.
Defined.

Lemma final_review_closes_the_run_witness :
  exists res w' d,
    run_task (workflow 3 3 2) demo (script 2 (repeat approve 2) [replan; approve])
      = (res, w', d) /\
    (count is_final_review d <= 1)%nat.
Proof.
  eexists _, _, _. split; [vm_compute; reflexivity |].
  edestruct (final_review_closes_the_run world (workflow 3 3 2) demo
               (script 2 (repeat approve 2) [replan; approve]))
    as (H & _); [vm_compute; reflexivity |].
  exact H.
Defined.

Lemma without_coordinator_witness :
  exists r w' d,
    run_task (workflow 3 3 2) demo (script 1 [approve] [approve]) = (inr r, w', d) /\
    coordinator_summary r = None.
Proof.
  eexists _, _, _. split; [vm_compute; reflexivity |].
  edestruct (without_coordinator world (workflow 3 3 2) demo
               (script 1 [approve] [approve]))
    as (_ & H); [reflexivity | vm_compute; reflexivity |].
  apply H. reflexivity.
Defined.

Lemma step_results_come_from_the_plan_witness :
  exists r w' d,
    run_task (workflow 3 3 2) demo (script 1 [approve] [approve]) = (inr r, w', d) /\
    Forall (fun x =>
              (exists k, step_of_plan (plan r) k (step x)) /\
              getitem (step x) "id" = inr (step_id x)) (step_results r).
Proof.
  eexists _, _, _. split; [vm_compute; reflexivity |].
  eapply (step_results_come_from_the_plan world (workflow 3 3 2) demo
            (script 1 [approve] [approve])).
  vm_compute. reflexivity.
Defined.

Lemma with_coordinator_witness :
  exists r w' d,
    run_task Canned.coordinated demo (script 1 [approve] [approve]) = (inr r, w', d) /\
    exists s pre text,
      coordinator_summary r = Some s /\
      d = pre ++
          [FinalReview (plan r) (step_results r) (inr (reviewer_summary r));
           SynthesiseOutcome (plan r) (step_results r) (reviewer_summary r) (inr s);
           WriteReport (safe_name (name demo) ++ ".md")%string text].
Proof.
  eexists _, _, _. split; [vm_compute; reflexivity |].
  edestruct (with_coordinator world Canned.coordinated demo
               (Canned.coordinator_saying "All done.")
               (script 1 [approve] [approve]))
    as (_ & H); [reflexivity | vm_compute; reflexivity |].
  apply H. reflexivity.
Defined.
